(** * StreamTime: a shallow embedding of the background poller

    The extension's background script ([background.js]) polls Twitch, Kick
    and YouTube, stores the live lists, and raises notifications; the
    options page ([options.js]) writes the settings record.  This file
    embeds those functions over an explicit [World] (storage, cookies,
    network, clock, console, notifications and the script's one global) and
    proves properties of them.

    Conventions of the embedding:
    - an [async] function is a state-and-exception computation [M]; one
      handler runs from start to end, no other handler runs between its
      [await]s;
    - the browser's stores ([storage.local], [cookies], [notifications])
      are total: a call never fails;
    - the network and the clock belong to the world: the reply to a request
      depends on the request and on how many were sent before it;
    - the self-call of [checkTwitch] and [checkKick] after a token refresh
      is bounded by a fuel argument; [OutOfFuel] is not a result of the
      program, it says that the fuel given was not enough. *)

From stdpp Require Import base tactics option list strings pretty gmap.
From Stdlib Require Import ZArith Lia.

Set Warnings "-register-all".

Open Scope string_scope.
Open Scope list_scope.
Open Scope Z_scope.

(** ** JavaScript values

    The values that cross the program's boundaries are JSON data: settings
    typed in the options page, API responses, entries of the live lists.
    Numbers are the integer-valued ones (ids, counts, millisecond
    timestamps); [NaN] only arises inside [computeUptime] and has its own
    type there.  An object is its list of own properties in insertion
    order. *)

Inductive JsVal :=
| JUndef
| JNull
| JBool (b : bool)
| JNum (n : Z)
| JStr (s : string)
| JArr (items : list JsVal)
| JObj (props : list (string * JsVal)).

Abbreviation Obj := (list (string * JsVal)).

(** [ToBoolean]. *)
Definition truthy (v : JsVal) : bool :=
  match v with
  | JUndef | JNull => false
  | JBool b => b
  | JNum n => negb (n =? 0)
  | JStr s => negb (String.eqb s EmptyString)
  | JArr _ | JObj _ => true
  end.

(** [a || b]. *)
Definition js_or (a b : JsVal) : JsVal := if truthy a then a else b.

(** [ToString], as template literals and [+] on a string apply it. *)
Fixpoint toString (v : JsVal) : string :=
  match v with
  | JUndef => "undefined"
  | JNull => "null"
  | JBool true => "true"
  | JBool false => "false"
  | JNum n => pretty n
  | JStr s => s
  | JArr items =>
      String.concat ","
        (List.map (fun x => match x with
                            | JUndef | JNull => EmptyString
                            | _ => toString x
                            end) items)
  | JObj _ => "[object Object]"
  end.

(** ** Objects as property lists *)

Section Props.
Context {V : Type}.

Fixpoint lookup_prop (k : string) (o : list (string * V)) : option V :=
  match o with
  | [] => None
  | (k', v) :: o' => if decide (k = k') then Some v else lookup_prop k o'
  end.

(** [o[k] = v]: in place when the key exists, appended otherwise. *)
Fixpoint set_prop (k : string) (v : V) (o : list (string * V))
  : list (string * V) :=
  match o with
  | [] => [(k, v)]
  | (k', v') :: o' =>
      if decide (k = k') then (k, v) :: o' else (k', v') :: set_prop k v o'
  end.

(** [delete o[k]]. *)
Fixpoint delete_prop (k : string) (o : list (string * V))
  : list (string * V) :=
  match o with
  | [] => []
  | (k', v') :: o' =>
      if decide (k = k') then delete_prop k o' else (k', v') :: delete_prop k o'
  end.

(** [Object.assign(target, source)]. *)
Definition Object_assign (target source : list (string * V))
  : list (string * V) :=
  fold_left (fun t kv => set_prop kv.1 kv.2 t) source target.

(** [Object.keys(o)]. *)
Definition Object_keys (o : list (string * V)) : list string := List.map fst o.
End Props.

(** [o.k] on an object: [undefined] when the property is missing. *)
Definition get (o : Obj) (k : string) : JsVal :=
  default JUndef (lookup_prop k o).

(** ** Numbers inside [computeUptime]

    [getTime()] of an invalid date is [NaN], and [NaN] flows through the
    arithmetic of [computeUptime].  A time value is an integer, so the
    finite case is exact integer arithmetic. *)

Inductive num :=
| NaN
| Num (z : Z).

Definition num_sub (a b : num) : num :=
  match a, b with
  | Num x, Num y => Num (x - y)
  | _, _ => NaN
  end.

(** [Math.max(a, b)]: [NaN] if either argument is. *)
Definition Math_max (a b : num) : num :=
  match a, b with
  | Num x, Num y => Num (Z.max x y)
  | _, _ => NaN
  end.

(** [Math.floor(a / k)] for a positive literal [k]. *)
Definition Math_floor_div (a : num) (k : Z) : num :=
  match a with
  | Num x => Num (x / k)
  | NaN => NaN
  end.

(** [a % k]: the remainder takes the sign of the dividend. *)
Definition num_rem (a : num) (k : Z) : num :=
  match a with
  | Num x => Num (Z.rem x k)
  | NaN => NaN
  end.

(** [a > k]: every comparison with [NaN] is false. *)
Definition num_gt (a : num) (k : Z) : bool :=
  match a with
  | Num x => k <? x
  | NaN => false
  end.

Definition num_toString (a : num) : string :=
  match a with
  | Num x => pretty x
  | NaN => "NaN"
  end.

(** [TimeClip]: a time value is at most 8.64e15 ms from the epoch. *)
Definition TimeClip (t : Z) : num :=
  if Z.abs t <=? 8640000000000000 then Num t else NaN.

(** ** The host environment

    [Date.parse] and [toISOString] belong to the JavaScript engine.  The
    development is parametric in them; [reference_host] below is one
    concrete host, used to run the code on examples. *)

Class Host := {
  (** [new Date(s).getTime()] for a string: [None] is [NaN]. *)
  Date_parse : string -> option Z;
  (** [new Date(t).toISOString()] for a valid time value. *)
  toISOString : Z -> string
}.

(** ** The world *)

(** Durable settings record [streamtime]: platform name to platform
    settings.  Both writers ([saveSettings], [mergeSettings]) store the
    result of [Object.assign] under each platform, so every platform entry
    is an object. *)
Abbreviation Settings := (list (string * Obj)).

(** The [streamtime_live] value; [pollAll], its only writer, stores the
    three adapters' arrays of object literals. *)
Record LiveState := {
  live_twitch : option (list Obj);
  live_kick : option (list Obj);
  live_youtube : option (list Obj)
}.

Record Cookie := {
  cookie_value : JsVal;
  cookie_expirationDate : Z
}.

(** A call of [browser.notifications.create(id, {title, message})]. *)
Record Notification := {
  n_id : string;
  n_title : string;
  n_message : JsVal
}.

Inductive LogLevel := LLog | LWarn | LError.

(** The requests the background script sends.  The URL and headers of each
    are fixed by the fields listed:
    - [GetTwitchStreams]: [helix/streams?user_id=..&user_id=..] with the
      [Client-ID] and [Authorization: Bearer] headers;
    - [GetKickChannels]: [public/v1/channels?broadcaster_user_id=a,b,..],
      with an [Authorization] header only when a token is there;
    - [GetYouTubeSearch]: the [search] endpoint for one channel;
    - [PostTwitchToken], [PostKickToken]: the refresh-token grant. *)
Inductive Request :=
| GetTwitchStreams (clientId accessToken : JsVal) (ids : list JsVal)
| GetKickChannels (authorization : option JsVal) (ids : list JsVal)
| GetYouTubeSearch (channelId apiKey : JsVal)
| PostTwitchToken (clientId clientSecret refreshToken : JsVal)
| PostKickToken (clientId clientSecret refreshToken : JsVal).

(** An HTTP response: [body] is the parsed JSON body, [None] when the body
    is not JSON (then [res.json()] rejects). *)
Record Response := {
  status : Z;
  body : option JsVal
}.

(** What [fetch] resolves to: a network fault rejects the promise. *)
Inductive NetReply :=
| NetFault
| Http (r : Response).

#[projections(primitive=yes)]
Record World := {
  (** [browser.storage.local] *)
  storage_streamtime : option Settings;
  storage_streamtime_live : option LiveState;
  storage_streamtime_last_poll : option string;
  (** [browser.cookies], keyed by (url, name) *)
  cookies : gmap (string * string) Cookie;
  (** the network: the reply to the [n]-th request sent *)
  net : nat -> Request -> NetReply;
  sent : list Request;
  (** [Date.now()] after [n] requests have been sent *)
  clock : nat -> Z;
  console : list (LogLevel * string);
  notifications : list Notification;
  (** the global [previousLiveChannels] of the background script *)
  previousLiveChannels : gset string
}.

Definition set_streamtime (x : option Settings) (w : World) : World :=
  {| storage_streamtime := x;
     storage_streamtime_live := storage_streamtime_live w;
     storage_streamtime_last_poll := storage_streamtime_last_poll w;
     cookies := cookies w; net := net w; sent := sent w; clock := clock w;
     console := console w; notifications := notifications w;
     previousLiveChannels := previousLiveChannels w |}.

Definition set_streamtime_live (x : option LiveState) (w : World) : World :=
  {| storage_streamtime := storage_streamtime w;
     storage_streamtime_live := x;
     storage_streamtime_last_poll := storage_streamtime_last_poll w;
     cookies := cookies w; net := net w; sent := sent w; clock := clock w;
     console := console w; notifications := notifications w;
     previousLiveChannels := previousLiveChannels w |}.

Definition set_streamtime_last_poll (x : option string) (w : World) : World :=
  {| storage_streamtime := storage_streamtime w;
     storage_streamtime_live := storage_streamtime_live w;
     storage_streamtime_last_poll := x;
     cookies := cookies w; net := net w; sent := sent w; clock := clock w;
     console := console w; notifications := notifications w;
     previousLiveChannels := previousLiveChannels w |}.

Definition set_cookies (x : gmap (string * string) Cookie) (w : World) : World :=
  {| storage_streamtime := storage_streamtime w;
     storage_streamtime_live := storage_streamtime_live w;
     storage_streamtime_last_poll := storage_streamtime_last_poll w;
     cookies := x; net := net w; sent := sent w; clock := clock w;
     console := console w; notifications := notifications w;
     previousLiveChannels := previousLiveChannels w |}.

Definition set_net (x : nat -> Request -> NetReply) (w : World) : World :=
  {| storage_streamtime := storage_streamtime w;
     storage_streamtime_live := storage_streamtime_live w;
     storage_streamtime_last_poll := storage_streamtime_last_poll w;
     cookies := cookies w; net := x; sent := sent w; clock := clock w;
     console := console w; notifications := notifications w;
     previousLiveChannels := previousLiveChannels w |}.

Definition set_sent (x : list Request) (w : World) : World :=
  {| storage_streamtime := storage_streamtime w;
     storage_streamtime_live := storage_streamtime_live w;
     storage_streamtime_last_poll := storage_streamtime_last_poll w;
     cookies := cookies w; net := net w; sent := x; clock := clock w;
     console := console w; notifications := notifications w;
     previousLiveChannels := previousLiveChannels w |}.

Definition set_console (x : list (LogLevel * string)) (w : World) : World :=
  {| storage_streamtime := storage_streamtime w;
     storage_streamtime_live := storage_streamtime_live w;
     storage_streamtime_last_poll := storage_streamtime_last_poll w;
     cookies := cookies w; net := net w; sent := sent w; clock := clock w;
     console := x; notifications := notifications w;
     previousLiveChannels := previousLiveChannels w |}.

Definition set_notifications (x : list Notification) (w : World) : World :=
  {| storage_streamtime := storage_streamtime w;
     storage_streamtime_live := storage_streamtime_live w;
     storage_streamtime_last_poll := storage_streamtime_last_poll w;
     cookies := cookies w; net := net w; sent := sent w; clock := clock w;
     console := console w; notifications := x;
     previousLiveChannels := previousLiveChannels w |}.

Definition set_previousLiveChannels (x : gset string) (w : World) : World :=
  {| storage_streamtime := storage_streamtime w;
     storage_streamtime_live := storage_streamtime_live w;
     storage_streamtime_last_poll := storage_streamtime_last_poll w;
     cookies := cookies w; net := net w; sent := sent w; clock := clock w;
     console := console w; notifications := notifications w;
     previousLiveChannels := x |}.

(** ** Computations

    An [async] function is a computation over the world that returns, throws
    (a rejected promise), or needs more recursion depth than the fuel it was
    given.  A thrown error keeps the effects performed before it. *)

Inductive JsError :=
| TypeError
| SyntaxError
| NetworkError.

Inductive Outcome (A : Type) :=
| Ret (a : A) (w : World)
| Thrown (e : JsError) (w : World)
| OutOfFuel.
Arguments Ret {A} a w.
Arguments Thrown {A} e w.
Arguments OutOfFuel {A}.

Definition M (A : Type) : Type := World -> Outcome A.

Definition ret {A} (a : A) : M A := fun w => Ret a w.

Definition bind {A B} (m : M A) (k : A -> M B) : M B :=
  fun w => match m w with
           | Ret a w' => k a w'
           | Thrown e w' => Thrown e w'
           | OutOfFuel => OutOfFuel
           end.

Definition throw {A} (e : JsError) : M A := fun w => Thrown e w.

(** [try { m } catch (e) { h e }]. *)
Definition try_catch {A} (m : M A) (h : JsError -> M A) : M A :=
  fun w => match m w with
           | Thrown e w' => h e w'
           | o => o
           end.

Definition modify (f : World -> World) : M unit := fun w => Ret tt (f w).
Definition reads {A} (f : World -> A) : M A := fun w => Ret (f w) w.

Notation "'let*' x ':=' m 'in' k" := (bind m (fun x => k))
  (at level 10, x name, m at level 100, k at level 200).
Notation "m ;; k" := (bind m (fun _ => k))
  (at level 100, k at level 200, right associativity).

(** What [Date.now()] reads in the world [w]. *)
Definition now (w : World) : Z := clock w (length (sent w)).

Definition Date_now : M Z := reads now.

Definition console_log (lvl : LogLevel) (msg : string) : M unit :=
  modify (fun w => set_console (console w ++ [(lvl, msg)]) w).

(** [await fetch(req)]. *)
Definition fetch (req : Request) : M Response :=
  fun w =>
    let w' := set_sent (sent w ++ [req]) w in
    match net w (length (sent w)) req with
    | Http r => Ret r w'
    | NetFault => Thrown NetworkError w'
    end.

(** [res.ok]. *)
Definition ok (r : Response) : bool := (200 <=? status r) && (status r <=? 299).

(** [await res.json()]. *)
Definition json (r : Response) : M JsVal :=
  match body r with
  | Some j => ret j
  | None => throw SyntaxError
  end.

(** [v.k]: reading a property of [undefined] or [null] throws; the
    properties read by this program are not defined on the other
    primitives or on arrays. *)
Definition getProp (v : JsVal) (k : string) : M JsVal :=
  match v with
  | JUndef | JNull => throw TypeError
  | JObj o => ret (get o k)
  | _ => ret JUndef
  end.

(** [v?.k]. *)
Definition getPropOpt (v : JsVal) (k : string) : JsVal :=
  match v with
  | JObj o => get o k
  | _ => JUndef
  end.

(** ** Cookie helpers ([background.js], repeated in [options.js]) *)

Definition setAccessTokenCookie (url name : string) (value : JsVal) : M unit :=
  let* t := Date_now in
  let expires := t / 1000 + 7 * 24 * 60 * 60 in
  modify (fun w =>
    set_cookies
      (<[(url, name) := {| cookie_value := js_or value (JStr EmptyString);
                           cookie_expirationDate := expires |}]> (cookies w)) w).

Definition getAccessTokenCookie (url name : string) : M JsVal :=
  let* cookie := reads (fun w => cookies w !! (url, name)) in
  ret (js_or (match cookie with
              | Some c => cookie_value c
              | None => JUndef
              end) (JStr EmptyString)).

Definition removeAccessTokenCookie (url name : string) : M unit :=
  modify (fun w => set_cookies (delete (url, name) (cookies w)) w).

(** ** [computeUptime] *)

Section Uptime.
Context `{Host}.

(** [new Date(v).getTime()]: a string is parsed, an object or array is
    first converted to a string, anything else to a number. *)
Definition Date_getTime (v : JsVal) : num :=
  match v with
  | JStr s => match Date_parse s with Some t => Num t | None => NaN end
  | JNum n => TimeClip n
  | JUndef => NaN
  | JNull => Num 0
  | JBool b => Num (if b then 1 else 0)
  | JArr _ | JObj _ =>
      match Date_parse (toString v) with Some t => Num t | None => NaN end
  end.

(** The body of the [try] block, [t] being what [Date.now()] reads. *)
Definition uptimeAt (t : Z) (startedAtIso : JsVal) : string :=
  let start := Date_getTime startedAtIso in
  let diff := Math_max (Num 0) (num_sub (Num t) start) in
  let s := Math_floor_div diff 1000 in
  let h := Math_floor_div s 3600 in
  let m := Math_floor_div (num_rem s 3600) 60 in
  if num_gt h 0 then num_toString h +:+ "h " +:+ num_toString m +:+ "m"
  else num_toString m +:+ "m".

Definition computeUptime (startedAtIso : JsVal) : M string :=
  try_catch
    (let* t := Date_now in ret (uptimeAt t startedAtIso))
    (fun _ => ret EmptyString).
End Uptime.

(** ** Array helpers *)

Fixpoint mapM {A B} (f : A -> M B) (l : list A) : M (list B) :=
  match l with
  | [] => ret []
  | x :: l' => let* y := f x in let* ys := mapM f l' in ret (y :: ys)
  end.

Fixpoint filterM {A} (f : A -> M bool) (l : list A) : M (list A) :=
  match l with
  | [] => ret []
  | x :: l' =>
      let* b := f x in
      let* ys := filterM f l' in
      ret (if b then x :: ys else ys)
  end.

(** The receiver of [.map] or [.filter]: calling the method on anything
    but an array throws ([undefined] has no properties, the other values
    have no such method). *)
Definition asArray (v : JsVal) : M (list JsVal) :=
  match v with
  | JArr items => ret items
  | _ => throw TypeError
  end.

(** ** Settings ([background.js]) *)

(** [mergeSettings(newData)]: read the durable record, merge each platform
    of [newData] into it with [Object.assign], write it back. *)
Definition mergeSettings (newData : Settings) : M Settings :=
  let* current := reads (fun w => default [] (storage_streamtime w)) in
  let merged :=
    fold_left
      (fun (merged : Settings) key =>
         set_prop key
           (Object_assign (default [] (lookup_prop key merged))
                          (default [] (lookup_prop key newData)))
           merged)
      (Object_keys newData) current in
  modify (set_streamtime (Some merged)) ;;
  ret merged.

(** [loadSettings()]: the durable record with the access tokens from the
    cookies put into the in-memory copy. *)
Definition loadSettings : M Settings :=
  let* st := reads (fun w => default [] (storage_streamtime w)) in
  let st := set_prop "twitch" (default [] (lookup_prop "twitch" st)) st in
  let* tok :=
    getAccessTokenCookie "https://api.twitch.tv/" "twitch_access_token" in
  let st :=
    set_prop "twitch"
      (set_prop "accessToken" tok (default [] (lookup_prop "twitch" st))) st in
  let st := set_prop "kick" (default [] (lookup_prop "kick" st)) st in
  let* tok := getAccessTokenCookie "https://kick.com/" "kick_access_token" in
  let st :=
    set_prop "kick"
      (set_prop "accessToken" tok (default [] (lookup_prop "kick" st))) st in
  ret st.

(** ** Token refresh ([background.js]) *)

(** Returns the new access token, or [null]. *)
Definition refreshTwitchToken (clientId clientSecret refreshToken : JsVal)
  : M JsVal :=
  console_log LLog "[Alarm: Token Refresh] Attempting to refresh Twitch token..." ;;
  try_catch
    (let* response := fetch (PostTwitchToken clientId clientSecret refreshToken) in
     if negb (ok response) then
       console_log LError "[Twitch] Token refresh failed with status" ;;
       ret JNull
     else
       let* data := json response in
       let* access_token := getProp data "access_token" in
       if truthy access_token then
         console_log LLog "[Twitch] Access token refreshed successfully." ;;
         setAccessTokenCookie "https://api.twitch.tv/" "twitch_access_token"
                              access_token ;;
         let* refresh_token := getProp data "refresh_token" in
         mergeSettings
           [("twitch", [("refreshToken", js_or refresh_token refreshToken)])] ;;
         ret access_token
       else
         console_log LError "[Twitch] Failed to refresh token:" ;;
         ret JNull)
    (fun _ =>
       console_log LError "[Twitch] Refresh token error:" ;;
       ret JNull).

(** [s.substring(..)]: only a string has the method. *)
Definition substring_receiver (v : JsVal) : M unit :=
  match v with
  | JStr _ => ret tt
  | _ => throw TypeError
  end.

Definition refreshKickToken (clientId clientSecret refreshToken : JsVal)
  : M JsVal :=
  if negb (truthy clientId) || negb (truthy clientSecret)
     || negb (truthy refreshToken) then
    console_log LWarn "[Kick] Missing credentials for token refresh. Skipping." ;;
    ret JNull
  else
    console_log LLog "[Kick Token Refresh Debug] Preparing request to:" ;;
    substring_receiver clientId ;;
    console_log LLog "[Kick Token Refresh Debug] Client ID (start):" ;;
    substring_receiver refreshToken ;;
    console_log LLog "[Kick Token Refresh Debug] Refresh Token (end):" ;;
    try_catch
      (let* response := fetch (PostKickToken clientId clientSecret refreshToken) in
       if negb (ok response) then
         console_log LError "[Kick] Token refresh failed with status" ;;
         ret JNull
       else
         let* data := json response in
         let* access_token := getProp data "access_token" in
         if truthy access_token then
           console_log LLog "[Kick] Access token refreshed successfully." ;;
           setAccessTokenCookie "https://kick.com/" "kick_access_token"
                                access_token ;;
           let* refresh_token := getProp data "refresh_token" in
           mergeSettings
             [("kick", [("refreshToken", js_or refresh_token refreshToken)])] ;;
           ret access_token
         else
           console_log LError "[Kick] Failed to refresh token (unexpected response structure):" ;;
           ret JNull)
      (fun _ =>
         console_log LError "[Kick] Refresh token error:" ;;
         ret JNull).

(** ** Platform adapters ([background.js]) *)

(** [c.id || c.user_id || c.broadcaster_id]. *)
Definition twitchChannelId (c : JsVal) : M JsVal :=
  let* a := getProp c "id" in
  if truthy a then ret a
  else
    let* b := getProp c "user_id" in
    if truthy b then ret b else getProp c "broadcaster_id".

(** [c.id || c.broadcaster_user_id]. *)
Definition kickChannelId (c : JsVal) : M JsVal :=
  let* a := getProp c "id" in
  if truthy a then ret a else getProp c "broadcaster_user_id".

(** [ch.id || ch.channelId || ch]. *)
Definition youtubeChannelId (ch : JsVal) : M JsVal :=
  let* a := getProp ch "id" in
  if truthy a then ret a
  else
    let* b := getProp ch "channelId" in
    if truthy b then ret b else ret ch.

(** [for (const ch of v)]: an array yields its elements, a string its
    characters; nothing else that JSON can hold is iterable. *)
Definition iterate (v : JsVal) : M (list JsVal) :=
  match v with
  | JArr items => ret items
  | JStr s => ret (List.map (fun c => JStr (String c EmptyString))
                            (String.list_ascii_of_string s))
  | _ => throw TypeError
  end.

(** [v.length] and [v[0]] on a value that is not [undefined] or [null]. *)
Definition lengthOf (v : JsVal) : JsVal :=
  match v with
  | JArr items => JNum (Z.of_nat (length items))
  | JStr s => JNum (Z.of_nat (String.length s))
  | JObj o => get o "length"
  | _ => JUndef
  end.

Definition index0 (v : JsVal) : JsVal :=
  match v with
  | JArr items => List.hd JUndef items
  | JStr (String c _) => JStr (String c EmptyString)
  | JObj o => get o "0"
  | _ => JUndef
  end.

Definition is401or403 (r : Response) : bool :=
  (status r =? 401) || (status r =? 403).

Section Adapters.
Context `{Host}.

(** The object literal [checkTwitch] builds for a stream record [s]. *)
Definition twitchEntry (s : JsVal) : M Obj :=
  let* user_id := getProp s "user_id" in
  let* user_login := getProp s "user_login" in
  let* user_name := getProp s "user_name" in
  let* title := getProp s "title" in
  let* game_name := getProp s "game_name" in
  let* viewer_count := getProp s "viewer_count" in
  let* started_at := getProp s "started_at" in
  let* uptime := computeUptime started_at in
  ret [("user_id", user_id);
       ("user_login", user_login);
       ("display_name", user_name);
       ("title", title);
       ("game", game_name);
       ("viewers", viewer_count);
       ("started_at", started_at);
       ("uptime", JStr uptime);
       ("url", JStr ("https://twitch.tv/" +:+ toString user_login))].

(** [checkTwitch(twitchSettings)].  The retry after a token refresh is a
    recursive call; [fuel] bounds the depth of that recursion. *)
Fixpoint checkTwitch (fuel : nat) (twitchSettings : Obj) : M (list Obj) :=
  match fuel with
  | O => fun _ => OutOfFuel
  | S fuel' =>
      let clientId := get twitchSettings "clientId" in
      let accessToken := get twitchSettings "accessToken" in
      if negb (truthy clientId) || negb (truthy accessToken)
         || negb (truthy (get twitchSettings "channels")) then ret []
      else
        let* channels := asArray (get twitchSettings "channels") in
        let* ids := mapM twitchChannelId channels in
        let ids := List.filter truthy ids in
        match ids with
        | [] => ret []
        | _ :: _ =>
            try_catch
              (let* res := fetch (GetTwitchStreams clientId accessToken ids) in
               if is401or403 res then
                 console_log LWarn "[Twitch] Access token expired, refreshing..." ;;
                 let* newToken :=
                   refreshTwitchToken clientId
                                      (get twitchSettings "clientSecret")
                                      (get twitchSettings "refreshToken") in
                 if truthy newToken then
                   checkTwitch fuel'
                     (set_prop "accessToken" newToken twitchSettings)
                 else
                   console_log LError "[Twitch] Token refresh failed, skipping." ;;
                   ret []
               else if negb (ok res) then
                 console_log LWarn "Twitch streams fetch failed" ;;
                 ret []
               else
                 let* j := json res in
                 let* data := getProp j "data" in
                 let* streams := asArray data in
                 mapM twitchEntry streams)
              (fun _ => console_log LError "Twitch check error" ;; ret [])
        end
  end.

(** [ch => ch.stream && ch.stream.is_live]. *)
Definition kickIsLive (ch : JsVal) : M bool :=
  let* stream := getProp ch "stream" in
  if truthy stream then
    let* is_live := getProp stream "is_live" in ret (truthy is_live)
  else ret false.

(** The object literal [checkKick] builds for a channel record [ch]. *)
Definition kickEntry (ch : JsVal) : M Obj :=
  let* broadcaster_user_id := getProp ch "broadcaster_user_id" in
  let* slug := getProp ch "slug" in
  let* stream_title := getProp ch "stream_title" in
  let* category := getProp ch "category" in
  let* stream := getProp ch "stream" in
  let* viewer_count := getProp stream "viewer_count" in
  let* start_time := getProp stream "start_time" in
  let* uptime :=
    if truthy start_time then computeUptime start_time else ret EmptyString in
  ret [("id", broadcaster_user_id);
       ("slug", slug);
       ("title", js_or stream_title (JStr ("Live on " +:+ toString slug)));
       ("game", js_or (getPropOpt category "name") (JStr "Unknown"));
       ("viewers", js_or viewer_count (JNum 0));
       ("started_at", js_or start_time JNull);
       ("uptime", JStr uptime);
       ("url", JStr ("https://kick.com/" +:+ toString slug))].

Fixpoint checkKick (fuel : nat) (kickSettings : Obj) : M (list Obj) :=
  match fuel with
  | O => fun _ => OutOfFuel
  | S fuel' =>
      if negb (truthy (get kickSettings "channels")) then ret []
      else
        let* channels := asArray (get kickSettings "channels") in
        let* ids := mapM kickChannelId channels in
        let ids := List.filter truthy ids in
        match ids with
        | [] => ret []
        | _ :: _ =>
            let accessToken := get kickSettings "accessToken" in
            let authorization :=
              if truthy accessToken then Some accessToken else None in
            try_catch
              (let* res := fetch (GetKickChannels authorization ids) in
               if is401or403 res then
                 console_log LWarn "[Kick] Access token expired, refreshing..." ;;
                 let* newToken :=
                   refreshKickToken (get kickSettings "clientId")
                                    (get kickSettings "clientSecret")
                                    (get kickSettings "refreshToken") in
                 if truthy newToken then
                   checkKick fuel'
                     (set_prop "accessToken" newToken kickSettings)
                 else
                   console_log LError "[Kick] Token refresh failed, skipping." ;;
                   ret []
               else if negb (ok res) then
                 console_log LWarn "Kick API error" ;;
                 ret []
               else
                 let* j := json res in
                 let* data := getProp j "data" in
                 let* channels := asArray (js_or data (JArr [])) in
                 let* live := filterM kickIsLive channels in
                 mapM kickEntry live)
              (fun _ => console_log LError "Kick check error:" ;; ret [])
        end
  end.

(** The object literal [checkYouTube] pushes for the first search hit [v]. *)
Definition youtubeEntry (channelId v : JsVal) : M Obj :=
  let* snippet := getProp v "snippet" in
  let* title := getProp snippet "title" in
  let* id := getProp v "id" in
  let* videoId := getProp id "videoId" in
  let* publishedAt := getProp snippet "publishedAt" in
  let* duration :=
    if truthy publishedAt then computeUptime publishedAt else ret EmptyString in
  ret [("channelId", channelId);
       ("title", title);
       ("url", JStr ("https://www.youtube.com/watch?v=" +:+ toString videoId));
       ("started_at", publishedAt);
       ("duration", JStr duration)].

(** One turn of the loop over the configured channels; [out] is the
    array built so far. *)
Definition youtubeStep (apiKey : JsVal) (out : list Obj) (ch : JsVal)
  : M (list Obj) :=
  let* channelId := youtubeChannelId ch in
  if negb (truthy channelId) then ret out
  else
    try_catch
      (let* r := fetch (GetYouTubeSearch channelId apiKey) in
       if negb (ok r) then
         console_log LWarn "YouTube search failed" ;;
         ret out
       else
         let* j := json r in
         let* items := getProp j "items" in
         if truthy items && truthy (lengthOf items) then
           let* e := youtubeEntry channelId (index0 items) in
           ret (out ++ [e])
         else ret out)
      (fun _ => console_log LError "YouTube check error" ;; ret out).

Fixpoint foldM {A B} (f : A -> B -> M A) (acc : A) (l : list B) : M A :=
  match l with
  | [] => ret acc
  | x :: l' => let* acc' := f acc x in foldM f acc' l'
  end.

Definition checkYouTube (ytSettings : Obj) : M (list Obj) :=
  if negb (truthy (get ytSettings "channels"))
     || negb (truthy (get ytSettings "clientId")) then ret []
  else
    let apiKey := get ytSettings "clientId" in
    let* channels := iterate (get ytSettings "channels") in
    foldM (youtubeStep apiKey) [] channels.

(** ** The poll ([background.js]) *)

Definition error_name (e : JsError) : string :=
  match e with
  | TypeError => "TypeError"
  | SyntaxError => "SyntaxError"
  | NetworkError => "NetworkError"
  end.

Definition nowIso : M string :=
  let* t := Date_now in ret (toISOString t).

(** [pollAll()], with the three adapters it calls as parameters. *)
Definition pollAll_with (checkT checkK checkY : Obj -> M (list Obj))
  : M unit :=
  console_log LLog "[Alarm: Main Poll] Starting poll..." ;;
  let* settings := loadSettings in
  let* twitch :=
    try_catch (checkT (default [] (lookup_prop "twitch" settings)))
              (fun e => console_log LError (error_name e) ;; ret []) in
  let* kick :=
    try_catch (checkK (default [] (lookup_prop "kick" settings)))
              (fun e => console_log LError (error_name e) ;; ret []) in
  let* youtube :=
    try_catch (checkY (default [] (lookup_prop "youtube" settings)))
              (fun e => console_log LError (error_name e) ;; ret []) in
  modify (set_streamtime_live
            (Some {| live_twitch := Some twitch;
                     live_kick := Some kick;
                     live_youtube := Some youtube |})) ;;
  let* stamp := nowIso in
  modify (set_streamtime_last_poll (Some stamp)) ;;
  console_log LLog "[Alarm: Main Poll] Poll complete. Live channels:".

Definition pollAll (fuel : nat) : M unit :=
  pollAll_with (checkTwitch fuel) (checkKick fuel) checkYouTube.
End Adapters.

(** ** The notification check ([background.js]) *)

Fixpoint forEach {A} (f : A -> M unit) (l : list A) : M unit :=
  match l with
  | [] => ret tt
  | x :: l' => f x ;; forEach f l'
  end.

Definition notifications_create (id title : string) (message : JsVal) : M unit :=
  modify (fun w =>
    set_notifications
      (notifications w ++ [{| n_id := id; n_title := title; n_message := message |}])
      w).

Definition twitchKey (s : Obj) : string := "twitch-" +:+ toString (get s "user_id").
Definition kickKey (s : Obj) : string := "kick-" +:+ toString (get s "id").
Definition youtubeKey (s : Obj) : string := "yt-" +:+ toString (get s "channelId").

(** The [{}] that stands in for a missing [streamtime_live]. *)
Definition noLive : LiveState :=
  {| live_twitch := None; live_kick := None; live_youtube := None |}.

(** The ids spread into [new Set([...])], in order. *)
Definition liveKeys (liveData : LiveState) : list string :=
  List.map twitchKey (default [] (live_twitch liveData))
  ++ List.map kickKey (default [] (live_kick liveData))
  ++ List.map youtubeKey (default [] (live_youtube liveData)).

Definition checkLiveChannels : M unit :=
  console_log LLog "[Alarm: Notification] Checking for new live streams..." ;;
  let* liveData := reads (fun w => default noLive (storage_streamtime_live w)) in
  let twitch := default [] (live_twitch liveData) in
  let kick := default [] (live_kick liveData) in
  let youtube := default [] (live_youtube liveData) in
  let currentLiveIds : gset string := list_to_set (liveKeys liveData) in
  forEach (fun stream =>
             let id := twitchKey stream in
             let* previous := reads previousLiveChannels in
             if decide (id ∈ previous) then ret tt
             else notifications_create id
                    (toString (get stream "display_name") +:+ " is live on Twitch!")
                    (get stream "title"))
          twitch ;;
  forEach (fun stream =>
             let id := kickKey stream in
             let* previous := reads previousLiveChannels in
             if decide (id ∈ previous) then ret tt
             else notifications_create id
                    (toString (get stream "slug") +:+ " is live on Kick!")
                    (get stream "title"))
          kick ;;
  forEach (fun stream =>
             let id := youtubeKey stream in
             let* previous := reads previousLiveChannels in
             if decide (id ∈ previous) then ret tt
             else notifications_create id
                    ("YouTube Live: " +:+ toString (get stream "title"))
                    (JStr "A subscribed channel just went live!"))
          youtube ;;
  modify (set_previousLiveChannels currentLiveIds) ;;
  console_log LLog "[Alarm: Notification] Notification check complete.".

(** ** Saving from the options page ([options.js]) *)

Definition is_undefined (v : JsVal) : bool :=
  match v with
  | JUndef => true
  | _ => false
  end.

(** The cookie half of [saveSettings]: set the token, or remove the cookie
    when the token is empty or absent. *)
Definition saveAccessToken (url name : string) (accessToken : JsVal) : M unit :=
  if truthy accessToken then setAccessTokenCookie url name accessToken
  else removeAccessTokenCookie url name.

Definition saveSettings (platform : string) (obj : Obj) : M unit :=
  let* streamtime := reads (fun w => default [] (storage_streamtime w)) in
  let entry := Object_assign (default [] (lookup_prop platform streamtime)) obj in
  let accessToken := get obj "accessToken" in
  let entry :=
    if negb (is_undefined accessToken) then delete_prop "accessToken" entry
    else entry in
  modify (set_streamtime (Some (set_prop platform entry streamtime))) ;;
  if decide (platform = "twitch") then
    saveAccessToken "https://api.twitch.tv/" "twitch_access_token" accessToken
  else if decide (platform = "kick") then
    saveAccessToken "https://kick.com/" "kick_access_token" accessToken
  else if decide (platform = "youtube") then
    saveAccessToken "https://www.googleapis.com/" "youtube_access_token" accessToken
  else ret tt.

(** ** A reference host

    [Date.parse] restricted to the ISO format that ECMAScript fixes,
    [YYYY-MM-DDTHH:mm:ss(.sss)Z] (the form the platforms send), and the
    matching [toISOString] for years 0000 to 9999.  Engines accept more
    formats than this; the theorems below hold for every [Host]. *)

(** The value of a decimal digit character. *)
Definition digit (c : Ascii.ascii) : option Z :=
  let n := Z.of_nat (Ascii.nat_of_ascii c) in
  if (48 <=? n) && (n <=? 57) then Some (n - 48) else None.

Definition is_char (c : Ascii.ascii) (s : string) : bool :=
  String.eqb (String c EmptyString) s.

Module Reference.
Fixpoint number (acc : Z) (cs : list Ascii.ascii) : option Z :=
  match cs with
  | [] => Some acc
  | c :: cs' => d ← digit c; number (10 * acc + d) cs'
  end.

Definition leap (y : Z) : bool :=
  ((y mod 4 =? 0) && negb (y mod 100 =? 0)) || (y mod 400 =? 0).

Definition days_in_month (y m : Z) : Z :=
  if m =? 2 then (if leap y then 29 else 28)
  else if (m =? 4) || (m =? 6) || (m =? 9) || (m =? 11) then 30 else 31.

(** Days from 1970-01-01 to the civil date [y-m-d]. *)
Definition days_from_civil (y m d : Z) : Z :=
  let y := if m <=? 2 then y - 1 else y in
  let era := y / 400 in
  let yoe := y - era * 400 in
  let doy := (153 * (if 2 <? m then m - 3 else m + 9) + 2) / 5 + d - 1 in
  let doe := yoe * 365 + yoe / 4 - yoe / 100 + doy in
  era * 146097 + doe - 719468.

(** The civil date of a day count, as (year, month, day). *)
Definition civil_from_days (z : Z) : Z * Z * Z :=
  let z := z + 719468 in
  let era := z / 146097 in
  let doe := z - era * 146097 in
  let yoe := (doe - doe / 1460 + doe / 36524 - doe / 146096) / 365 in
  let doy := doe - (365 * yoe + yoe / 4 - yoe / 100) in
  let mp := (5 * doy + 2) / 153 in
  let d := doy - (153 * mp + 2) / 5 + 1 in
  let m := if mp <? 10 then mp + 3 else mp - 9 in
  let y := yoe + era * 400 in
  (if m <=? 2 then y + 1 else y, m, d).

Definition parse_fraction (cs : list Ascii.ascii) : option Z :=
  match cs with
  | [z] => if is_char z "Z" then Some 0 else None
  | [dot; f1; f2; f3; z] =>
      if is_char dot "." && is_char z "Z" then number 0 [f1; f2; f3] else None
  | _ => None
  end.

Definition parse (s : string) : option Z :=
  match String.list_ascii_of_string s with
  | y1 :: y2 :: y3 :: y4 :: c1 :: m1 :: m2 :: c2 :: d1 :: d2 :: t
    :: h1 :: h2 :: c3 :: n1 :: n2 :: c4 :: s1 :: s2 :: rest =>
      if is_char c1 "-" && is_char c2 "-" && is_char t "T"
         && is_char c3 ":" && is_char c4 ":" then
        y ← number 0 [y1; y2; y3; y4];
        m ← number 0 [m1; m2];
        d ← number 0 [d1; d2];
        hh ← number 0 [h1; h2];
        mm ← number 0 [n1; n2];
        ss ← number 0 [s1; s2];
        ms ← parse_fraction rest;
        if (1 <=? m) && (m <=? 12) && (1 <=? d) && (d <=? days_in_month y m)
           && (hh <=? 23) && (mm <=? 59) && (ss <=? 59) then
          Some ((((days_from_civil y m d * 24 + hh) * 60 + mm) * 60 + ss) * 1000 + ms)
        else None
      else None
  | _ => None
  end.

Definition pad (width : nat) (n : Z) : string :=
  let digits := pretty n in
  String.string_of_list_ascii
    (replicate (width - String.length digits) (Ascii.ascii_of_nat 48))
  +:+ digits.

Definition format (t : Z) : string :=
  let ms := t mod 1000 in
  let secs := t / 1000 in
  let '(y, m, d) := civil_from_days (secs / 86400) in
  let sod := secs mod 86400 in
  pad 4 y +:+ "-" +:+ pad 2 m +:+ "-" +:+ pad 2 d +:+ "T"
  +:+ pad 2 (sod / 3600) +:+ ":" +:+ pad 2 (sod mod 3600 / 60) +:+ ":"
  +:+ pad 2 (sod mod 60) +:+ "." +:+ pad 3 ms +:+ "Z".
End Reference.

#[export] Instance reference_host : Host :=
  {| Date_parse := Reference.parse; toISOString := Reference.format |}.

(** A world with empty storage, no cookies, a network that is down, and a
    clock standing at [t]. *)
Definition quiet (t : Z) : World :=
  {| storage_streamtime := None;
     storage_streamtime_live := None;
     storage_streamtime_last_poll := None;
     cookies := ∅;
     net := fun _ _ => NetFault;
     sent := [];
     clock := fun _ => t;
     console := [];
     notifications := [];
     previousLiveChannels := ∅ |}.


(** ** The popup and the options page: strings ([popup.js], [options.js]) *)

(** The double quote character. *)
Definition quote_char : Ascii.ascii := Ascii.ascii_of_nat 34.

(** The replacement [escapeHtml] gives for one character matched by the
    class of ampersand, angle brackets and the two quotes; the other
    characters stay. *)
Definition escapeChar (c : Ascii.ascii) : string :=
  if is_char c "&" then "&amp;"
  else if is_char c "<" then "&lt;"
  else if is_char c ">" then "&gt;"
  else if Ascii.eqb c quote_char then "&quot;"
  else if is_char c "'" then "&#39;"
  else String c EmptyString.

(** [s.replace(/[...]/g, c => table[c])]. *)
Fixpoint replaceSpecials (s : string) : string :=
  match s with
  | EmptyString => EmptyString
  | String c s' => escapeChar c +:+ replaceSpecials s'
  end.

(** [escapeHtml(s)] of [popup.js]: a falsy argument counts as the empty
    string; any other value that is not a string has no [replace]. *)
Definition escapeHtml (s : JsVal) : M string :=
  match js_or s (JStr EmptyString) with
  | JStr x => ret (replaceSpecials x)
  | _ => throw TypeError
  end.

(** *** Text

    A JavaScript string is a sequence of 16-bit code units; the scan of
    [parseList] is written over elements that carry a code unit. *)

(** [\s] of a regular expression, which is also what [trim] takes away:
    the WhiteSpace and the LineTerminator of ECMAScript.  Tab to carriage
    return, space, no-break space, ogham space mark, en quad to hair space,
    line and paragraph separator, narrow no-break space, medium
    mathematical space, ideographic space, byte order mark. *)
Definition is_white (u : N) : bool :=
  ((9 <=? u) && (u <=? 13) || (u =? 32) || (u =? 160) || (u =? 5760)
   || (8192 <=? u) && (u <=? 8202) || (u =? 8232) || (u =? 8233)
   || (u =? 8239) || (u =? 8287) || (u =? 12288) || (u =? 65279))%N.

(** The class of comma and line feed. *)
Definition is_comma_or_lf (u : N) : bool := ((u =? 44) || (u =? 10))%N.

(** The functions below work on any sequence whose elements have a code
    unit, [code] giving it. *)
Section Scan.
Context {A : Type} (code : A -> N).

(** How many elements the final [\s*] takes: all the white space there
    is. *)
Fixpoint spaces (l : list A) : nat :=
  match l with
  | c :: l' => if is_white (code c) then S (spaces l') else O
  | [] => O
  end.

(** [[,\n]\s*] at the head of [l]: the length of the match. *)
Definition separator_spaces (l : list A) : option nat :=
  match l with
  | c :: l' => if is_comma_or_lf (code c) then Some (S (spaces l')) else None
  | [] => None
  end.

(** The regular expression of [parseList], white space, a comma or line
    feed, white space, matched at the head of [l]: the length of the
    match.  The first star is greedy, it takes a white space element when
    the rest can still match, and gives it back otherwise. *)
Fixpoint match_separator (l : list A) : option nat :=
  match l with
  | c :: l' =>
      if is_white (code c) then
        match match_separator l' with
        | Some n => Some (S n)
        | None => separator_spaces l
        end
      else separator_spaces l
  | [] => None
  end.

(** [s.split(re)] for this expression, which never matches the empty
    string: the scan of the string from left to right.  [skip] counts the
    elements of the current match still to pass, [piece] holds, last
    first, the elements since the last match. *)
Fixpoint split_scan (skip : nat) (piece : list A) (l : list A)
  : list (list A) :=
  match l with
  | [] => [rev piece]
  | c :: l' =>
      match skip with
      | S k => split_scan k piece l'
      | O =>
          match match_separator l with
          | Some (S n) => rev piece :: split_scan n [] l'
          | _ => split_scan O (c :: piece) l'
          end
      end
  end.

Fixpoint dropSpaces (l : list A) : list A :=
  match l with
  | c :: l' => if is_white (code c) then dropSpaces l' else l
  | [] => []
  end.

(** [x.trim()]. *)
Definition trim (l : list A) : list A :=
  rev (dropSpaces (rev (dropSpaces l))).

(** [s.split(re).map(x => x.trim()).filter(Boolean)]. *)
Definition splitTrim (l : list A) : list (list A) :=
  List.filter (fun x => negb (Nat.eqb (length x) 0))
    (List.map trim (split_scan O [] l)).
End Scan.

(** The strings of this development hold text as its bytes in UTF-8, which
    for ASCII text are its code units.  [sequence l] reads the character
    at the head of [l]: its code point and the number of bytes it takes.
    A byte that does not start a well-formed sequence stands alone, for
    the code unit of its number. *)
Definition continuation (b : Ascii.ascii) : option N :=
  let n := Ascii.N_of_ascii b in
  if ((128 <=? n) && (n <=? 191))%N then Some (n - 128)%N else None.

Definition sequence (l : list Ascii.ascii) : N * nat :=
  match l with
  | [] => (0%N, O)
  | b1 :: l1 =>
      let n := Ascii.N_of_ascii b1 in
      let alone := (n, 1%nat) in
      match l1 with
      | b2 :: l2 =>
          match continuation b2 with
          | Some c2 =>
              if ((194 <=? n) && (n <=? 223))%N then
                (((n - 192) * 64 + c2)%N, 2%nat)
              else
                match l2 with
                | b3 :: l3 =>
                    match continuation b3 with
                    | Some c3 =>
                        let v3 := ((n - 224) * 4096 + c2 * 64 + c3)%N in
                        if ((224 <=? n) && (n <=? 239) && (2048 <=? v3))%N
                        then (v3, 3%nat)
                        else
                          match l3 with
                          | b4 :: _ =>
                              match continuation b4 with
                              | Some c4 =>
                                  let v4 :=
                                    ((n - 240) * 262144 + c2 * 4096
                                     + c3 * 64 + c4)%N in
                                  if ((240 <=? n) && (n <=? 244)
                                      && (65536 <=? v4) && (v4 <=? 1114111))%N
                                  then (v4, 4%nat)
                                  else alone
                              | None => alone
                              end
                          | [] => alone
                          end
                    | None => alone
                    end
                | [] => alone
                end
          | None => alone
          end
      | [] => alone
      end
  end.

(** The characters of a text, each with its code and its bytes.  [skip]
    counts the bytes of the current character still to pass.  A character
    outside the basic plane, two code units in JavaScript and neither of
    them white space, a comma or a line feed, is one element here. *)
Fixpoint characters (skip : nat) (l : list Ascii.ascii)
  : list (N * list Ascii.ascii) :=
  match l with
  | [] => []
  | b :: l' =>
      match skip with
      | S k => characters k l'
      | O =>
          let '(u, n) := sequence l in
          (u, firstn n l) :: characters (n - 1) l'
      end
  end.

(** [parseList(s)] of [options.js] on a string of this development: the
    pieces are cut and trimmed on the characters, and each is the text of
    its characters. *)
Definition parseList (s : string) : list string :=
  if String.eqb s EmptyString then []
  else
    List.map
      (fun piece =>
         String.string_of_list_ascii (List.concat (List.map snd piece)))
      (splitTrim fst (characters O (String.list_ascii_of_string s))).


Definition is_separator (c : Ascii.ascii) : bool :=
  let n := Ascii.nat_of_ascii c in
  (n =? 44)%nat || (n =? 10)%nat.

(** The alphabet of [generateRandomString]. *)
Definition randomChars : string :=
  "ABCDEFGHIJKLMNOPQRSTUVWXYZabcdefghijklmnopqrstuvwxyz0123456789-._~".

(** [chars[i]] as it is appended to a string: out of range it is
    [undefined]. *)
Definition charAt (chars : string) (i : nat) : string :=
  match String.get i chars with
  | Some c => String c EmptyString
  | None => "undefined"
  end.

(** [generateRandomString(length)] of [options.js]; [array] is the
    [Uint8Array] of that length once [getRandomValues] has filled it. *)
Definition generateRandomString (array : list Byte.byte) : string :=
  fold_left
    (fun randomString b =>
       randomString
       +:+ charAt randomChars
             (N.to_nat (Byte.to_N b) mod String.length randomChars))
    array EmptyString.

(** [btoa] of the browser, on the bytes of the binary string: the
    standard base64 alphabet, three bytes to four characters, padded with
    the equals sign. *)
Definition base64Chars : string :=
  "ABCDEFGHIJKLMNOPQRSTUVWXYZabcdefghijklmnopqrstuvwxyz0123456789+/".

Definition sextet (n : N) : string := charAt base64Chars (N.to_nat n).

Fixpoint btoa (bytes : list Byte.byte) : string :=
  match bytes with
  | [] => EmptyString
  | [a] =>
      let a := Byte.to_N a in
      sextet (a / 4) +:+ sextet (a mod 4 * 16) +:+ "=="
  | [a; b] =>
      let a := Byte.to_N a in
      let b := Byte.to_N b in
      sextet (a / 4) +:+ sextet (a mod 4 * 16 + b / 16)
      +:+ sextet (b mod 16 * 4) +:+ "="
  | a :: b :: c :: rest =>
      let a := Byte.to_N a in
      let b := Byte.to_N b in
      let c := Byte.to_N c in
      sextet (a / 4) +:+ sextet (a mod 4 * 16 + b / 16)
      +:+ sextet (b mod 16 * 4 + c / 64) +:+ sextet (c mod 64)
      +:+ btoa rest
  end%N.

(** [s.replace(/x/g, y)] for single characters. *)
Fixpoint replaceChar (x y : Ascii.ascii) (s : string) : string :=
  match s with
  | EmptyString => EmptyString
  | String c s' =>
      String (if Ascii.eqb c x then y else c) (replaceChar x y s')
  end.

(** [s.replace(/=+$/, '')]: the equals signs at the end go. *)
Fixpoint stripPadding (s : string) : string :=
  match s with
  | EmptyString => EmptyString
  | String c s' =>
      match stripPadding s' with
      | EmptyString =>
          if Ascii.eqb c (Ascii.ascii_of_nat 61) then EmptyString
          else String c EmptyString
      | rest => String c rest
      end
  end.

(** [base64UrlEncode(buffer)] of [options.js]. *)
Definition base64UrlEncode (buffer : list Byte.byte) : string :=
  stripPadding
    (replaceChar (Ascii.ascii_of_nat 47) (Ascii.ascii_of_nat 95)
       (replaceChar (Ascii.ascii_of_nat 43) (Ascii.ascii_of_nat 45)
          (btoa buffer))).

(** ** The options page: conversions ([options.js])

    The page has its own requests.  Its functions run over the part of the
    page's world they use: the network and the console. *)

(** - [GetTwitchUsers]: [helix/users?login=..&login=..] with the
      [Client-ID] and [Authorization] headers;
    - [GetKickChannelsBySlug]: [public/v1/channels?slug=..&slug=..], with
      an [Authorization] header only when a token is there;
    - [GetYouTubeChannelsForUsername]: [channels?forUsername=..];
    - [GetYouTubeChannelSearch]: [search?type=channel&q=..]. *)
Inductive PageRequest :=
| GetTwitchUsers (clientId accessToken : string) (logins : list string)
| GetKickChannelsBySlug (authorization : option string) (slugs : list string)
| GetYouTubeChannelsForUsername (token apiKey : string)
| GetYouTubeChannelSearch (token apiKey : string).

Record Page := {
  page_net : nat -> PageRequest -> NetReply;
  page_sent : list PageRequest;
  page_console : list (LogLevel * string)
}.

(** What the page's functions throw: an error of the engine, or
    [new Error(message)]. *)
Inductive PageError :=
| Native (e : JsError)
| ErrorMessage (message : string).

Inductive PageOutcome (A : Type) :=
| PRet (a : A) (p : Page)
| PThrown (e : PageError) (p : Page).
Arguments PRet {A} a p.
Arguments PThrown {A} e p.

Definition P (A : Type) : Type := Page -> PageOutcome A.

#[export] Instance P_ret : MRet P := fun A a p => PRet a p.

#[export] Instance P_bind : MBind P :=
  fun A B k m p =>
    match m p with
    | PRet a p' => k a p'
    | PThrown e p' => PThrown e p'
    end.

Definition page_throw {A} (e : PageError) : P A := fun p => PThrown e p.

(** [try { m } catch (e) { h e }]. *)
Definition page_try {A} (m : P A) (h : PageError -> P A) : P A :=
  fun p => match m p with
           | PThrown e p' => h e p'
           | o => o
           end.

Definition page_log (lvl : LogLevel) (msg : string) : P unit :=
  fun p => PRet tt {| page_net := page_net p;
                      page_sent := page_sent p;
                      page_console := page_console p ++ [(lvl, msg)] |}.

(** [await fetch(req)]. *)
Definition page_fetch (req : PageRequest) : P Response :=
  fun p =>
    let p' := {| page_net := page_net p;
                 page_sent := page_sent p ++ [req];
                 page_console := page_console p |} in
    match page_net p (length (page_sent p)) req with
    | Http r => PRet r p'
    | NetFault => PThrown (Native NetworkError) p'
    end.

(** [await res.json()]. *)
Definition page_json (r : Response) : P JsVal :=
  match body r with
  | Some j => mret j
  | None => page_throw (Native SyntaxError)
  end.

(** [v.k], as [getProp]. *)
Definition page_prop (v : JsVal) (k : string) : P JsVal :=
  match v with
  | JUndef | JNull => page_throw (Native TypeError)
  | JObj o => mret (get o k)
  | _ => mret JUndef
  end.

(** [...v] and [for (const x of v)], as [iterate]. *)
Definition page_iterate (v : JsVal) : P (list JsVal) :=
  match v with
  | JArr items => mret items
  | JStr s => mret (List.map (fun c => JStr (String c EmptyString))
                             (String.list_ascii_of_string s))
  | _ => page_throw (Native TypeError)
  end.

(** The loop [for (i = 0; i < usernames.length; i += 100)] that pushes
    [usernames.slice(i, i + 100)]; every turn advances [i], so
    [usernames.length] turns are enough. *)
Fixpoint sliceLoop (turns i : nat) (usernames : list string)
  : list (list string) :=
  match turns with
  | O => []
  | S turns' =>
      if (i <? length usernames)%nat then
        firstn 100 (skipn i usernames) :: sliceLoop turns' (i + 100) usernames
      else []
  end.

(** The loop over the chunks; [results] is the array built so far. *)
Fixpoint twitchLookup (clientId accessToken : string)
    (chunks : list (list string)) (results : list JsVal) : P (list JsVal) :=
  match chunks with
  | [] => mret results
  | chunk :: chunks' =>
      res ← page_fetch (GetTwitchUsers clientId accessToken chunk);
      if negb (ok res) then
        page_throw (ErrorMessage "Twitch users lookup failed: ")
      else
        data ← page_json res;
        users ← page_prop data "data";
        users ← page_iterate (js_or users (JArr []));
        twitchLookup clientId accessToken chunks' (results ++ users)
  end.

(** [twitchConvert(usernames, clientId, accessToken)]. *)
Definition twitchConvert (usernames : list string)
    (clientId accessToken : string) : P (list JsVal) :=
  match usernames with
  | [] => mret []
  | _ :: _ =>
      if String.eqb clientId EmptyString || String.eqb accessToken EmptyString
      then
        page_throw
          (ErrorMessage
             "Twitch client id and access token required for conversion.")
      else
        twitchLookup clientId accessToken
          (sliceLoop (length usernames) 0 usernames) []
  end.

(** Key equality of a [Map]: primitives by value; every object or array
    that comes out of JSON is a new one, equal to no other key. *)
Definition sameValueZero (a b : JsVal) : bool :=
  match a, b with
  | JUndef, JUndef | JNull, JNull => true
  | JBool x, JBool y => Bool.eqb x y
  | JNum x, JNum y => x =? y
  | JStr x, JStr y => String.eqb x y
  | _, _ => false
  end.

(** [map.set(k, v)]: a key that is there keeps its place. *)
Fixpoint Map_set (k : JsVal) (v : Obj) (m : list (JsVal * Obj))
  : list (JsVal * Obj) :=
  match m with
  | [] => [(k, v)]
  | (k', v') :: m' =>
      if sameValueZero k' k then (k', v) :: m' else (k', v') :: Map_set k v m'
  end.

(** [new Map(entries)]. *)
Definition Map_new (entries : list (JsVal * Obj)) : list (JsVal * Obj) :=
  fold_left (fun m kv => Map_set kv.1 kv.2 m) entries [].

(** The loop of [kickConvert] over the channels of the response.  The map
    is the function's own variable: what the loop has put into it stays
    when a later turn throws.  The loop gives the map, and the error if
    one was thrown. *)
Fixpoint kickRecord (channels : list JsVal) (resultsMap : list (JsVal * Obj))
  : P (list (JsVal * Obj) * option PageError) :=
  match channels with
  | [] => mret (resultsMap, None)
  | ch :: channels' =>
      match ch with
      | JUndef | JNull => mret (resultsMap, Some (Native TypeError))
      | _ =>
          let slug := getPropOpt ch "slug" in
          let id := getPropOpt ch "broadcaster_user_id" in
          if truthy slug && truthy id then
            kickRecord channels'
              (Map_set slug
                 [("slug", slug); ("id", id); ("user_id", id);
                  ("name", js_or (getPropOpt ch "name") slug)]
                 resultsMap)
          else
            _ ← page_log LWarn
                  "[Kick Convert] Found channel object but missing slug or ID:";
            kickRecord channels' resultsMap
      end
  end.

(** The [try] block of [kickConvert] with its [catch]: the batch lookup.
    It gives the map as the block leaves it. *)
Definition kickBatch (authorization : option string) (slugs : list string)
    (resultsMap : list (JsVal * Obj)) : P (list (JsVal * Obj)) :=
  page_try
    (_ ← page_log LLog "[Kick Convert] Attempting batch lookup";
     res ← page_fetch (GetKickChannelsBySlug authorization slugs);
     if negb (ok res) then
       _ ← page_log LError "Kick API lookup failed with status";
       mret resultsMap
     else
       j ← page_json res;
       data ← page_prop j "data";
       channels ← page_iterate (js_or data (JArr []));
       '(resultsMap, thrown) ← kickRecord channels resultsMap;
       match thrown with
       | Some e =>
           _ ← page_log LError "Kick batch conversion error:";
           mret resultsMap
       | None =>
           _ ← page_log LLog "[Kick Convert] Successfully converted";
           mret resultsMap
       end)
    (fun _ =>
       _ ← page_log LError "Kick batch conversion error:";
       mret resultsMap).

(** The [Authorization] header of [kickConvert]: there when the token is
    not empty. *)
Definition kickAuthorization (accessToken : string) : option string :=
  if String.eqb accessToken EmptyString then None else Some accessToken.

(** [kickConvert(slugs, accessToken)]. *)
Definition kickConvert (slugs : list string) (accessToken : string)
  : P (list Obj) :=
  match slugs with
  | [] => mret []
  | _ :: _ =>
      let resultsMap :=
        Map_new (List.map (fun s => (JStr s, [("slug", JStr s); ("id", JNull)]))
                          slugs) in
      _ ← (if String.eqb accessToken EmptyString then mret tt
           else page_log LLog "Kick has an access token! Yay!");
      resultsMap ← kickBatch (kickAuthorization accessToken) slugs resultsMap;
      mret (List.map snd resultsMap)
  end.







(** The channels the save buttons store when no conversion was made:
    [parseList(text).map(s => ({ [field]: s }))], the field being [login]
    for Twitch, [slug] for Kick and [id] for YouTube. *)
Definition unconvertedChannels (field text : string) : JsVal :=
  JArr (List.map (fun s => JObj [(field, JStr s)]) (parseList text)).

(** ** The listeners ([background.js]) *)

Section Listeners.
Context `{Host}.

(** The listener of [browser.alarms.onAlarm], for the alarm [name]: the
    work of the alarm inside a [try] whose [catch] logs. *)
Definition onAlarm (fuel : nat) (name : string) : M unit :=
  try_catch
    (if String.eqb name "streamtime-main-poll" then pollAll fuel
     else if String.eqb name "streamtime-notification-check" then
       checkLiveChannels
     else if String.eqb name "twitch-token-refresh" then
       let* settings := loadSettings in
       let twitchSettings := default [] (lookup_prop "twitch" settings) in
       refreshTwitchToken (get twitchSettings "clientId")
                          (get twitchSettings "clientSecret")
                          (get twitchSettings "refreshToken") ;;
       ret tt
     else if String.eqb name "kick-token-refresh" then
       let* settings := loadSettings in
       let kickSettings := default [] (lookup_prop "kick" settings) in
       refreshKickToken (get kickSettings "clientId")
                        (get kickSettings "clientSecret")
                        (get kickSettings "refreshToken") ;;
       ret tt
     else ret tt)
    (fun _ => console_log LError "Error handling alarm").

(** The listener of [browser.runtime.onMessage]: [poll_now] runs a poll
    and answers [true]; any other message is left unanswered. *)
Definition onMessage (fuel : nat) (msg : JsVal) : M JsVal :=
  match getPropOpt msg "action" with
  | JStr action =>
      if String.eqb action "poll_now" then
        console_log LLog "[StreamTime] Manual poll triggered from options." ;;
        pollAll fuel ;;
        ret (JBool true)
      else ret JUndef
  | _ => ret JUndef
  end.
End Listeners.

(** ** Vocabulary of the statements *)

(** Reads the decimal digits at the head of [s]: their value on top of
    [acc], and the rest of the string. *)
Fixpoint read_number (acc : Z) (s : string) : Z * string :=
  match s with
  | String c s' =>
      match digit c with
      | Some d => read_number (10 * acc + d) s'
      | None => (acc, s)
      end
  | EmptyString => (acc, EmptyString)
  end.

Definition starts_with_digit (s : string) : bool :=
  match s with
  | String c _ => bool_decide (is_Some (digit c))
  | EmptyString => false
  end.

(** [/^\d+m$/]. *)
Definition re_m (u : string) : bool :=
  starts_with_digit u && String.eqb (read_number 0 u).2 "m".

(** [/^\d+h \d+m$/]. *)
Definition re_hm (u : string) : bool :=
  starts_with_digit u
  && match (read_number 0 u).2 with
     | String c1 (String c2 r) =>
         is_char c1 "h" && is_char c2 " " && re_m r
     | _ => false
     end.

(** The whole minutes an uptime string stands for. *)
Definition uptimeMinutes (u : string) : option Z :=
  let '(a, rest) := read_number 0 u in
  if String.eqb rest "m" then Some a
  else
    match rest with
    | String c1 (String c2 r) =>
        let '(b, rest') := read_number 0 r in
        if is_char c1 "h" && is_char c2 " " && String.eqb rest' "m"
        then Some (60 * a + b) else None
    | _ => None
    end.

(** [streamtime_live || {}]. *)
Definition storedLive (w : World) : LiveState :=
  default noLive (storage_streamtime_live w).

(** [streamtime[platform][field]] of the durable record. *)
Definition durableField (w : World) (platform field : string) : JsVal :=
  get (default [] (lookup_prop platform (default [] (storage_streamtime w))))
      field.

Definition isTokenRefresh (r : Request) : bool :=
  match r with
  | PostTwitchToken _ _ _ | PostKickToken _ _ _ => true
  | _ => false
  end.

(** How many refresh-token grants have been sent. *)
Definition refreshes (w : World) : nat :=
  length (List.filter isTokenRefresh (sent w)).

(** The property names of the entries each adapter builds. *)
Definition twitchEntryKeys : list string :=
  ["user_id"; "user_login"; "display_name"; "title"; "game"; "viewers";
   "started_at"; "uptime"; "url"].
Definition kickEntryKeys : list string :=
  ["id"; "slug"; "title"; "game"; "viewers"; "started_at"; "uptime"; "url"].
Definition youtubeEntryKeys : list string :=
  ["channelId"; "title"; "url"; "started_at"; "duration"].

(** The common shape the specification gives for a live entry:
    [{ platformKey, displayName, title, game, viewers?, startedAt, uptime,
    url }], [viewers] being optional. *)
Definition spec_LiveEntry_shape (e : Obj) : Prop :=
  (forall k, k ∈ ["platformKey"; "displayName"; "title"; "game"; "startedAt";
                  "uptime"; "url"] -> is_Some (lookup_prop k e))
  /\ (forall k, is_Some (lookup_prop k e) ->
        k ∈ ["platformKey"; "displayName"; "title"; "game"; "viewers";
             "startedAt"; "uptime"; "url"]).

(** A stored live state with no entry in any list. *)
Definition liveIsEmpty (o : option LiveState) : Prop :=
  liveKeys (default noLive o) = [].

(** What a loop of [checkLiveChannels] sends for the streams [l] when the
    previous set is [previous]: one notification per stream whose id is
    not in the set. *)
Definition announce (previous : gset string) (key title : Obj -> string)
    (message : Obj -> JsVal) (l : list Obj) : list Notification :=
  List.map (fun stream => {| n_id := key stream;
                             n_title := title stream;
                             n_message := message stream |})
           (List.filter (fun stream => bool_decide (key stream ∉ previous)) l).

Definition newNotifications (previous : gset string) (liveData : LiveState)
  : list Notification :=
  announce previous twitchKey
    (fun stream => toString (get stream "display_name") +:+ " is live on Twitch!")
    (fun stream => get stream "title")
    (default [] (live_twitch liveData))
  ++ announce previous kickKey
       (fun stream => toString (get stream "slug") +:+ " is live on Kick!")
       (fun stream => get stream "title")
       (default [] (live_kick liveData))
  ++ announce previous youtubeKey
       (fun stream => "YouTube Live: " +:+ toString (get stream "title"))
       (fun _ => JStr "A subscribed channel just went live!")
       (default [] (live_youtube liveData)).

(** What [try { live.x = await check(..) } catch (e) { console.error(e) }]
    leaves in [live.x], and the world after it: the adapter's list when it
    returned, the initial [[]] when it threw (the error is logged), and
    nothing when the adapter does not come back. *)
Definition settled (o : Outcome (list Obj)) : option (list Obj * World) :=
  match o with
  | Ret l w => Some (l, w)
  | Thrown e w =>
      Some ([], set_console (console w ++ [(LError, error_name e)]) w)
  | OutOfFuel => None
  end.

(** Every value [m] can return satisfies [P]. *)
Definition returns {A} (m : M A) (P : A -> Prop) : Prop :=
  forall w a w', m w = Ret a w' -> P a.

(** Between [w] and [w'] the durable record changed at most in
    [streamtime[platform].refreshToken]. *)
Definition onlyRefreshTokenWritten (platform : string) (w w' : World) : Prop :=
  forall p f, (p, f) <> (platform, "refreshToken") ->
    durableField w' p f = durableField w p f.

(** The access-token cookie of a platform holds [token]. *)
Definition cookieHolds (w : World) (url name : string) (token : JsVal) : Prop :=
  cookie_value <$> (cookies w !! (url, name)) = Some token.

(** [w'] is [w] some requests later: the same network, more requests
    sent. *)
Definition grows (w w' : World) : Prop :=
  net w' = net w /\ (length (sent w) <= length (sent w'))%nat.

(** The platform stops answering 401 or 403 after at most [n] more
    requests. *)
Definition patient (n : nat) (w : World) : Prop :=
  forall i req r,
    (length (sent w) + n <= i)%nat -> net w i req = Http r ->
    is401or403 r = false.

(** Started in a world that is [patient n], the computation comes back, by
    returning or by throwing, in a later world. *)
Definition safe {A} (n : nat) (m : M A) : Prop :=
  forall w, patient n w ->
    match m w with
    | Ret _ w' | Thrown _ w' => grows w w'
    | OutOfFuel => False
    end.

(** [o1] is [o2], unless the fuel ran out first. *)
Definition within {A} (o1 o2 : Outcome A) : Prop :=
  o1 = OutOfFuel \/ o1 = o2.

(** ** Vocabulary for the pages' functions *)

(** The characters that open or close markup or an attribute value: the
    angle brackets and the two quotes. *)
Definition is_markup (c : Ascii.ascii) : bool :=
  is_char c "<" || is_char c ">" || Ascii.eqb c quote_char || is_char c "'".

(** Reading the five entities back, as a browser does when it parses the
    text. *)
Fixpoint unescapeHtml (s : string) : string :=
  match s with
  | EmptyString => EmptyString
  | String c s' =>
      if is_char c "&" then
        match s' with
        | String c1 (String c2 (String c3 rest3)) =>
            if is_char c1 "l" && is_char c2 "t" && is_char c3 ";" then
              String (Ascii.ascii_of_nat 60) (unescapeHtml rest3)
            else if is_char c1 "g" && is_char c2 "t" && is_char c3 ";" then
              String (Ascii.ascii_of_nat 62) (unescapeHtml rest3)
            else
              match rest3 with
              | String c4 rest4 =>
                  if is_char c1 "a" && is_char c2 "m" && is_char c3 "p"
                     && is_char c4 ";" then
                    String (Ascii.ascii_of_nat 38) (unescapeHtml rest4)
                  else if is_char c1 "#" && is_char c2 "3" && is_char c3 "9"
                          && is_char c4 ";" then
                    String (Ascii.ascii_of_nat 39) (unescapeHtml rest4)
                  else
                    match rest4 with
                    | String c5 rest5 =>
                        if is_char c1 "q" && is_char c2 "u" && is_char c3 "o"
                           && is_char c4 "t" && is_char c5 ";" then
                          String quote_char (unescapeHtml rest5)
                        else String c (unescapeHtml s')
                    | EmptyString => String c (unescapeHtml s')
                    end
              | EmptyString => String c (unescapeHtml s')
              end
        | _ => String c (unescapeHtml s')
        end
      else String c (unescapeHtml s')
  end.


(** A token seen as code units: not empty, no comma or line feed in it,
    no white space of any kind at either end. *)
Definition cleanUnits (t : list N) : bool :=
  negb (Nat.eqb (length t) 0)
  && forallb (fun u => negb (is_comma_or_lf u)) t
  && negb (is_white (List.hd 0%N t))
  && negb (is_white (List.last t 0%N)).

(** The same of a sequence of elements with a code; [d] stands for the
    head and the last element of the empty sequence. *)
Definition cleanList {A} (code : A -> N) (d : A) (l : list A) : Prop :=
  l <> []
  /\ Forall (fun x => is_comma_or_lf (code x) = false) l
  /\ is_white (code (List.hd d l)) = false
  /\ is_white (code (List.last l d)) = false.

(** The code units of a text, a character outside the basic plane
    counting for one. *)
Definition units (s : string) : list N :=
  List.map fst (characters O (String.list_ascii_of_string s)).

(** A character as [characters] gives it: one byte, whose number is the
    code, or several bytes, none of them ASCII. *)
Definition wellFormed (x : N * list Ascii.ascii) : Prop :=
  (exists b, x = (Ascii.N_of_ascii b, [b]))
  \/ (x.2 <> [] /\ Forall (fun b => (128 <= Ascii.N_of_ascii b)%N) x.2).

(** The unreserved characters of a URI: letters, digits, hyphen, period,
    underscore, tilde. *)
Definition is_unreserved (c : Ascii.ascii) : bool :=
  let n := Ascii.nat_of_ascii c in
  ((65 <=? n) && (n <=? 90) || (97 <=? n) && (n <=? 122)
   || (48 <=? n) && (n <=? 57)
   || (n =? 45) || (n =? 46) || (n =? 95) || (n =? 126))%nat.

(** The alphabet of URL-safe base64: letters, digits, hyphen,
    underscore. *)
Definition is_base64url (c : Ascii.ascii) : bool :=
  let n := Ascii.nat_of_ascii c in
  ((65 <=? n) && (n <=? 90) || (97 <=? n) && (n <=? 122)
   || (48 <=? n) && (n <=? 57) || (n =? 45) || (n =? 95))%nat.

(** What [twitchConvert] takes from the reply to one of its requests: the
    users under [data], none when there is no [data]; nothing when the
    request failed, the status is not a success, the body is not JSON, or
    what it holds cannot be read or spread. *)
Definition twitchUsers (reply : NetReply) : option (list JsVal) :=
  match reply with
  | NetFault => None
  | Http res =>
      if ok res then
        match body res with
        | None | Some JUndef | Some JNull => None
        | Some (JObj o) =>
            match js_or (get o "data") (JArr []) with
            | JArr items => Some items
            | JStr s =>
                Some (List.map (fun c => JStr (String c EmptyString))
                               (String.list_ascii_of_string s))
            | _ => None
            end
        | Some _ => Some []
        end
      else None
  end.

(** The replies to the requests for [chunks], sent one after the other
    when [i] requests have gone before. *)
Fixpoint twitchReplies (net : nat -> PageRequest -> NetReply)
    (clientId accessToken : string) (i : nat) (chunks : list (list string))
  : list NetReply :=
  match chunks with
  | [] => []
  | chunk :: chunks' =>
      net i (GetTwitchUsers clientId accessToken chunk)
      :: twitchReplies net clientId accessToken (S i) chunks'
  end.

(** How many of the results of [kickConvert] are for the slug [s]. *)
Definition slugCount (s : string) (results : list Obj) : nat :=
  length (List.filter (fun o => sameValueZero (get o "slug") (JStr s)) results).

(** How many entries of a [Map] have the key [s]. *)
Definition keyCount (s : string) (m : list (JsVal * Obj)) : nat :=
  length (List.filter (fun kv => sameValueZero kv.1 (JStr s)) m).

(** The entries of the map of [kickConvert] hold their key as [slug], and
    no string is the key of two of them. *)
Definition slugMap (m : list (JsVal * Obj)) : Prop :=
  Forall (fun kv => get kv.2 "slug" = kv.1) m
  /\ forall s, (keyCount s m <= 1)%nat.

(** The batch lookup of [kickConvert] gives nothing: the request fails, the
    status is not one of success, or the body is not JSON. *)
Definition gives_nothing (reply : NetReply) : Prop :=
  match reply with
  | NetFault => True
  | Http r => ok r = false \/ body r = None
  end.


(** ** Vocabulary for the settings and the adapters *)

(** What [getAccessTokenCookie] reads in [w]: the value of the cookie, or
    the empty string. *)
Definition storedToken (w : World) (url name : string) : JsVal :=
  js_or (match cookies w !! (url, name) with
         | Some c => cookie_value c
         | None => JUndef
         end) (JStr EmptyString).

(** [settings[platform][field]] of the settings [loadSettings] returns. *)
Definition loadedField (settings : Settings) (platform field : string)
  : JsVal :=
  get (default [] (lookup_prop platform settings)) field.

Definition is_nullish (v : JsVal) : bool :=
  match v with
  | JUndef | JNull => true
  | _ => false
  end.

(** The stored channel list when it is what the adapters can work on: an
    array with no [null] and no [undefined] in it. *)
Definition channelList (v : JsVal) : option (list JsVal) :=
  match v with
  | JArr items =>
      if forallb (fun c => negb (is_nullish c)) items then Some items else None
  | _ => None
  end.

(** The id each adapter takes from a channel of the list. *)
Definition twitchIdOf (c : JsVal) : JsVal :=
  js_or (getPropOpt c "id")
        (js_or (getPropOpt c "user_id") (getPropOpt c "broadcaster_id")).

Definition kickIdOf (c : JsVal) : JsVal :=
  js_or (getPropOpt c "id") (getPropOpt c "broadcaster_user_id").


(** [checkTwitch] goes past its first test: client id, access token and
    channel list are there. *)
Definition twitchConfigured (twitchSettings : Obj) : bool :=
  truthy (get twitchSettings "clientId")
  && truthy (get twitchSettings "accessToken")
  && truthy (get twitchSettings "channels").

(** [w'] is [w] with more lines on the console, and nothing else
    changed. *)
Definition logs (w w' : World) : Prop :=
  exists lines, w' = set_console (console w ++ lines) w.

(** The computation comes back, and does nothing but write to the
    console. *)
Definition silent {A} (m : M A) : Prop :=
  forall w,
    match m w with
    | Ret _ w' | Thrown _ w' => logs w w'
    | OutOfFuel => False
    end.

(** The ids [checkTwitch] and [checkKick] ask about, and the request each
    sends first. *)
Definition twitchIds (twitchSettings : Obj) : list JsVal :=
  List.filter truthy
    (List.map twitchIdOf
       (default [] (channelList (get twitchSettings "channels")))).

Definition twitchRequest (twitchSettings : Obj) : Request :=
  GetTwitchStreams (get twitchSettings "clientId")
                   (get twitchSettings "accessToken")
                   (twitchIds twitchSettings).

Definition kickIds (kickSettings : Obj) : list JsVal :=
  List.filter truthy
    (List.map kickIdOf
       (default [] (channelList (get kickSettings "channels")))).

Definition kickRequest (kickSettings : Obj) : Request :=
  GetKickChannels
    (if truthy (get kickSettings "accessToken")
     then Some (get kickSettings "accessToken") else None)
    (kickIds kickSettings).

(** The reply is a 401 or a 403. *)
Definition refused (reply : NetReply) : bool :=
  match reply with
  | Http r => is401or403 r
  | NetFault => false
  end.

(** [w'] is [w] after the requests [reqs] have been sent, in this order,
    and lines written to the console; nothing else changed. *)
Definition requests (reqs : list Request) (w w' : World) : Prop :=
  logs (set_sent (sent w ++ reqs) w) w'.

(** The reply is a success whose JSON body is an object with the array
    [records], none of them [null] or [undefined], under [key]. *)
Definition delivers (reply : NetReply) (key : string) (records : list JsVal)
  : Prop :=
  exists r o,
    reply = Http r /\ ok r = true /\ body r = Some (JObj o)
    /\ get o key = JArr records
    /\ forallb (fun c => negb (is_nullish c)) records = true.

(** [ch.stream && ch.stream.is_live], as a truth value. *)
Definition kickLiveOf (ch : JsVal) : bool :=
  truthy (getPropOpt ch "stream")
  && truthy (getPropOpt (getPropOpt ch "stream") "is_live").

Section EntryRelations.
Context `{Host}.

(** The entry [e] is the one [checkTwitch] builds at the time [t] for the
    stream record [s]. *)
Definition twitchEntryFor (t : Z) (s : JsVal) (e : Obj) : Prop :=
  get e "user_id" = getPropOpt s "user_id"
  /\ get e "user_login" = getPropOpt s "user_login"
  /\ get e "display_name" = getPropOpt s "user_name"
  /\ get e "title" = getPropOpt s "title"
  /\ get e "game" = getPropOpt s "game_name"
  /\ get e "viewers" = getPropOpt s "viewer_count"
  /\ get e "started_at" = getPropOpt s "started_at"
  /\ get e "uptime" = JStr (uptimeAt t (getPropOpt s "started_at"))
  /\ get e "url"
     = JStr ("https://twitch.tv/" +:+ toString (getPropOpt s "user_login")).

(** The entry [e] is the one [checkKick] builds at the time [t] for the
    live channel [ch]: a missing title, category, viewer count or start
    time is replaced. *)
Definition kickEntryFor (t : Z) (ch : JsVal) (e : Obj) : Prop :=
  let stream := getPropOpt ch "stream" in
  get e "id" = getPropOpt ch "broadcaster_user_id"
  /\ get e "slug" = getPropOpt ch "slug"
  /\ get e "title"
     = js_or (getPropOpt ch "stream_title")
             (JStr ("Live on " +:+ toString (getPropOpt ch "slug")))
  /\ get e "game"
     = js_or (getPropOpt (getPropOpt ch "category") "name") (JStr "Unknown")
  /\ get e "viewers" = js_or (getPropOpt stream "viewer_count") (JNum 0)
  /\ get e "started_at" = js_or (getPropOpt stream "start_time") JNull
  /\ get e "uptime"
     = JStr (if truthy (getPropOpt stream "start_time")
             then uptimeAt t (getPropOpt stream "start_time")
             else EmptyString)
  /\ get e "url"
     = JStr ("https://kick.com/" +:+ toString (getPropOpt ch "slug")).
End EntryRelations.


(** Whenever the computation comes back, by returning or by throwing, the
    part [f] of the world is what it was. *)
Definition keeps {X A} (f : World -> X) (m : M A) : Prop :=
  forall w,
    match m w with
    | Ret _ w' | Thrown _ w' => f w' = f w
    | OutOfFuel => True
    end.

(** What the notification check works on. *)
Definition announced (w : World) : list Notification * gset string :=
  (notifications w, previousLiveChannels w).

(** What the poll works on: the storage, the cookies and the requests. *)
Definition polled (w : World)
  : option Settings * option LiveState * option string
    * gmap (string * string) Cookie * list Request :=
  (storage_streamtime w, storage_streamtime_live w,
   storage_streamtime_last_poll w, cookies w, sent w).

Definition is_string (v : JsVal) : bool :=
  match v with
  | JStr _ => true
  | _ => false
  end.

(** ** Example worlds *)

Definition ok200 (j : JsVal) : NetReply := Http {| status := 200; body := Some j |}.
Definition status_only (n : Z) : NetReply := Http {| status := n; body := None |}.

(** A stream record as the Twitch API sends it, and a channel record as
    the Kick API does. *)
Definition twitchStream42 : JsVal :=
  JObj [("user_id", JStr "42"); ("user_login", JStr "streamer");
        ("user_name", JStr "Streamer"); ("title", JStr "Speedrun");
        ("game_name", JStr "Chess"); ("viewer_count", JNum 12);
        ("started_at", JStr "2021-03-10T15:04:21Z")].

Definition kickChannel7 : JsVal :=
  JObj [("broadcaster_user_id", JNum 7); ("slug", JStr "kicker");
        ("stream_title", JStr "Late show");
        ("category", JObj [("name", JStr "Music")]);
        ("stream", JObj [("is_live", JBool true); ("viewer_count", JNum 3);
                         ("start_time", JStr "2021-03-10T15:04:21Z")])].

Definition youtubeHit : JsVal :=
  JObj [("id", JObj [("videoId", JStr "v1")]);
        ("snippet", JObj [("title", JStr "Live now");
                          ("publishedAt", JStr "2021-03-10T15:04:21Z")])].

Definition twitchSettings42 : Obj :=
  [("clientId", JStr "c"); ("clientSecret", JStr "s");
   ("accessToken", JStr "expired"); ("refreshToken", JStr "r0");
   ("channels", JArr [JObj [("user_id", JStr "42")]])].

Definition kickSettings7 : Obj :=
  [("clientId", JStr "c"); ("clientSecret", JStr "s");
   ("accessToken", JStr "expired"); ("refreshToken", JStr "r0");
   ("channels", JArr [JObj [("id", JNum 7)]])].

Definition youtubeSettings : Obj :=
  [("clientId", JStr "key"); ("channels", JArr [JObj [("id", JStr "UC1")]])].

(** A server that answers every request with the live data. *)
Definition healthy : nat -> Request -> NetReply :=
  fun _ req =>
    match req with
    | GetTwitchStreams _ _ _ => ok200 (JObj [("data", JArr [twitchStream42])])
    | GetKickChannels _ _ => ok200 (JObj [("data", JArr [kickChannel7])])
    | GetYouTubeSearch _ _ => ok200 (JObj [("items", JArr [youtubeHit])])
    | PostTwitchToken _ _ _ | PostKickToken _ _ _ =>
        ok200 (JObj [("access_token", JStr "fresh")])
    end.

(** A server that refuses the live-status request with 401 as long as
    fewer than [rejections] refreshes have been granted, and grants every
    refresh: the [n]-th request gets the token ["fresh-n"]. *)
Definition rejecting (rejections : nat) : nat -> Request -> NetReply :=
  fun n req =>
    match req with
    | GetTwitchStreams _ _ _ =>
        if (n <? 2 * rejections)%nat then status_only 401
        else ok200 (JObj [("data", JArr [twitchStream42])])
    | GetKickChannels _ _ =>
        if (n <? 2 * rejections)%nat then status_only 401
        else ok200 (JObj [("data", JArr [kickChannel7])])
    | PostTwitchToken _ _ _ | PostKickToken _ _ _ =>
        ok200 (JObj [("access_token", JStr ("fresh-" +:+ pretty n))])
    | GetYouTubeSearch _ _ => NetFault
    end.

(** A server that always refuses the live-status request and always
    grants the refresh. *)
Definition stubborn : nat -> Request -> NetReply :=
  fun n req =>
    match req with
    | PostTwitchToken _ _ _ | PostKickToken _ _ _ =>
        ok200 (JObj [("access_token", JStr "fresh")])
    | _ => status_only 401
    end.

(** The instant 90 minutes after the streams of the examples started. *)
Definition t90 : Z := 1615388661000 + 90 * 60 * 1000.

(** Settings stored with a Twitch channel entry that is [null], and the
    Kick and YouTube channels of the examples. *)
Definition brokenTwitchWorld : World :=
  set_net healthy
    (set_streamtime
       (Some [("twitch", [("clientId", JStr "c"); ("channels", JArr [JNull])]);
              ("kick", kickSettings7); ("youtube", youtubeSettings)])
       (set_cookies
          {[("https://api.twitch.tv/", "twitch_access_token")
            := {| cookie_value := JStr "tok"; cookie_expirationDate := 0 |}]}
          (quiet t90))).

(** Twitch is configured, its token is in the cookie, and the platform
    refuses it for ever. *)
Definition stubbornWorld : World :=
  set_net stubborn
    (set_streamtime
       (Some [("twitch", [("clientId", JStr "c"); ("clientSecret", JStr "s");
                          ("refreshToken", JStr "r0");
                          ("channels", JArr [JObj [("user_id", JStr "42")]])])])
       (set_cookies
          {[("https://api.twitch.tv/", "twitch_access_token")
            := {| cookie_value := JStr "tok"; cookie_expirationDate := 0 |}]}
          (quiet t90))).

(** The durable record of the settings-merge example. *)
Definition mergeExampleWorld : World :=
  set_streamtime
    (Some [("twitch", [("clientId", JStr "x")]);
           ("kick", [("clientId", JStr "k"); ("channels", JArr [])])])
    (quiet t90).

(** The previous set holds [twitch-1]; [twitch-1] and [twitch-2] are live. *)
Definition dedupWorld : World :=
  set_previousLiveChannels {["twitch-1"]}
    (set_streamtime_live
       (Some {| live_twitch :=
                  Some [[("user_id", JStr "1"); ("display_name", JStr "One");
                         ("title", JStr "first")];
                        [("user_id", JStr "2"); ("display_name", JStr "Two");
                         ("title", JStr "second")]];
                live_kick := Some [];
                live_youtube := Some [] |})
       (quiet t90)).

(** The entries the adapters build from the records above, 90 minutes
    after the start. *)
Definition twitchEntry42 : Obj :=
  [("user_id", JStr "42"); ("user_login", JStr "streamer");
   ("display_name", JStr "Streamer"); ("title", JStr "Speedrun");
   ("game", JStr "Chess"); ("viewers", JNum 12);
   ("started_at", JStr "2021-03-10T15:04:21Z"); ("uptime", JStr "1h 30m");
   ("url", JStr "https://twitch.tv/streamer")].

Definition kickEntry7 : Obj :=
  [("id", JNum 7); ("slug", JStr "kicker"); ("title", JStr "Late show");
   ("game", JStr "Music"); ("viewers", JNum 3);
   ("started_at", JStr "2021-03-10T15:04:21Z"); ("uptime", JStr "1h 30m");
   ("url", JStr "https://kick.com/kicker")].

Definition youtubeEntryUC1 : Obj :=
  [("channelId", JStr "UC1"); ("title", JStr "Live now");
   ("url", JStr "https://www.youtube.com/watch?v=v1");
   ("started_at", JStr "2021-03-10T15:04:21Z"); ("duration", JStr "1h 30m")].

(** A server that is down: every request is answered with 500. *)
Definition down : nat -> Request -> NetReply := fun _ _ => status_only 500.

(** The network of the options page when nothing is reachable. *)
Definition offlinePage : Page :=
  {| page_net := fun _ _ => NetFault; page_sent := []; page_console := [] |}.

(** What the options page saves for Twitch. *)
Definition savedTwitch : Obj :=
  [("clientId", JStr "c"); ("clientSecret", JStr "s");
   ("accessToken", JStr "tok"); ("refreshToken", JStr "r0");
   ("channels", JArr [JObj [("id", JStr "42")]])].

(** What an earlier poll has stored, and [stubbornWorld] with it in the
    storage. *)
Definition staleLive : LiveState :=
  {| live_twitch := Some [[("user_id", JStr "42"); ("title", JStr "old")]];
     live_kick := Some [];
     live_youtube := Some [] |}.

Definition staleWorld : World :=
  set_streamtime_last_poll (Some "2024-01-01T00:00:00.000Z")
    (set_streamtime_live (Some staleLive) stubbornWorld).

(** * Properties *)

(** Unfolds the plumbing of a computation, leaving the data. *)
Ltac run :=
  cbv beta iota zeta delta
    [bind ret reads modify throw try_catch console_log Date_now
     setAccessTokenCookie getAccessTokenCookie removeAccessTokenCookie].

Lemma bind_Ret {A B} (m : M A) (k : A -> M B) (w w' : World) (a : A) :
  m w = Ret a w' -> bind m k w = k a w'.
Proof. unfold bind. by intros ->. Qed.

Lemma bind_Thrown {A B} (m : M A) (k : A -> M B) (w w' : World) (e : JsError) :
  m w = Thrown e w' -> bind m k w = Thrown e w'.
Proof. unfold bind. by intros ->. Qed.

(** ** Property lists *)

Section PropsFacts.
Context {V : Type}.
Implicit Types (o t src : list (string * V)) (k : string) (v : V).

Lemma lookup_set_eq k v o : lookup_prop k (set_prop k v o) = Some v.
Proof.
  induction o as [| [k' v'] o IH]; cbn.
  - by rewrite decide_True.
  - destruct (decide (k = k')) as [-> | Hne]; cbn.
    + by rewrite decide_True.
    + by rewrite decide_False.
Qed.

Lemma lookup_set_ne k k' v o :
  k <> k' -> lookup_prop k (set_prop k' v o) = lookup_prop k o.
Proof.
  intros Hne. induction o as [| [k0 v0] o IH]; cbn.
  - by rewrite decide_False.
  - destruct (decide (k' = k0)) as [-> | Hne']; cbn.
    + by rewrite !decide_False.
    + destruct (decide (k = k0)); [done | apply IH].
Qed.

Lemma lookup_delete_eq k o : lookup_prop k (delete_prop k o) = None.
Proof.
  induction o as [| [k' v'] o IH]; cbn; [done |].
  destruct (decide (k = k')) as [-> | Hne]; cbn; [done |].
  by rewrite decide_False.
Qed.

Lemma lookup_delete_ne k k' o :
  k <> k' -> lookup_prop k (delete_prop k' o) = lookup_prop k o.
Proof.
  intros Hne. induction o as [| [k0 v0] o IH]; cbn; [done |].
  destruct (decide (k' = k0)) as [-> | Hne']; cbn.
  - by rewrite decide_False.
  - destruct (decide (k = k0)); [done | apply IH].
Qed.

Lemma lookup_None_keys k o : lookup_prop k o = None <-> k ∉ Object_keys o.
Proof.
  induction o as [| [k' v'] o IH]; cbn.
  - split; [intros _; apply not_elem_of_nil | done].
  - rewrite not_elem_of_cons. destruct (decide (k = k')) as [-> | Hne].
    + split; [done | intros [Hk _]; by destruct Hk].
    + rewrite IH. split; [by intros ? | by intros [_ ?]].
Qed.

(** [Object.assign] leaves alone what the source does not name. *)
Lemma lookup_assign_frame k t src :
  lookup_prop k src = None ->
  lookup_prop k (Object_assign t src) = lookup_prop k t.
Proof.
  unfold Object_assign. revert t.
  induction src as [| [k' v'] src IH]; intros t Hk; cbn in *; [done |].
  destruct (decide (k = k')) as [-> | Hne]; [done |].
  rewrite IH by done. by apply lookup_set_ne.
Qed.

(** ... and takes the source's value for what it names. *)
Lemma lookup_assign_named k v t src :
  NoDup (Object_keys src) -> lookup_prop k src = Some v ->
  lookup_prop k (Object_assign t src) = Some v.
Proof.
  unfold Object_assign. revert t.
  induction src as [| [k' v'] src IH]; intros t Hnd Hk; cbn in *; [done |].
  apply NoDup_cons in Hnd as [Hnotin Hnd].
  destruct (decide (k = k')) as [-> | Hne].
  - injection Hk as ->.
    fold (Object_assign (set_prop k' v t) src).
    rewrite lookup_assign_frame by (by apply lookup_None_keys).
    apply lookup_set_eq.
  - by apply IH.
Qed.
End PropsFacts.

(** ** Decimal strings *)

Lemma append_String (c : Ascii.ascii) (s r : string) :
  String c s +:+ r = String c (s +:+ r).
Proof. reflexivity. Qed.

Lemma append_empty (r : string) : EmptyString +:+ r = r.
Proof. reflexivity. Qed.

Lemma digit_pretty_N_char (d : N) :
  (d < 10)%N -> digit (pretty_N_char d) = Some (Z.of_N d).
Proof.
  intros Hd.
  assert (d = 0 \/ d = 1 \/ d = 2 \/ d = 3 \/ d = 4 \/ d = 5 \/ d = 6
          \/ d = 7 \/ d = 8 \/ d = 9)%N as Hcases by lia.
  repeat (destruct Hcases as [-> | Hcases]; [reflexivity |]).
  subst d. reflexivity.
Qed.

(** Reading what [pretty_N_go] printed gives the number back, whatever was
    read before it and whatever follows. *)
Lemma read_number_pretty_N_go (x : N) :
  exists k, forall acc s,
    read_number acc (pretty_N_go x s) = read_number (acc * k + Z.of_N x) s.
Proof.
  induction (N.lt_wf_0 x) as [x _ IH].
  destruct (decide (x = 0%N)) as [-> | Hx].
  - exists 1. intros acc s. rewrite pretty_N_go_0. f_equal. lia.
  - destruct (IH (x `div` 10)%N) as [k Hk].
    { apply N.div_lt; lia. }
    exists (10 * k). intros acc s.
    rewrite pretty_N_go_step by lia. rewrite Hk. cbn [read_number].
    rewrite digit_pretty_N_char by (apply N.mod_lt; lia).
    f_equal.
    pose proof (N.div_mod x 10 ltac:(lia)) as Hdm.
    lia.
Qed.

Lemma starts_with_digit_pretty_N_go (x : N) (s : string) :
  (0 < x)%N -> starts_with_digit (pretty_N_go x s) = true.
Proof.
  revert s. induction (N.lt_wf_0 x) as [x _ IH]. intros s Hx.
  rewrite pretty_N_go_step by done.
  destruct (decide (x `div` 10 = 0)%N) as [-> | Hq].
  - rewrite pretty_N_go_0. cbn.
    rewrite digit_pretty_N_char by (apply N.mod_lt; lia).
    by apply bool_decide_eq_true.
  - apply IH.
    + apply N.div_lt; lia.
    + apply N.neq_0_lt_0. exact Hq.
Qed.

Lemma pretty_N_go_app (x : N) (s r : string) :
  pretty_N_go x s +:+ r = pretty_N_go x (s +:+ r).
Proof.
  revert s. induction (N.lt_wf_0 x) as [x _ IH]. intros s.
  destruct (decide (x = 0%N)) as [-> | Hx].
  - by rewrite !pretty_N_go_0.
  - rewrite (pretty_N_go_step x s), (pretty_N_go_step x (s +:+ r)) by lia.
    rewrite IH by (apply N.div_lt; lia). done.
Qed.

Lemma pretty_Z_nonneg (z : Z) (r : string) :
  0 <= z ->
  pretty z +:+ r
  = if decide (z = 0) then String (pretty_N_char 0) r
    else pretty_N_go (Z.to_N z) r.
Proof.
  intros Hz. destruct z as [| p | p]; [done | | lia].
  rewrite decide_False by lia.
  unfold pretty, pretty_Z, pretty, pretty_positive, pretty, pretty_N.
  rewrite decide_False by lia.
  rewrite pretty_N_go_app. done.
Qed.

Lemma starts_with_digit_pretty (z : Z) (r : string) :
  0 <= z -> starts_with_digit (pretty z +:+ r) = true.
Proof.
  intros Hz. rewrite pretty_Z_nonneg by done. case_decide.
  - reflexivity.
  - apply starts_with_digit_pretty_N_go. lia.
Qed.

Lemma read_number_pretty (z : Z) (r : string) :
  0 <= z -> starts_with_digit r = false ->
  read_number 0 (pretty z +:+ r) = (z, r).
Proof.
  intros Hz Hr. rewrite pretty_Z_nonneg by done.
  assert (forall a, read_number a r = (a, r)) as Hstop.
  { intros a. destruct r as [| c r]; [done |]. cbn in *.
    destruct (digit c); [| done].
    apply bool_decide_eq_false in Hr. destruct Hr. by eexists. }
  case_decide as Hz0.
  - subst z. cbn. apply Hstop.
  - destruct (read_number_pretty_N_go (Z.to_N z)) as [k Hk].
    rewrite Hk, Hstop. f_equal. lia.
Qed.

(** ** [computeUptime] *)

Section UptimeFacts.
Context `{Host}.

Lemma computeUptime_run (v : JsVal) (w : World) :
  computeUptime v w = Ret (uptimeAt (now w) v) w.
Proof. reflexivity. Qed.

(** An invalid date is not an exception: the [catch] never runs, and the
    [NaN] reaches the template literal. *)
Lemma computeUptime_unparseable (s : string) (w : World) :
  Date_parse s = None -> computeUptime (JStr s) w = Ret "NaNm" w.
Proof.
  intros Hs. rewrite computeUptime_run. unfold uptimeAt. cbn. by rewrite Hs.
Qed.

Lemma computeUptime_never_throws (v : JsVal) (w : World) :
  exists u, computeUptime v w = Ret u w.
Proof. eexists. apply computeUptime_run. Qed.

(** On a valid timestamp the result is a function of the elapsed whole
    seconds. *)
Lemma uptimeAt_valid (s : string) (t0 t : Z) :
  Date_parse s = Some t0 ->
  uptimeAt t (JStr s)
  = let sec := Z.max 0 (t - t0) / 1000 in
    if 0 <? sec / 3600
    then pretty (sec / 3600) +:+ "h " +:+ pretty (Z.rem sec 3600 / 60) +:+ "m"
    else pretty (Z.rem sec 3600 / 60) +:+ "m".
Proof. intros Hs. unfold uptimeAt. cbn. by rewrite Hs. Qed.

Lemma re_m_minutes (m : Z) : 0 <= m -> re_m (pretty m +:+ "m") = true.
Proof.
  intros Hm. unfold re_m.
  rewrite starts_with_digit_pretty, read_number_pretty by done. done.
Qed.

Lemma re_hm_hours_minutes (h m : Z) :
  0 <= h -> 0 <= m -> re_hm (pretty h +:+ "h " +:+ pretty m +:+ "m") = true.
Proof.
  intros Hh Hm. unfold re_hm.
  rewrite starts_with_digit_pretty, read_number_pretty by done.
  cbn. by apply re_m_minutes.
Qed.

Lemma uptimeMinutes_minutes (m : Z) :
  0 <= m -> uptimeMinutes (pretty m +:+ "m") = Some m.
Proof.
  intros Hm. unfold uptimeMinutes. by rewrite read_number_pretty.
Qed.

Lemma uptimeMinutes_hours_minutes (h m : Z) :
  0 <= h -> 0 <= m ->
  uptimeMinutes (pretty h +:+ "h " +:+ pretty m +:+ "m") = Some (60 * h + m).
Proof.
  intros Hh Hm. unfold uptimeMinutes.
  rewrite read_number_pretty by done.
  pose proof (read_number_pretty m "m" Hm eq_refl) as Hread.
  set (rest := pretty m +:+ "m") in *.
  rewrite !append_String, append_empty. cbn. by rewrite Hread.
Qed.

Lemma uptimeMinutes_uptimeAt (s : string) (t0 t : Z) :
  Date_parse s = Some t0 ->
  uptimeMinutes (uptimeAt t (JStr s)) = Some (Z.max 0 (t - t0) / 60000).
Proof.
  intros Hs. rewrite (uptimeAt_valid s t0) by done. cbv zeta.
  set (sec := Z.max 0 (t - t0) / 1000).
  assert (0 <= sec) as Hsec by (apply Z.div_pos; lia).
  assert (Z.max 0 (t - t0) / 60000 = sec / 60) as ->.
  { unfold sec. rewrite Z.div_div by lia. done. }
  rewrite Z.rem_mod_nonneg by lia.
  assert (0 <= sec / 3600) by (apply Z.div_pos; lia).
  assert (0 <= sec mod 3600 / 60).
  { apply Z.div_pos; [| lia]. apply Z.mod_pos_bound. lia. }
  destruct (Z.ltb_spec 0 (sec / 3600)).
  - rewrite uptimeMinutes_hours_minutes by done. f_equal.
    Z.div_mod_to_equations. lia.
  - rewrite uptimeMinutes_minutes by done. f_equal.
    Z.div_mod_to_equations. lia.
Qed.
End UptimeFacts.

(** C4 (the code departs from it): on a string that is not a timestamp
    [computeUptime] does not throw, but it returns ["NaNm"], not the empty
    string. *)
Theorem computeUptime_unparseable_NaNm :
  Date_parse "not-a-timestamp" = None
  /\ computeUptime (JStr "not-a-timestamp") (quiet 1615388661000)
     = Ret "NaNm" (quiet 1615388661000).
Proof. split; reflexivity. Qed.

(** C7: on a valid timestamp [computeUptime] returns a string that is
    ["0m"] when the elapsed time is negative or zero, matches
    [/^\d+h \d+m$/] from one hour of elapsed time on and [/^\d+m$/] below,
    and whose minute count does not decrease when the elapsed time
    grows. *)
Theorem computeUptime_valid_timestamp `{Host}
    (s1 s2 : string) (t1 t2 : Z) (w1 w2 : World) :
  Date_parse s1 = Some t1 -> Date_parse s2 = Some t2 ->
  exists u1 u2,
    computeUptime (JStr s1) w1 = Ret u1 w1
    /\ computeUptime (JStr s2) w2 = Ret u2 w2
    /\ (now w1 - t1 <= 0 -> u1 = "0m")
    /\ (3600000 <= now w1 - t1 -> re_hm u1 = true)
    /\ (now w1 - t1 < 3600000 -> re_m u1 = true)
    /\ (now w1 - t1 <= now w2 - t2 ->
        exists n1 n2, uptimeMinutes u1 = Some n1
                      /\ uptimeMinutes u2 = Some n2 /\ n1 <= n2).
Proof.
  intros Hs1 Hs2. do 2 eexists.
  split; [apply computeUptime_run |]. split; [apply computeUptime_run |].
  set (e1 := now w1 - t1). set (e2 := now w2 - t2).
  assert (0 <= Z.max 0 e1 / 1000) as Hsec by (apply Z.div_pos; lia).
  assert (0 <= Z.max 0 e1 / 1000 / 3600) as Hh by (apply Z.div_pos; lia).
  assert (0 <= Z.rem (Z.max 0 e1 / 1000) 3600 / 60) as Hm.
  { rewrite Z.rem_mod_nonneg by lia.
    apply Z.div_pos; [| lia]. apply Z.mod_pos_bound. lia. }
  repeat split.
  - intros Hneg. rewrite (uptimeAt_valid s1 t1) by done. fold e1.
    rewrite Z.max_l by lia. reflexivity.
  - intros Hhour. rewrite (uptimeAt_valid s1 t1) by done. fold e1. cbv zeta.
    destruct (Z.ltb_spec 0 (Z.max 0 e1 / 1000 / 3600)) as [_ | Hlt].
    + by apply re_hm_hours_minutes.
    + exfalso. revert Hlt. Z.div_mod_to_equations. lia.
  - intros Hshort. rewrite (uptimeAt_valid s1 t1) by done. fold e1. cbv zeta.
    destruct (Z.ltb_spec 0 (Z.max 0 e1 / 1000 / 3600)) as [Hlt | _].
    + exfalso. revert Hlt. Z.div_mod_to_equations. lia.
    + by apply re_m_minutes.
  - intros Hle. do 2 eexists.
    split; [by apply uptimeMinutes_uptimeAt |].
    split; [by apply uptimeMinutes_uptimeAt |].
    fold e1 e2. apply Z.div_le_mono; lia.
Qed.

Lemma computeUptime_valid_timestamp_witness :
  Date_parse "2021-03-10T15:04:21Z" = Some 1615388661000
  /\ exists u1 u2,
      computeUptime (JStr "2021-03-10T15:04:21Z") (quiet 1615388661000 ) = Ret u1 (quiet 1615388661000)
      /\ computeUptime (JStr "2021-03-10T15:04:21Z") (quiet 1615394061000) = Ret u2 (quiet 1615394061000)
      /\ (now (quiet 1615388661000) - 1615388661000 <= 0 -> u1 = "0m")
      /\ (3600000 <= now (quiet 1615388661000) - 1615388661000 -> re_hm u1 = true)
      /\ (now (quiet 1615388661000) - 1615388661000 < 3600000 -> re_m u1 = true)
      /\ (now (quiet 1615388661000) - 1615388661000
          <= now (quiet 1615394061000) - 1615388661000 ->
          exists n1 n2, uptimeMinutes u1 = Some n1
                        /\ uptimeMinutes u2 = Some n2 /\ n1 <= n2).
Proof.
  split; [reflexivity |].
  apply (computeUptime_valid_timestamp
           "2021-03-10T15:04:21Z" "2021-03-10T15:04:21Z"
           1615388661000 1615388661000
           (quiet 1615388661000) (quiet 1615394061000));
    reflexivity.
Defined.

(** ** [mergeSettings] *)

(** One turn of the loop over [Object.keys(newData)]. *)
Lemma merge_step_other (newData merged : Settings) (key p : string) :
  p <> key ->
  lookup_prop p
    (set_prop key
       (Object_assign (default [] (lookup_prop key merged))
                      (default [] (lookup_prop key newData))) merged)
  = lookup_prop p merged.
Proof. intros Hne. by apply lookup_set_ne. Qed.

Lemma merge_loop_platform_frame (newData : Settings) (keys : list string)
    (current : Settings) (p : string) :
  p ∉ keys ->
  lookup_prop p
    (fold_left
       (fun (merged : Settings) key =>
          set_prop key
            (Object_assign (default [] (lookup_prop key merged))
                           (default [] (lookup_prop key newData))) merged)
       keys current)
  = lookup_prop p current.
Proof.
  revert current. induction keys as [| key keys IH]; intros current Hp; [done |].
  apply not_elem_of_cons in Hp as [Hne Hp]. cbn.
  rewrite IH by done. by apply merge_step_other.
Qed.

Lemma merge_loop_field_frame (newData : Settings) (keys : list string)
    (current : Settings) (p f : string) :
  lookup_prop f (default [] (lookup_prop p newData)) = None ->
  lookup_prop f (default [] (lookup_prop p
    (fold_left
       (fun (merged : Settings) key =>
          set_prop key
            (Object_assign (default [] (lookup_prop key merged))
                           (default [] (lookup_prop key newData))) merged)
       keys current)))
  = lookup_prop f (default [] (lookup_prop p current)).
Proof.
  intros Hf. revert current.
  induction keys as [| key keys IH]; intros current; [done |].
  cbn. rewrite IH. destruct (decide (p = key)) as [<- | Hne].
  - rewrite lookup_set_eq. cbn. by apply lookup_assign_frame.
  - by rewrite merge_step_other.
Qed.

Lemma merge_loop_field_written (newData : Settings) (keys : list string)
    (current : Settings) (p f : string) (v : JsVal) :
  NoDup (Object_keys (default [] (lookup_prop p newData))) ->
  lookup_prop f (default [] (lookup_prop p newData)) = Some v ->
  p ∈ keys \/ lookup_prop f (default [] (lookup_prop p current)) = Some v ->
  lookup_prop f (default [] (lookup_prop p
    (fold_left
       (fun (merged : Settings) key =>
          set_prop key
            (Object_assign (default [] (lookup_prop key merged))
                           (default [] (lookup_prop key newData))) merged)
       keys current)))
  = Some v.
Proof.
  intros Hnd Hf. revert current.
  induction keys as [| key keys IH]; intros current Hin.
  - destruct Hin as [Hin | Hcur]; [by apply elem_of_nil in Hin | done].
  - cbn. apply IH. destruct (decide (p = key)) as [<- | Hne].
    + right. rewrite lookup_set_eq. cbn. by apply lookup_assign_named.
    + destruct Hin as [Hin | Hcur].
      * left. apply elem_of_cons in Hin as [? | ?]; [done | done].
      * right. by rewrite merge_step_other.
Qed.

Lemma lookup_Some_keys {V} (k : string) (v : V) (o : list (string * V)) :
  lookup_prop k o = Some v -> k ∈ Object_keys o.
Proof.
  intros Hk. destruct (decide (k ∈ Object_keys o)) as [| Hnot]; [done |].
  apply lookup_None_keys in Hnot. congruence.
Qed.

(** C9: [mergeSettings] writes a record in which a platform that the new
    data does not mention is as it was, and in which a mentioned platform
    keeps every field that the new data does not give; the fields the new
    data gives take the new values. *)
Theorem mergeSettings_frame (newData : Settings) (w : World) :
  exists merged w',
    mergeSettings newData w = Ret merged w'
    /\ storage_streamtime w' = Some merged
    /\ (forall p, lookup_prop p newData = None ->
          lookup_prop p merged
          = lookup_prop p (default [] (storage_streamtime w)))
    /\ (forall p fields f,
          lookup_prop p newData = Some fields -> lookup_prop f fields = None ->
          durableField w' p f = durableField w p f)
    /\ (forall p fields f v,
          lookup_prop p newData = Some fields -> NoDup (Object_keys fields) ->
          lookup_prop f fields = Some v ->
          durableField w' p f = v).
Proof.
  do 2 eexists. split; [unfold mergeSettings; run; reflexivity |].
  split; [reflexivity |].
  repeat split.
  - intros p Hp. apply merge_loop_platform_frame. by apply lookup_None_keys.
  - intros p fields f Hp Hf. unfold durableField, get. cbn.
    rewrite merge_loop_field_frame; [done |]. by rewrite Hp.
  - intros p fields f v Hp Hnd Hf. unfold durableField, get. cbn.
    rewrite (merge_loop_field_written _ _ _ _ _ v); [done | | |].
    + by rewrite Hp.
    + by rewrite Hp.
    + left. by eapply lookup_Some_keys.
Qed.

(** ** Writers of the durable record *)

Lemma durableField_set_other (w : World) (st : Settings) (platform p f : string)
    (entry : Obj) :
  p <> platform ->
  get (default [] (lookup_prop p (set_prop platform entry st))) f
  = get (default [] (lookup_prop p st)) f.
Proof. intros Hne. by rewrite lookup_set_ne. Qed.

Lemma saveAccessToken_storage (url name : string) (tok : JsVal) (w : World) :
  exists w', saveAccessToken url name tok w = Ret tt w'
             /\ storage_streamtime w' = storage_streamtime w.
Proof.
  unfold saveAccessToken. destruct (truthy tok); run; eexists; split; reflexivity.
Qed.

Lemma saveSettings_run (platform : string) (obj : Obj) (w : World) :
  exists w',
    saveSettings platform obj w = Ret tt w'
    /\ storage_streamtime w'
       = Some (set_prop platform
                 (let entry :=
                    Object_assign
                      (default [] (lookup_prop platform
                                     (default [] (storage_streamtime w)))) obj in
                  if negb (is_undefined (get obj "accessToken"))
                  then delete_prop "accessToken" entry else entry)
                 (default [] (storage_streamtime w))).
Proof.
  unfold saveSettings. run.
  repeat case_decide;
    try (match goal with
         | |- context [saveAccessToken ?u ?n ?t ?w0] =>
             destruct (saveAccessToken_storage u n t w0) as (w' & -> & Hst)
         end; exists w'; split; [reflexivity | by rewrite Hst]).
  eexists; split; reflexivity.
Qed.

(** [saveSettings] puts no access token into the durable record. *)
Lemma saveSettings_no_accessToken (platform : string) (obj : Obj) (w : World) :
  NoDup (Object_keys obj) ->
  exists w',
    saveSettings platform obj w = Ret tt w'
    /\ forall p, durableField w' p "accessToken" = JUndef
                 \/ durableField w' p "accessToken" = durableField w p "accessToken".
Proof.
  intros Hnd. destruct (saveSettings_run platform obj w) as (w' & Hrun & Hst).
  exists w'. split; [done |]. intros p. unfold durableField. rewrite Hst. cbn.
  destruct (decide (p = platform)) as [-> | Hne].
  - rewrite lookup_set_eq. cbn.
    destruct (is_undefined (get obj "accessToken")) eqn:Hundef; cbn.
    + unfold get in *.
      destruct (lookup_prop "accessToken" obj) as [v |] eqn:Hobj; cbn in Hundef.
      * left. rewrite (lookup_assign_named _ v) by done. cbn.
        by destruct v.
      * right. by rewrite lookup_assign_frame.
    + left. unfold get. by rewrite lookup_delete_eq.
  - right. by rewrite lookup_set_ne.
Qed.

(** [mergeSettings] changes no field that the new data does not name. *)
Lemma mergeSettings_field_frame (newData : Settings) (w : World) (p f : string) :
  lookup_prop f (default [] (lookup_prop p newData)) = None ->
  exists merged w',
    mergeSettings newData w = Ret merged w'
    /\ durableField w' p f = durableField w p f
    /\ cookies w' = cookies w.
Proof.
  intros Hf. do 2 eexists. split; [unfold mergeSettings; run; reflexivity |].
  split; [| reflexivity].
  unfold durableField, get. cbn. by rewrite merge_loop_field_frame.
Qed.

Lemma mergeSettings_single (platform field : string) (v : JsVal) (w : World) :
  mergeSettings [(platform, [(field, v)])] w
  = let merged :=
      set_prop platform
        (set_prop field v
           (default [] (lookup_prop platform (default [] (storage_streamtime w)))))
        (default [] (storage_streamtime w)) in
    Ret merged (set_streamtime (Some merged) w).
Proof.
  unfold mergeSettings. run. cbn. rewrite decide_True by done. reflexivity.
Qed.

Lemma durableField_single (platform field : string) (v : JsVal) (w : World)
    (st : Settings) (p f : string) :
  (p, f) <> (platform, field) ->
  get (default [] (lookup_prop p
         (set_prop platform
            (set_prop field v (default [] (lookup_prop platform st))) st))) f
  = get (default [] (lookup_prop p st)) f.
Proof.
  intros Hne. destruct (decide (p = platform)) as [-> | Hp].
  - rewrite lookup_set_eq. cbn. unfold get.
    rewrite lookup_set_ne by congruence. done.
  - by rewrite lookup_set_ne.
Qed.

Lemma onlyRefreshTokenWritten_same_storage (platform : string) (w w' : World) :
  storage_streamtime w' = storage_streamtime w ->
  onlyRefreshTokenWritten platform w w'.
Proof. intros Hst p f _. unfold durableField. by rewrite Hst. Qed.

(** What a token refresh leaves behind.  With a token: the cookie holds it,
    and the durable record received the refresh token of the response, or
    kept the old one.  Without: [null], and nothing was stored. *)
Lemma refreshTwitchToken_spec (clientId clientSecret refreshToken : JsVal)
    (w : World) :
  exists tok w',
    refreshTwitchToken clientId clientSecret refreshToken w = Ret tok w'
    /\ onlyRefreshTokenWritten "twitch" w w'
    /\ if truthy tok then
         cookieHolds w' "https://api.twitch.tv/" "twitch_access_token" tok
         /\ exists r data,
              net w (length (sent w))
                  (PostTwitchToken clientId clientSecret refreshToken) = Http r
              /\ body r = Some (JObj data)
              /\ tok = get data "access_token"
              /\ durableField w' "twitch" "refreshToken"
                 = js_or (get data "refresh_token") refreshToken
       else tok = JNull
            /\ storage_streamtime w' = storage_streamtime w
            /\ cookies w' = cookies w.
Proof.
  unfold refreshTwitchToken. run. unfold fetch. cbn -[mergeSettings].
  destruct (net w _ _) as [| r] eqn:Hnet; cbn -[mergeSettings].
  { do 2 eexists. split; [reflexivity |].
    split; [by apply onlyRefreshTokenWritten_same_storage | done]. }
  destruct (ok r) eqn:Hok; cbn -[mergeSettings].
  2:{ do 2 eexists. split; [reflexivity |].
      split; [by apply onlyRefreshTokenWritten_same_storage | done]. }
  unfold json. destruct (body r) as [j |] eqn:Hbody; cbn -[mergeSettings].
  2:{ do 2 eexists. split; [reflexivity |].
      split; [by apply onlyRefreshTokenWritten_same_storage | done]. }
  destruct j as [| | b | n | s | items | data]; cbn -[mergeSettings];
    try (do 2 eexists; split; [reflexivity |];
         split; [by apply onlyRefreshTokenWritten_same_storage | done]).
  destruct (truthy (get data "access_token")) eqn:Htok; cbn -[mergeSettings].
  2:{ do 2 eexists. split; [reflexivity |].
      split; [by apply onlyRefreshTokenWritten_same_storage | done]. }
  rewrite mergeSettings_single. cbn.
  do 2 eexists. split; [reflexivity |]. rewrite Htok. split; [| split].
  - intros p f Hne. unfold durableField. cbn -[mergeSettings]. by apply durableField_single.
  - unfold cookieHolds. cbn -[mergeSettings]. rewrite lookup_insert_eq. cbn -[mergeSettings].
    unfold js_or. by rewrite Htok.
  - exists r, data. repeat split; [done |].
    unfold durableField, get. cbn -[mergeSettings].
    rewrite lookup_set_eq. cbn. by rewrite lookup_set_eq.
Qed.

(** [refreshKickToken] can also throw, when a credential is not a string
    (the debug logging calls [substring] on it); nothing is stored then. *)
Lemma refreshKickToken_spec (clientId clientSecret refreshToken : JsVal)
    (w : World) :
  match refreshKickToken clientId clientSecret refreshToken w with
  | Ret tok w' =>
      onlyRefreshTokenWritten "kick" w w'
      /\ if truthy tok then
           cookieHolds w' "https://kick.com/" "kick_access_token" tok
           /\ exists r data,
                net w (length (sent w))
                    (PostKickToken clientId clientSecret refreshToken) = Http r
                /\ body r = Some (JObj data)
                /\ tok = get data "access_token"
                /\ durableField w' "kick" "refreshToken"
                   = js_or (get data "refresh_token") refreshToken
         else tok = JNull
              /\ storage_streamtime w' = storage_streamtime w
              /\ cookies w' = cookies w
  | Thrown _ w' =>
      storage_streamtime w' = storage_streamtime w /\ cookies w' = cookies w
  | OutOfFuel => False
  end.
Proof.
  unfold refreshKickToken.
  destruct (negb (truthy clientId) || negb (truthy clientSecret)
            || negb (truthy refreshToken)) eqn:Hmissing.
  { run. cbn. split; [by apply onlyRefreshTokenWritten_same_storage | done]. }
  run. cbn -[mergeSettings].
  destruct clientId as [| | b | n | cid | items | o]; cbn -[mergeSettings];
    try done.
  destruct refreshToken as [| | b | n | rt | items | o]; cbn -[mergeSettings];
    try done.
  unfold fetch. cbn -[mergeSettings].
  destruct (net w _ _) as [| r] eqn:Hnet; cbn -[mergeSettings].
  { split; [by apply onlyRefreshTokenWritten_same_storage | done]. }
  destruct (ok r) eqn:Hok; cbn -[mergeSettings].
  2:{ split; [by apply onlyRefreshTokenWritten_same_storage | done]. }
  unfold json. destruct (body r) as [j |] eqn:Hbody; cbn -[mergeSettings].
  2:{ split; [by apply onlyRefreshTokenWritten_same_storage | done]. }
  destruct j as [| | b | n | s | items | data]; cbn -[mergeSettings];
    try (split; [by apply onlyRefreshTokenWritten_same_storage | done]).
  destruct (truthy (get data "access_token")) eqn:Htok; cbn -[mergeSettings].
  2:{ split; [by apply onlyRefreshTokenWritten_same_storage | done]. }
  rewrite mergeSettings_single. cbn. rewrite Htok. split; [| split].
  - intros p f Hne. unfold durableField. cbn. by apply durableField_single.
  - unfold cookieHolds. cbn. rewrite lookup_insert_eq. cbn.
    unfold js_or. by rewrite Htok.
  - exists r, data. repeat split; [done |].
    unfold durableField, get. cbn.
    rewrite lookup_set_eq. cbn. by rewrite lookup_set_eq.
Qed.

(** C3: no writer of the durable record puts an access token into it.
    [saveSettings] removes the one it is given; [mergeSettings] writes the
    fields of its argument and no other; a token refresh changes nothing in
    the record but [refreshToken], and when it succeeds the new access
    token is in the cookie and the record holds the refresh token of the
    response (the old one if the response has none). *)
Theorem accessToken_not_in_durable_record :
  (forall platform obj w,
     NoDup (Object_keys obj) ->
     exists w',
       saveSettings platform obj w = Ret tt w'
       /\ forall p, durableField w' p "accessToken" = JUndef
                    \/ durableField w' p "accessToken"
                       = durableField w p "accessToken")
  /\ (forall newData w p,
        lookup_prop "accessToken" (default [] (lookup_prop p newData)) = None ->
        exists merged w',
          mergeSettings newData w = Ret merged w'
          /\ durableField w' p "accessToken" = durableField w p "accessToken")
  /\ (forall clientId clientSecret refreshToken w,
        exists tok w',
          refreshTwitchToken clientId clientSecret refreshToken w = Ret tok w'
          /\ (forall p, durableField w' p "accessToken"
                        = durableField w p "accessToken")
          /\ onlyRefreshTokenWritten "twitch" w w'
          /\ if truthy tok then
               cookieHolds w' "https://api.twitch.tv/" "twitch_access_token" tok
               /\ exists r data,
                    net w (length (sent w))
                        (PostTwitchToken clientId clientSecret refreshToken)
                    = Http r
                    /\ body r = Some (JObj data)
                    /\ tok = get data "access_token"
                    /\ durableField w' "twitch" "refreshToken"
                       = js_or (get data "refresh_token") refreshToken
             else tok = JNull
                  /\ storage_streamtime w' = storage_streamtime w
                  /\ cookies w' = cookies w)
  /\ (forall clientId clientSecret refreshToken w,
        match refreshKickToken clientId clientSecret refreshToken w with
        | Ret tok w' =>
            (forall p, durableField w' p "accessToken"
                       = durableField w p "accessToken")
            /\ onlyRefreshTokenWritten "kick" w w'
            /\ if truthy tok then
                 cookieHolds w' "https://kick.com/" "kick_access_token" tok
                 /\ exists r data,
                      net w (length (sent w))
                          (PostKickToken clientId clientSecret refreshToken)
                      = Http r
                      /\ body r = Some (JObj data)
                      /\ tok = get data "access_token"
                      /\ durableField w' "kick" "refreshToken"
                         = js_or (get data "refresh_token") refreshToken
               else tok = JNull
                    /\ storage_streamtime w' = storage_streamtime w
                    /\ cookies w' = cookies w
        | Thrown _ w' =>
            storage_streamtime w' = storage_streamtime w
            /\ cookies w' = cookies w
        | OutOfFuel => False
        end).
Proof.
  split; [| split; [| split]].
  - intros platform obj w Hnd. by apply saveSettings_no_accessToken.
  - intros newData w p Hp.
    destruct (mergeSettings_field_frame newData w p "accessToken" Hp)
      as (merged & w' & Hrun & Hfield & _).
    by exists merged, w'.
  - intros clientId clientSecret refreshToken w.
    destruct (refreshTwitchToken_spec clientId clientSecret refreshToken w)
      as (tok & w' & Hrun & Honly & Htok).
    exists tok, w'. repeat split; [done | | done | done].
    intros p. by apply Honly.
  - intros clientId clientSecret refreshToken w.
    pose proof (refreshKickToken_spec clientId clientSecret refreshToken w) as Hk.
    destruct (refreshKickToken clientId clientSecret refreshToken w)
      as [tok w' | e w' |]; [| done | done].
    destruct Hk as [Honly Htok]. repeat split; [| done | done].
    intros p. by apply Honly.
Qed.

(** ** The notification check *)

Lemma forEach_announce (key title : Obj -> string) (message : Obj -> JsVal)
    (l : list Obj) (w : World) :
  forEach (fun stream =>
             let id := key stream in
             let* previous := reads previousLiveChannels in
             if decide (id ∈ previous) then ret tt
             else notifications_create id (title stream) (message stream))
          l w
  = Ret tt (set_notifications
              (notifications w
               ++ announce (previousLiveChannels w) key title message l) w).
Proof.
  revert w. induction l as [| stream l IH]; intros w.
  - cbn. unfold ret, announce. cbn. by rewrite app_nil_r.
  - cbn [forEach]. run. unfold announce. cbn [List.filter].
    destruct (decide (key stream ∈ previousLiveChannels w)) as [Hin | Hnot].
    + rewrite bool_decide_eq_false_2 by (intros Hn; by apply Hn).
      apply IH.
    + rewrite bool_decide_eq_true_2 by done.
      unfold notifications_create, modify. rewrite IH. cbn.
      unfold set_notifications. cbn. by rewrite <- app_assoc.
Qed.

Lemma announce_ids (previous : gset string) (key title : Obj -> string)
    (message : Obj -> JsVal) (l : list Obj) :
  List.map n_id (announce previous key title message l)
  = List.filter (fun k => bool_decide (k ∉ previous)) (List.map key l).
Proof.
  unfold announce. induction l as [| stream l IH]; [done |]. cbn.
  destruct (bool_decide (key stream ∉ previous)); cbn; by rewrite IH.
Qed.

Lemma newNotifications_ids (previous : gset string) (liveData : LiveState) :
  List.map n_id (newNotifications previous liveData)
  = List.filter (fun k => bool_decide (k ∉ previous)) (liveKeys liveData).
Proof.
  unfold newNotifications, liveKeys.
  rewrite !List.map_app, !List.filter_app, !announce_ids. done.
Qed.

(** The run of [checkLiveChannels], spelled out. *)
Lemma checkLiveChannels_run (w : World) :
  exists w',
    checkLiveChannels w = Ret tt w'
    /\ notifications w'
       = notifications w
         ++ newNotifications (previousLiveChannels w) (storedLive w)
    /\ previousLiveChannels w' = list_to_set (liveKeys (storedLive w))
    /\ storage_streamtime_live w' = storage_streamtime_live w.
Proof.
  unfold checkLiveChannels.
  erewrite bind_Ret by reflexivity.
  erewrite bind_Ret by reflexivity. cbv zeta.
  erewrite bind_Ret by apply forEach_announce.
  erewrite bind_Ret by apply forEach_announce.
  erewrite bind_Ret by apply forEach_announce.
  erewrite bind_Ret by reflexivity.
  eexists. split; [reflexivity |]. cbn.
  split; [| done]. unfold newNotifications, storedLive.
  by rewrite <- !app_assoc.
Qed.

Lemma NoDup_List_filter {A} (f : A -> bool) (l : list A) :
  NoDup l -> NoDup (List.filter f l).
Proof.
  induction 1 as [| x l Hx Hl IH]; cbn; [constructor |].
  destruct (f x); [| done]. constructor; [| done].
  rewrite list_elem_of_In, List.filter_In, <- list_elem_of_In. by intros [? _].
Qed.

(** C5: [checkLiveChannels] never fails; the ids it notifies are exactly
    those of the current live set that are not in the previous set (each
    once, when no id occurs twice in the live lists), and the previous set
    becomes the current set.  Hence at the next check a channel that was
    live at this one is not notified again, and one that was not live at
    this one and is live at the next is notified. *)
Theorem checkLiveChannels_notifies_new (w : World) :
  exists w' emitted,
    checkLiveChannels w = Ret tt w'
    /\ notifications w' = notifications w ++ emitted
    /\ (forall k, k ∈ List.map n_id emitted
                  <-> k ∈ liveKeys (storedLive w) /\ k ∉ previousLiveChannels w)
    /\ (NoDup (liveKeys (storedLive w)) -> NoDup (List.map n_id emitted))
    /\ previousLiveChannels w' = list_to_set (liveKeys (storedLive w))
    /\ forall w2,
         previousLiveChannels w2 = previousLiveChannels w' ->
         exists w2' emitted2,
           checkLiveChannels w2 = Ret tt w2'
           /\ notifications w2' = notifications w2 ++ emitted2
           /\ (forall k, k ∈ liveKeys (storedLive w) ->
                 k ∉ List.map n_id emitted2)
           /\ (forall k, k ∉ liveKeys (storedLive w) ->
                 k ∈ liveKeys (storedLive w2) ->
                 k ∈ List.map n_id emitted2).
Proof.
  assert (forall previous liveData k,
            k ∈ List.map n_id (newNotifications previous liveData)
            <-> k ∈ liveKeys liveData /\ k ∉ previous) as Hids.
  { intros previous liveData k. rewrite newNotifications_ids.
    rewrite !list_elem_of_In, List.filter_In, bool_decide_eq_true. done. }
  destruct (checkLiveChannels_run w) as (w' & Hrun & Hn & Hprev & _).
  exists w', (newNotifications (previousLiveChannels w) (storedLive w)).
  split; [done |]. split; [done |]. split; [by intros k; apply Hids |].
  split.
  { intros Hnd. rewrite newNotifications_ids. by apply NoDup_List_filter. }
  split; [done |].
  intros w2 Hprev2.
  destruct (checkLiveChannels_run w2) as (w2' & Hrun2 & Hn2 & _ & _).
  exists w2', (newNotifications (previousLiveChannels w2) (storedLive w2)).
  split; [done |]. split; [done |]. split.
  - intros k Hk Hem. apply Hids in Hem as [_ Hnot]. apply Hnot.
    rewrite Hprev2, Hprev. by apply elem_of_list_to_set.
  - intros k Hk Hk2. apply Hids. split; [done |].
    rewrite Hprev2, Hprev. by rewrite elem_of_list_to_set.
Qed.

(** C10: with no stored live state, or one whose lists are all empty or
    missing, [checkLiveChannels] returns normally, sends no notification,
    and leaves the previous set empty. *)
Theorem checkLiveChannels_nothing_live (w : World) :
  liveIsEmpty (storage_streamtime_live w) ->
  exists w',
    checkLiveChannels w = Ret tt w'
    /\ notifications w' = notifications w
    /\ previousLiveChannels w' = ∅.
Proof.
  intros Hempty. unfold liveIsEmpty in Hempty. fold (storedLive w) in Hempty.
  destruct (checkLiveChannels_run w) as (w' & Hrun & Hn & Hprev & _).
  exists w'. split; [done |]. rewrite Hn, Hprev, Hempty. split; [| done].
  assert (List.map n_id (newNotifications (previousLiveChannels w) (storedLive w))
          = []) as Hnone.
  { by rewrite newNotifications_ids, Hempty. }
  destruct (newNotifications _ _); [by rewrite app_nil_r | done].
Qed.

(** ** The poll *)

(** [loadSettings] only reads. *)
Lemma loadSettings_returns (w : World) :
  exists settings, loadSettings w = Ret settings w.
Proof. eexists. unfold loadSettings. run. reflexivity. Qed.

Lemma try_catch_settled (m : M (list Obj)) (w w' : World) (l : list Obj) :
  settled (m w) = Some (l, w') ->
  try_catch m (fun e => console_log LError (error_name e) ;; ret []) w
  = Ret l w'.
Proof.
  unfold try_catch, settled.
  destruct (m w) as [l0 w0 | e w0 |]; intros [= <- <-]; reflexivity.
Qed.

Lemma try_catch_logged_not_Thrown (m : M (list Obj)) (w w' : World)
    (e : JsError) :
  try_catch m (fun e => console_log LError (error_name e) ;; ret []) w
  <> Thrown e w'.
Proof. unfold try_catch. by destruct (m w). Qed.

Section PollFacts.
Context `{Host}.
Variables checkT checkK checkY : Obj -> M (list Obj).

(** The run of [pollAll] when the three adapters come back. *)
Lemma pollAll_with_run (w w0 w1 w2 w3 : World) (settings : Settings)
    (lt lk ly : list Obj) :
  loadSettings
    (set_console
       (console w ++ [(LLog, "[Alarm: Main Poll] Starting poll...")]) w)
  = Ret settings w0 ->
  settled (checkT (default [] (lookup_prop "twitch" settings)) w0)
  = Some (lt, w1) ->
  settled (checkK (default [] (lookup_prop "kick" settings)) w1)
  = Some (lk, w2) ->
  settled (checkY (default [] (lookup_prop "youtube" settings)) w2)
  = Some (ly, w3) ->
  pollAll_with checkT checkK checkY w
  = Ret tt
      (set_console
         (console w3
          ++ [(LLog, "[Alarm: Main Poll] Poll complete. Live channels:")])
         (set_streamtime_last_poll (Some (toISOString (now w3)))
            (set_streamtime_live
               (Some {| live_twitch := Some lt;
                        live_kick := Some lk;
                        live_youtube := Some ly |}) w3))).
Proof.
  intros Hload HT HK HY. unfold pollAll_with.
  erewrite bind_Ret by reflexivity.
  erewrite bind_Ret by exact Hload.
  erewrite bind_Ret by (apply try_catch_settled; exact HT).
  erewrite bind_Ret by (apply try_catch_settled; exact HK).
  erewrite bind_Ret by (apply try_catch_settled; exact HY).
  reflexivity.
Qed.

Lemma pollAll_with_not_Thrown (w w' : World) (e : JsError) :
  pollAll_with checkT checkK checkY w <> Thrown e w'.
Proof.
  unfold pollAll_with.
  erewrite bind_Ret by reflexivity.
  destruct (loadSettings_returns
              (set_console
                 (console w
                  ++ [(LLog, "[Alarm: Main Poll] Starting poll...")]) w))
    as [settings Hload].
  erewrite bind_Ret by exact Hload.
  unfold bind at 1.
  destruct (try_catch (checkT _) _ _) as [lt w1 | e1 w1 |] eqn:HT;
    [| by apply try_catch_logged_not_Thrown in HT | done].
  unfold bind at 1.
  destruct (try_catch (checkK _) _ _) as [lk w2 | e2 w2 |] eqn:HK;
    [| by apply try_catch_logged_not_Thrown in HK | done].
  unfold bind at 1.
  destruct (try_catch (checkY _) _ _) as [ly w3 | e3 w3 |] eqn:HY;
    [| by apply try_catch_logged_not_Thrown in HY | done].
  done.
Qed.
End PollFacts.

(** C2: whatever the three adapters do, [pollAll] does not throw; and when
    they come back, each by returning or by throwing, it returns and the
    stored live state holds, for each platform, the list its adapter
    returned, or the empty list if that adapter threw. *)
Theorem pollAll_isolates_adapter_errors `{Host}
    (checkT checkK checkY : Obj -> M (list Obj)) (w : World) :
  (forall e w', pollAll_with checkT checkK checkY w <> Thrown e w')
  /\ forall settings w0 lt w1 lk w2 ly w3,
       loadSettings
         (set_console
            (console w ++ [(LLog, "[Alarm: Main Poll] Starting poll...")]) w)
       = Ret settings w0 ->
       settled (checkT (default [] (lookup_prop "twitch" settings)) w0)
       = Some (lt, w1) ->
       settled (checkK (default [] (lookup_prop "kick" settings)) w1)
       = Some (lk, w2) ->
       settled (checkY (default [] (lookup_prop "youtube" settings)) w2)
       = Some (ly, w3) ->
       exists w',
         pollAll_with checkT checkK checkY w = Ret tt w'
         /\ storage_streamtime_live w'
            = Some {| live_twitch := Some lt;
                      live_kick := Some lk;
                      live_youtube := Some ly |}.
Proof.
  split.
  - intros e w'. apply pollAll_with_not_Thrown.
  - intros settings w0 lt w1 lk w2 ly w3 Hload HT HK HY.
    eexists. split; [by eapply pollAll_with_run |]. reflexivity.
Qed.

(** ** What the adapters return *)

Lemma returns_ret {A} (a : A) (P : A -> Prop) : P a -> returns (ret a) P.
Proof. intros HP w a' w' [= <- _]. exact HP. Qed.

Lemma returns_bind {A B} (m : M A) (k : A -> M B) (P : B -> Prop) :
  (forall a, returns (k a) P) -> returns (bind m k) P.
Proof.
  intros Hk w b w'. unfold bind.
  destruct (m w) as [a w0 | e w0 |]; [| done | done]. apply Hk.
Qed.

Lemma returns_try_catch {A} (m : M A) (h : JsError -> M A) (P : A -> Prop) :
  returns m P -> (forall e, returns (h e) P) -> returns (try_catch m h) P.
Proof.
  intros Hm Hh w a w'. unfold try_catch.
  destruct (m w) as [a0 w0 | e w0 |] eqn:Hmw; [| apply Hh | done].
  intros [= <- <-]. by eapply Hm.
Qed.

Lemma returns_throw {A} (e : JsError) (P : A -> Prop) : returns (throw e) P.
Proof. by intros w a w'. Qed.

Lemma returns_mapM {A B} (f : A -> M B) (l : list A) (P : B -> Prop) :
  (forall x, returns (f x) P) -> returns (mapM f l) (Forall P).
Proof.
  intros Hf. induction l as [| x l IH]; cbn [mapM].
  - by apply returns_ret.
  - intros w ys w'. unfold bind.
    destruct (f x w) as [y w0 | |] eqn:Hx; [| done | done].
    destruct (mapM f l w0) as [ys0 w1 | |] eqn:Hl; [| done | done].
    intros [= <- <-]. constructor; [by eapply Hf | by eapply IH].
Qed.

(** One step through the structure of a computation. *)
Ltac returns_step :=
  first
    [ apply returns_ret
    | apply returns_throw
    | apply returns_bind; intros ?
    | apply returns_try_catch; [| intros ?]
    | match goal with
      | |- returns (if ?c then _ else _) _ => destruct c
      | |- returns (match ?x with _ => _ end) _ => destruct x
      end ].

Section EntryShapes.
Context `{Host}.

Lemma twitchEntry_keys (s : JsVal) :
  returns (twitchEntry s) (fun e => Object_keys e = twitchEntryKeys).
Proof. unfold twitchEntry. repeat returns_step. reflexivity. Qed.

Lemma kickEntry_keys (ch : JsVal) :
  returns (kickEntry ch) (fun e => Object_keys e = kickEntryKeys).
Proof. unfold kickEntry. repeat returns_step. reflexivity. Qed.

Lemma youtubeEntry_keys (channelId v : JsVal) :
  returns (youtubeEntry channelId v)
          (fun e => Object_keys e = youtubeEntryKeys).
Proof. unfold youtubeEntry. repeat returns_step. reflexivity. Qed.

Lemma checkTwitch_keys (fuel : nat) (twitchSettings : Obj) :
  returns (checkTwitch fuel twitchSettings)
          (Forall (fun e => Object_keys e = twitchEntryKeys)).
Proof.
  revert twitchSettings. induction fuel as [| fuel IH]; intros twitchSettings.
  - by intros w a w'.
  - cbn [checkTwitch].
    repeat first
      [ apply IH
      | apply returns_mapM; intros ?; apply twitchEntry_keys
      | returns_step ];
      by constructor.
Qed.

Lemma checkKick_keys (fuel : nat) (kickSettings : Obj) :
  returns (checkKick fuel kickSettings)
          (Forall (fun e => Object_keys e = kickEntryKeys)).
Proof.
  revert kickSettings. induction fuel as [| fuel IH]; intros kickSettings.
  - by intros w a w'.
  - cbn [checkKick].
    repeat first
      [ apply IH
      | apply returns_mapM; intros ?; apply kickEntry_keys
      | returns_step ];
      by constructor.
Qed.

Lemma youtubeStep_keys (apiKey : JsVal) (out : list Obj) (ch : JsVal) :
  Forall (fun e => Object_keys e = youtubeEntryKeys) out ->
  returns (youtubeStep apiKey out ch)
          (Forall (fun e => Object_keys e = youtubeEntryKeys)).
Proof.
  intros Hout. unfold youtubeStep.
  apply returns_bind; intros channelId.
  destruct (negb (truthy channelId)); [by apply returns_ret |].
  apply returns_try_catch.
  - apply returns_bind; intros r.
    destruct (negb (ok r)); [by repeat returns_step |].
    apply returns_bind; intros j. apply returns_bind; intros items.
    destruct (truthy items && truthy (lengthOf items));
      [| by apply returns_ret].
    intros w a w'. unfold bind.
    destruct (youtubeEntry channelId (index0 items) w) as [e w0 | |] eqn:He;
      [| done | done].
    intros [= <- <-]. apply Forall_app. split; [done |].
    constructor; [by eapply youtubeEntry_keys | constructor].
  - intros e. by repeat returns_step.
Qed.

Lemma checkYouTube_keys (ytSettings : Obj) :
  returns (checkYouTube ytSettings)
          (Forall (fun e => Object_keys e = youtubeEntryKeys)).
Proof.
  unfold checkYouTube.
  destruct (_ || _); [by apply returns_ret |].
  apply returns_bind; intros channels.
  assert (forall out,
            Forall (fun e => Object_keys e = youtubeEntryKeys) out ->
            returns (foldM (youtubeStep (get ytSettings "clientId")) out channels)
                    (Forall (fun e => Object_keys e = youtubeEntryKeys)))
    as Hloop.
  { induction channels as [| ch channels IH]; intros out Hout; cbn [foldM].
    - by apply returns_ret.
    - intros w a w'. unfold bind.
      destruct (youtubeStep _ out ch w) as [out' w0 | |] eqn:Hstep;
        [| done | done].
      apply IH. by eapply youtubeStep_keys. }
  apply Hloop. constructor.
Qed.
End EntryShapes.

(** C6, as the specification states it, fails: the entry [checkTwitch]
    builds for a live stream has no [platformKey] (nor [displayName], nor
    [startedAt]). *)
Lemma checkTwitch_entry_not_spec_shape :
  exists w',
    checkTwitch 1 twitchSettings42 (set_net healthy (quiet t90))
    = Ret [twitchEntry42] w'
    /\ ~ Forall spec_LiveEntry_shape [twitchEntry42].
Proof.
  eexists. split; [vm_compute; reflexivity |].
  intros Hshape. apply Forall_cons in Hshape as [[Hrequired _] _].
  destruct (Hrequired "platformKey") as [v Hv]; [repeat constructor |].
  vm_compute in Hv. discriminate.
Qed.

(** C6, amended: each adapter builds entries with its own property names
    ([user_id], [id], [channelId] hold the platform's id; YouTube calls the
    uptime [duration]), and [checkLiveChannels] derives the platform key
    from the id property: [twitch-<user_id>], [kick-<id>],
    [yt-<channelId>]. *)
Theorem adapters_entry_shapes `{Host} :
  (forall fuel twitchSettings w entries w',
     checkTwitch fuel twitchSettings w = Ret entries w' ->
     Forall (fun e => Object_keys e = twitchEntryKeys) entries)
  /\ (forall fuel kickSettings w entries w',
        checkKick fuel kickSettings w = Ret entries w' ->
        Forall (fun e => Object_keys e = kickEntryKeys) entries)
  /\ (forall ytSettings w entries w',
        checkYouTube ytSettings w = Ret entries w' ->
        Forall (fun e => Object_keys e = youtubeEntryKeys) entries)
  /\ (forall twitch kick youtube,
        liveKeys {| live_twitch := Some twitch;
                    live_kick := Some kick;
                    live_youtube := Some youtube |}
        = List.map (fun e => "twitch-" +:+ toString (get e "user_id")) twitch
          ++ List.map (fun e => "kick-" +:+ toString (get e "id")) kick
          ++ List.map (fun e => "yt-" +:+ toString (get e "channelId")) youtube).
Proof.
  split; [| split; [| split]].
  - intros fuel s w entries w'. apply checkTwitch_keys.
  - intros fuel s w entries w'. apply checkKick_keys.
  - intros s w entries w'. apply checkYouTube_keys.
  - reflexivity.
Qed.

Lemma adapters_entry_shapes_witness :
  exists w',
    checkTwitch 1 twitchSettings42 (set_net healthy (quiet t90))
    = Ret [twitchEntry42] w'
    /\ Forall (fun e => Object_keys e = twitchEntryKeys) [twitchEntry42].
Proof.
  eexists. split; [vm_compute; reflexivity |].
  eapply (proj1 adapters_entry_shapes 1%nat twitchSettings42
            (set_net healthy (quiet t90))).
  vm_compute. reflexivity.
Defined.

(** C1 (the code departs from it): when the platform refuses the
    live-status request twice, [checkTwitch] and [checkKick] refresh the
    token twice and retry twice, and return what the third request
    delivers. *)
Theorem refresh_and_retry_repeats :
  (exists w',
     checkTwitch 3 twitchSettings42 (set_net (rejecting 2) (quiet t90))
     = Ret [twitchEntry42] w'
     /\ refreshes w' = 2%nat)
  /\ (exists w',
        checkKick 3 kickSettings7 (set_net (rejecting 2) (quiet t90))
        = Ret [kickEntry7] w'
        /\ refreshes w' = 2%nat).
Proof.
  split; eexists; (split; [vm_compute; reflexivity | vm_compute; reflexivity]).
Qed.

(** ** Termination of the adapters *)

Lemma grows_refl (w : World) : grows w w.
Proof. by split. Qed.

Lemma grows_trans (w1 w2 w3 : World) : grows w1 w2 -> grows w2 w3 -> grows w1 w3.
Proof. intros [Hn1 Hs1] [Hn2 Hs2]. split; [congruence | lia]. Qed.

Lemma patient_grows (n : nat) (w w' : World) :
  patient n w -> grows w w' -> patient n w'.
Proof.
  intros Hp [Hnet Hsent] i req r Hi Hr. rewrite Hnet in Hr.
  apply (Hp i req r); [lia | done].
Qed.

Lemma safe_ret {A} (n : nat) (a : A) : safe n (ret a).
Proof. intros w _. apply grows_refl. Qed.

Lemma safe_throw {A} (n : nat) (e : JsError) : safe n (@throw A e).
Proof. intros w _. apply grows_refl. Qed.

Lemma safe_bind {A B} (n : nat) (m : M A) (k : A -> M B) :
  safe n m -> (forall a, safe n (k a)) -> safe n (bind m k).
Proof.
  intros Hm Hk w Hw. unfold bind. specialize (Hm w Hw).
  destruct (m w) as [a w1 | e w1 |]; [| done | done].
  specialize (Hk a w1 (patient_grows _ _ _ Hw Hm)).
  destruct (k a w1) as [b w2 | e w2 |]; [| | done]; by eapply grows_trans.
Qed.

Lemma safe_try_catch {A} (n : nat) (m : M A) (h : JsError -> M A) :
  safe n m -> (forall e, safe n (h e)) -> safe n (try_catch m h).
Proof.
  intros Hm Hh w Hw. unfold try_catch. specialize (Hm w Hw).
  destruct (m w) as [a w1 | e w1 |]; [done | | done].
  specialize (Hh e w1 (patient_grows _ _ _ Hw Hm)).
  destruct (h e w1) as [b w2 | e' w2 |]; [| | done]; by eapply grows_trans.
Qed.

Lemma safe_reads {A} (n : nat) (f : World -> A) : safe n (reads f).
Proof. intros w _. apply grows_refl. Qed.

(** A state change that leaves the network and the requests alone. *)
Lemma safe_modify (n : nat) (f : World -> World) :
  (forall w, net (f w) = net w /\ sent (f w) = sent w) -> safe n (modify f).
Proof.
  intros Hf w _. cbn. destruct (Hf w) as [Hnet Hsent]. split; [done |].
  by rewrite Hsent.
Qed.

Lemma safe_fetch (n : nat) (req : Request) : safe n (fetch req).
Proof.
  intros w _. unfold fetch.
  destruct (net w _ _); (split; [done |]); cbn; rewrite length_app; lia.
Qed.

(** The live-status request: when it is refused the platform's patience
    is not used up yet, and what follows runs with one refusal less to
    expect. *)
Lemma safe_fetch_refusable {B} (n : nat) (req : Request) (k : Response -> M B) :
  (forall r, is401or403 r = false -> safe n (k r)) ->
  (forall r n', n = S n' -> is401or403 r = true -> safe n' (k r)) ->
  safe n (bind (fetch req) k).
Proof.
  intros Hok Hrefused w Hw. unfold bind, fetch.
  destruct (net w (length (sent w)) req) as [| r] eqn:Hnet.
  { split; [done |]. cbn. rewrite length_app. lia. }
  set (w1 := set_sent (sent w ++ [req]) w).
  assert (grows w w1) as Hgrow.
  { split; [done |]. cbn. rewrite length_app. lia. }
  destruct (is401or403 r) eqn:Hr.
  - destruct n as [| n'].
    { rewrite (Hw (length (sent w)) req r) in Hr; [done | lia | done]. }
    assert (patient n' w1) as Hw1.
    { intros i req' r' Hi Hr'. apply (Hw i req' r'); [| done].
      cbn in Hi. rewrite length_app in Hi. cbn in Hi. lia. }
    specialize (Hrefused r n' eq_refl Hr w1 Hw1).
    destruct (k r w1) as [b w2 | e w2 |]; [| | done]; by eapply grows_trans.
  - specialize (Hok r Hr w1 (patient_grows _ _ _ Hw Hgrow)).
    destruct (k r w1) as [b w2 | e w2 |]; [| | done]; by eapply grows_trans.
Qed.

Lemma safe_mapM {A B} (n : nat) (f : A -> M B) (l : list A) :
  (forall x, safe n (f x)) -> safe n (mapM f l).
Proof.
  intros Hf. induction l as [| x l IH]; cbn [mapM]; [apply safe_ret |].
  apply safe_bind; [apply Hf | intros y].
  apply safe_bind; [apply IH | intros ys]. apply safe_ret.
Qed.

Lemma safe_filterM {A} (n : nat) (f : A -> M bool) (l : list A) :
  (forall x, safe n (f x)) -> safe n (filterM f l).
Proof.
  intros Hf. induction l as [| x l IH]; cbn [filterM]; [apply safe_ret |].
  apply safe_bind; [apply Hf | intros y].
  apply safe_bind; [apply IH | intros ys]. apply safe_ret.
Qed.

(** One step through the structure of a computation without recursion. *)
Ltac safe_step :=
  first
    [ apply safe_ret
    | apply safe_throw
    | apply safe_reads
    | apply safe_fetch
    | apply safe_modify; intros ?; split; reflexivity
    | apply safe_bind; [| intros ?]
    | apply safe_try_catch; [| intros ?]
    | apply safe_mapM; intros ?
    | apply safe_filterM; intros ?
    | match goal with
      | |- safe _ (if ?c then _ else _) => destruct c
      | |- safe _ (match ?x with _ => _ end) => destruct x
      end ].

Lemma safe_console_log (n : nat) (lvl : LogLevel) (msg : string) :
  safe n (console_log lvl msg).
Proof. unfold console_log. safe_step. Qed.

Lemma safe_getProp (n : nat) (v : JsVal) (k : string) : safe n (getProp v k).
Proof. unfold getProp. repeat safe_step. Qed.

Lemma safe_json (n : nat) (r : Response) : safe n (json r).
Proof. unfold json. repeat safe_step. Qed.

Lemma safe_asArray (n : nat) (v : JsVal) : safe n (asArray v).
Proof. unfold asArray. repeat safe_step. Qed.

Lemma safe_setAccessTokenCookie (n : nat) (url name : string) (value : JsVal) :
  safe n (setAccessTokenCookie url name value).
Proof. unfold setAccessTokenCookie, Date_now. repeat safe_step. Qed.

Lemma safe_getAccessTokenCookie (n : nat) (url name : string) :
  safe n (getAccessTokenCookie url name).
Proof. unfold getAccessTokenCookie. repeat safe_step. Qed.

Lemma safe_mergeSettings (n : nat) (newData : Settings) :
  safe n (mergeSettings newData).
Proof. unfold mergeSettings. repeat safe_step. Qed.

Lemma safe_loadSettings (n : nat) : safe n loadSettings.
Proof.
  unfold loadSettings.
  repeat first [apply safe_getAccessTokenCookie | safe_step].
Qed.

(** The steps above, and the building blocks just proved. *)
Ltac safe_steps :=
  repeat first
    [ apply safe_console_log
    | apply safe_getProp
    | apply safe_json
    | apply safe_asArray
    | apply safe_setAccessTokenCookie
    | apply safe_mergeSettings
    | safe_step ].

Lemma safe_refreshTwitchToken (n : nat) (clientId clientSecret refreshToken : JsVal) :
  safe n (refreshTwitchToken clientId clientSecret refreshToken).
Proof. unfold refreshTwitchToken. safe_steps. Qed.

Lemma safe_refreshKickToken (n : nat) (clientId clientSecret refreshToken : JsVal) :
  safe n (refreshKickToken clientId clientSecret refreshToken).
Proof. unfold refreshKickToken, substring_receiver. safe_steps. Qed.

Section AdapterTermination.
Context `{Host}.

Lemma safe_computeUptime (n : nat) (v : JsVal) : safe n (computeUptime v).
Proof. unfold computeUptime, Date_now. safe_steps. Qed.

Lemma safe_twitchChannelId (n : nat) (c : JsVal) : safe n (twitchChannelId c).
Proof. unfold twitchChannelId. safe_steps. Qed.

Lemma safe_kickChannelId (n : nat) (c : JsVal) : safe n (kickChannelId c).
Proof. unfold kickChannelId. safe_steps. Qed.

Lemma safe_youtubeChannelId (n : nat) (c : JsVal) : safe n (youtubeChannelId c).
Proof. unfold youtubeChannelId. safe_steps. Qed.

Lemma safe_twitchEntry (n : nat) (s : JsVal) : safe n (twitchEntry s).
Proof.
  unfold twitchEntry. repeat first [apply safe_computeUptime | safe_steps].
Qed.

Lemma safe_kickIsLive (n : nat) (ch : JsVal) : safe n (kickIsLive ch).
Proof. unfold kickIsLive. safe_steps. Qed.

Lemma safe_kickEntry (n : nat) (ch : JsVal) : safe n (kickEntry ch).
Proof.
  unfold kickEntry. repeat first [apply safe_computeUptime | safe_steps].
Qed.

Lemma safe_youtubeEntry (n : nat) (channelId v : JsVal) :
  safe n (youtubeEntry channelId v).
Proof.
  unfold youtubeEntry. repeat first [apply safe_computeUptime | safe_steps].
Qed.

(** With fuel [S n] the Twitch check comes back on a platform that stops
    refusing after [n] more requests. *)
Lemma safe_checkTwitch (n : nat) (twitchSettings : Obj) :
  safe n (checkTwitch (S n) twitchSettings).
Proof.
  revert twitchSettings. induction n as [| n IH]; intros twitchSettings;
    cbn [checkTwitch].
  all: destruct (_ || _); [apply safe_ret |].
  all: apply safe_bind; [apply safe_asArray | intros channels].
  all: apply safe_bind;
    [apply safe_mapM; intros c; apply safe_twitchChannelId | intros ids].
  all: destruct (List.filter truthy ids) as [| id ids']; [apply safe_ret |].
  all: apply safe_try_catch; [| intros e; safe_steps].
  all: apply safe_fetch_refusable.
  - intros r ->. repeat first [apply safe_twitchEntry | safe_steps].
  - intros r n' Hn. discriminate Hn.
  - intros r ->. repeat first [apply safe_twitchEntry | safe_steps].
  - intros r n' [= <-] ->.
    apply safe_bind; [apply safe_console_log | intros _].
    apply safe_bind; [apply safe_refreshTwitchToken | intros newToken].
    destruct (truthy newToken); [apply IH | safe_steps].
Qed.

Lemma safe_checkKick (n : nat) (kickSettings : Obj) :
  safe n (checkKick (S n) kickSettings).
Proof.
  revert kickSettings. induction n as [| n IH]; intros kickSettings;
    cbn [checkKick].
  all: destruct (negb _); [apply safe_ret |].
  all: apply safe_bind; [apply safe_asArray | intros channels].
  all: apply safe_bind;
    [apply safe_mapM; intros c; apply safe_kickChannelId | intros ids].
  all: destruct (List.filter truthy ids) as [| id ids']; [apply safe_ret |].
  all: apply safe_try_catch; [| intros e; safe_steps].
  all: apply safe_fetch_refusable.
  - intros r ->.
    repeat first [apply safe_kickEntry | apply safe_kickIsLive | safe_steps].
  - intros r n' Hn. discriminate Hn.
  - intros r ->.
    repeat first [apply safe_kickEntry | apply safe_kickIsLive | safe_steps].
  - intros r n' [= <-] ->.
    apply safe_bind; [apply safe_console_log | intros _].
    apply safe_bind; [apply safe_refreshKickToken | intros newToken].
    destruct (truthy newToken); [apply IH | safe_steps].
Qed.

Lemma safe_youtubeStep (n : nat) (apiKey : JsVal) (out : list Obj) (ch : JsVal) :
  safe n (youtubeStep apiKey out ch).
Proof.
  unfold youtubeStep.
  repeat first [apply safe_youtubeChannelId | apply safe_youtubeEntry | safe_steps].
Qed.

(** The YouTube check has no retry: it always comes back. *)
Lemma safe_checkYouTube (n : nat) (ytSettings : Obj) :
  safe n (checkYouTube ytSettings).
Proof.
  unfold checkYouTube. destruct (_ || _); [apply safe_ret |].
  apply safe_bind; [unfold iterate; safe_steps | intros channels].
  generalize (@nil Obj) as out.
  induction channels as [| ch channels IH]; intros out; cbn [foldM].
  - apply safe_ret.
  - apply safe_bind; [apply safe_youtubeStep | intros out']. apply IH.
Qed.

Lemma settled_safe (n : nat) (m : M (list Obj)) (w : World) :
  safe n m -> patient n w ->
  exists l w', settled (m w) = Some (l, w') /\ patient n w'.
Proof.
  intros Hm Hw. specialize (Hm w Hw).
  destruct (m w) as [l w' | e w' |]; [| | done]; cbn.
  - exists l, w'. split; [done |]. by eapply patient_grows.
  - eexists _, _. split; [done |].
    eapply patient_grows; [exact Hw |]. destruct Hm as [Hnet Hsent].
    by split.
Qed.

(** On a platform that stops refusing after [n] more requests, [pollAll]
    with fuel [S n] returns, having stored a live state with the three
    lists and the timestamp of the write. *)
Lemma pollAll_returns (n : nat) (w : World) :
  patient n w ->
  exists w' twitch kick youtube,
    pollAll (S n) w = Ret tt w'
    /\ storage_streamtime_live w'
       = Some {| live_twitch := Some twitch;
                 live_kick := Some kick;
                 live_youtube := Some youtube |}
    /\ storage_streamtime_last_poll w' = Some (toISOString (now w')).
Proof.
  intros Hw.
  set (w0 := set_console
               (console w ++ [(LLog, "[Alarm: Main Poll] Starting poll...")]) w).
  assert (patient n w0) as Hw0.
  { eapply patient_grows; [exact Hw |]. by split. }
  destruct (loadSettings_returns w0) as [settings Hload].
  destruct (settled_safe n _ w0
              (safe_checkTwitch n (default [] (lookup_prop "twitch" settings)))
              Hw0)
    as (lt & w1 & HT & Hw1).
  destruct (settled_safe n _ w1
              (safe_checkKick n (default [] (lookup_prop "kick" settings)))
              Hw1)
    as (lk & w2 & HK & Hw2).
  destruct (settled_safe n _ w2
              (safe_checkYouTube n (default [] (lookup_prop "youtube" settings)))
              Hw2)
    as (ly & w3 & HY & Hw3).
  eexists _, lt, lk, ly. split.
  - unfold pollAll. eapply pollAll_with_run; [exact Hload | exact HT | exact HK | exact HY].
  - split; reflexivity.
Qed.
End AdapterTermination.

(** When the adapters come back, [pollAll] stores a live state made of
    their three lists and of nothing else, whatever was stored before and
    whatever the lists are (the empty ones included), and stores the time
    of the write as the last-poll timestamp.  With the adapters of the
    program this happens, given fuel [S n], on every platform that stops
    refusing the token after [n] more requests. *)
Theorem pollAll_overwrites_live_state `{Host} :
  (forall (checkT checkK checkY : Obj -> M (list Obj)) w
          settings w0 lt w1 lk w2 ly w3,
     loadSettings
       (set_console
          (console w ++ [(LLog, "[Alarm: Main Poll] Starting poll...")]) w)
     = Ret settings w0 ->
     settled (checkT (default [] (lookup_prop "twitch" settings)) w0)
     = Some (lt, w1) ->
     settled (checkK (default [] (lookup_prop "kick" settings)) w1)
     = Some (lk, w2) ->
     settled (checkY (default [] (lookup_prop "youtube" settings)) w2)
     = Some (ly, w3) ->
     exists w',
       pollAll_with checkT checkK checkY w = Ret tt w'
       /\ storage_streamtime_live w'
          = Some {| live_twitch := Some lt;
                    live_kick := Some lk;
                    live_youtube := Some ly |}
       /\ storage_streamtime_last_poll w' = Some (toISOString (now w')))
  /\ (forall n w,
        patient n w ->
        exists w' twitch kick youtube,
          pollAll (S n) w = Ret tt w'
          /\ storage_streamtime_live w'
             = Some {| live_twitch := Some twitch;
                       live_kick := Some kick;
                       live_youtube := Some youtube |}
          /\ storage_streamtime_last_poll w' = Some (toISOString (now w'))).
Proof.
  split.
  - intros checkT checkK checkY w settings w0 lt w1 lk w2 ly w3 Hload HT HK HY.
    eexists. split; [by eapply pollAll_with_run |].
    split; reflexivity.
  - intros n w. apply pollAll_returns.
Qed.

(** ** Fuel *)

Lemma within_refl {A} (o : Outcome A) : within o o.
Proof. by right. Qed.

Lemma within_bind {A B} (m : M A) (k1 k2 : A -> M B) (w : World) :
  (forall a w', within (k1 a w') (k2 a w')) ->
  within (bind m k1 w) (bind m k2 w).
Proof.
  intros Hk. unfold bind.
  destruct (m w) as [a w' | e w' |]; [apply Hk | by right | by left].
Qed.

Lemma within_try_catch {A} (m1 m2 : M A) (h : JsError -> M A) (w : World) :
  within (m1 w) (m2 w) -> within (try_catch m1 h w) (try_catch m2 h w).
Proof.
  unfold try_catch. intros [Hout | Heq].
  - left. by rewrite Hout.
  - right. by rewrite Heq.
Qed.

Section Fuel.
Context `{Host}.

(** More fuel does not change what the Twitch check does, once it has
    enough to come back. *)
Lemma checkTwitch_within (fuel : nat) (twitchSettings : Obj) (w : World) :
  within (checkTwitch fuel twitchSettings w)
         (checkTwitch (S fuel) twitchSettings w).
Proof.
  revert twitchSettings w. induction fuel as [| fuel IH]; intros s w;
    [by left |].
  remember (S fuel) as n eqn:Hn.
  cbn [checkTwitch]. rewrite Hn at 1. cbn [checkTwitch].
  destruct (_ || _); [apply within_refl |].
  apply within_bind; intros channels w1.
  apply within_bind; intros ids w2.
  destruct (List.filter truthy ids); [apply within_refl |].
  apply within_try_catch. apply within_bind; intros res w3.
  destruct (is401or403 res); [| apply within_refl].
  apply within_bind; intros _ w4. apply within_bind; intros newToken w5.
  destruct (truthy newToken); [apply IH | apply within_refl].
Qed.

Lemma checkKick_within (fuel : nat) (kickSettings : Obj) (w : World) :
  within (checkKick fuel kickSettings w) (checkKick (S fuel) kickSettings w).
Proof.
  revert kickSettings w. induction fuel as [| fuel IH]; intros s w;
    [by left |].
  remember (S fuel) as n eqn:Hn.
  cbn [checkKick]. rewrite Hn at 1. cbn [checkKick].
  destruct (negb _); [apply within_refl |].
  apply within_bind; intros channels w1.
  apply within_bind; intros ids w2.
  destruct (List.filter truthy ids); [apply within_refl |].
  apply within_try_catch. apply within_bind; intros res w3.
  destruct (is401or403 res); [| apply within_refl].
  apply within_bind; intros _ w4. apply within_bind; intros newToken w5.
  destruct (truthy newToken); [apply IH | apply within_refl].
Qed.

Lemma checkTwitch_fuel_stable (fuel extra : nat) (twitchSettings : Obj)
    (w : World) :
  checkTwitch fuel twitchSettings w <> OutOfFuel ->
  checkTwitch (fuel + extra) twitchSettings w = checkTwitch fuel twitchSettings w.
Proof.
  intros Hback. induction extra as [| extra IH].
  - by rewrite Nat.add_0_r.
  - rewrite Nat.add_succ_r.
    destruct (checkTwitch_within (fuel + extra) twitchSettings w) as [Hout | Heq].
    + rewrite IH in Hout. done.
    + by rewrite <- Heq.
Qed.
End Fuel.

(** ** A platform that never accepts the token *)

Lemma refreshTwitchToken_granted (clientId clientSecret refreshToken : JsVal)
    (w : World) :
  net w = stubborn ->
  exists w',
    refreshTwitchToken clientId clientSecret refreshToken w
    = Ret (JStr "fresh") w'
    /\ net w' = stubborn.
Proof.
  intros Hnet. unfold refreshTwitchToken. run. unfold fetch.
  cbn -[mergeSettings]. rewrite Hnet. cbn -[mergeSettings].
  unfold get. cbn -[mergeSettings]. rewrite decide_True by done.
  cbn -[mergeSettings]. rewrite mergeSettings_single.
  eexists. split; [reflexivity | exact Hnet].
Qed.

(** Every retry is refused and every refresh granted: the recursion of
    [checkTwitch] has no end, whatever the fuel. *)
Lemma checkTwitch_never_stops `{Host} (fuel : nat) (twitchSettings : Obj)
    (w : World) :
  net w = stubborn ->
  truthy (get twitchSettings "clientId") = true ->
  truthy (get twitchSettings "accessToken") = true ->
  get twitchSettings "channels" = JArr [JObj [("user_id", JStr "42")]] ->
  checkTwitch fuel twitchSettings w = OutOfFuel.
Proof.
  revert twitchSettings w.
  induction fuel as [| fuel IH]; intros s w Hnet Hid Htok Hch; [done |].
  cbn [checkTwitch]. rewrite Hid, Htok, Hch. cbn [negb orb truthy].
  erewrite bind_Ret by reflexivity.
  rewrite (bind_Ret _ _ w w [JStr "42"]) by (vm_compute; reflexivity).
  cbn [List.filter truthy String.eqb Ascii.eqb Bool.eqb negb].
  unfold try_catch.
  erewrite bind_Ret; [| unfold fetch; rewrite Hnet; reflexivity].
  cbn [is401or403 status Z.eqb Pos.eqb orb].
  erewrite bind_Ret by reflexivity.
  edestruct (refreshTwitchToken_granted (get s "clientId")
               (get s "clientSecret") (get s "refreshToken")) as (w3 & Hr & Hn3);
    [| erewrite bind_Ret by exact Hr].
  { exact Hnet. }
  cbn [truthy String.eqb negb].
  rewrite IH; [done | done | | |]; unfold get in *.
  - by rewrite lookup_set_ne.
  - by rewrite lookup_set_eq.
  - by rewrite lookup_set_ne.
Qed.

(** ... and a poll that meets such a platform never writes. *)
Lemma pollAll_never_returns (fuel : nat) : pollAll fuel stubbornWorld = OutOfFuel.
Proof.
  unfold pollAll, pollAll_with.
  erewrite bind_Ret by reflexivity.
  erewrite bind_Ret by (vm_compute; reflexivity).
  unfold bind at 1. unfold try_catch at 1.
  rewrite checkTwitch_never_stops; reflexivity.
Qed.

(** C8 (the code departs from it): an invocation of [pollAll] that meets a
    platform which refuses every token does not overwrite the stored live
    state and writes no timestamp.  The storage holds the live state and
    the timestamp of an earlier poll; the Twitch check refreshes the
    token and retries without end, so that [pollAll] comes back with no
    amount of fuel, by returning or by throwing, and never reaches its
    write.  No bound on the refusals holds of this platform. *)
Theorem pollAll_never_reaches_write `{Host} :
  storage_streamtime_live staleWorld = Some staleLive
  /\ storage_streamtime_last_poll staleWorld
     = Some "2024-01-01T00:00:00.000Z"
  /\ (forall fuel, pollAll fuel staleWorld = OutOfFuel)
  /\ (forall fuel w', pollAll fuel staleWorld <> Ret tt w')
  /\ (forall n, ~ patient n staleWorld).
Proof.
  assert (forall fuel, pollAll fuel staleWorld = OutOfFuel) as Hnever.
  { intros fuel. unfold pollAll, pollAll_with.
    erewrite bind_Ret by reflexivity.
    erewrite bind_Ret by (vm_compute; reflexivity).
    unfold bind at 1. unfold try_catch at 1.
    rewrite checkTwitch_never_stops; reflexivity. }
  split; [reflexivity |]. split; [reflexivity |]. split; [exact Hnever |].
  split.
  - intros fuel w' Hret. by rewrite Hnever in Hret.
  - intros n Hpatient.
    specialize (Hpatient (length (sent staleWorld) + n)%nat
                  (GetYouTubeSearch JUndef JUndef)
                  {| status := 401; body := None |}).
    by discriminate Hpatient; [lia |].
Qed.

(** ** The theorems at work *)

(** The Twitch adapter throws on a [null] channel entry; the Kick and
    YouTube results are stored all the same. *)
Lemma pollAll_isolates_adapter_errors_witness :
  checkTwitch 1 [("clientId", JStr "c"); ("channels", JArr [JNull]);
                 ("accessToken", JStr "tok")]
              (quiet t90)
  = Thrown TypeError (quiet t90)
  /\ exists w',
       pollAll 1 brokenTwitchWorld = Ret tt w'
       /\ storage_streamtime_live w'
          = Some {| live_twitch := Some [];
                    live_kick := Some [kickEntry7];
                    live_youtube := Some [youtubeEntryUC1] |}.
Proof.
  split; [vm_compute; reflexivity |].
  eapply (proj2 (pollAll_isolates_adapter_errors
                   (checkTwitch 1) (checkKick 1) checkYouTube brokenTwitchWorld)).
  - vm_compute. reflexivity.
  - vm_compute. reflexivity.
  - vm_compute. reflexivity.
  - vm_compute. reflexivity.
Defined.

(** Nothing is configured and every adapter returns the empty list: the
    two entries stored before are gone, and the timestamp is written. *)
Lemma pollAll_overwrites_live_state_witness :
  patient 0 dedupWorld
  /\ exists w',
    pollAll 1 dedupWorld = Ret tt w'
    /\ storage_streamtime_live w'
       = Some {| live_twitch := Some [];
                 live_kick := Some [];
                 live_youtube := Some [] |}
    /\ storage_streamtime_last_poll w' = Some (toISOString (now w')).
Proof.
  split; [intros i req r _ Hr; discriminate Hr |].
  eapply (proj1 pollAll_overwrites_live_state
            (checkTwitch 1) (checkKick 1) checkYouTube dedupWorld).
  - vm_compute. reflexivity.
  - vm_compute. reflexivity.
  - vm_compute. reflexivity.
  - vm_compute. reflexivity.
Defined.

Lemma accessToken_not_in_durable_record_witness :
  NoDup (Object_keys twitchSettings42)
  /\ exists w',
       saveSettings "twitch" twitchSettings42 mergeExampleWorld = Ret tt w'
       /\ forall p, durableField w' p "accessToken" = JUndef
                    \/ durableField w' p "accessToken"
                       = durableField mergeExampleWorld p "accessToken".
Proof.
  assert (NoDup (Object_keys twitchSettings42)) as Hnd.
  { apply (bool_decide_unpack _). vm_compute. exact I. }
  split; [exact Hnd |].
  exact (proj1 accessToken_not_in_durable_record
               "twitch" twitchSettings42 mergeExampleWorld Hnd).
Defined.

(** The de-duplication example of the specification: [twitch-1] was live
    before and stays live, [twitch-2] is new; one notification, for
    [twitch-2]. *)
Lemma checkLiveChannels_notifies_new_witness :
  exists w' emitted,
    checkLiveChannels dedupWorld = Ret tt w'
    /\ notifications w' = notifications dedupWorld ++ emitted
    /\ "twitch-2" ∈ List.map n_id emitted
    /\ "twitch-1" ∉ List.map n_id emitted.
Proof.
  destruct (checkLiveChannels_notifies_new dedupWorld)
    as (w' & emitted & Hrun & Hn & Hids & _ & _).
  exists w', emitted. split; [exact Hrun |]. split; [exact Hn |]. split.
  - apply Hids. split.
    + apply (bool_decide_unpack _). vm_compute. exact I.
    + apply (bool_decide_unpack _). vm_compute. exact I.
  - intros Hin. apply Hids in Hin as [_ Hnot]. apply Hnot.
    apply (bool_decide_unpack _). vm_compute. exact I.
Defined.

Lemma mergeSettings_frame_witness :
  exists merged w',
    mergeSettings [("twitch", [("channels", JArr [JObj [("id", JStr "42")]])])]
                  mergeExampleWorld
    = Ret merged w'
    /\ lookup_prop "kick" merged
       = Some [("clientId", JStr "k"); ("channels", JArr [])]
    /\ durableField w' "twitch" "clientId" = JStr "x"
    /\ durableField w' "twitch" "channels" = JArr [JObj [("id", JStr "42")]].
Proof.
  destruct (mergeSettings_frame
              [("twitch", [("channels", JArr [JObj [("id", JStr "42")]])])]
              mergeExampleWorld)
    as (merged & w' & Hrun & _ & Hplatform & Hkept & Hwritten).
  exists merged, w'. split; [exact Hrun |]. split; [| split].
  - exact (Hplatform "kick" eq_refl).
  - exact (Hkept "twitch" _ "clientId" eq_refl eq_refl).
  - apply (Hwritten "twitch" _ "channels" _ eq_refl); [| reflexivity].
    apply (bool_decide_unpack _). vm_compute. exact I.
Defined.

Lemma checkLiveChannels_nothing_live_witness :
  liveIsEmpty (storage_streamtime_live (quiet t90))
  /\ exists w',
       checkLiveChannels (quiet t90) = Ret tt w'
       /\ notifications w' = notifications (quiet t90)
       /\ previousLiveChannels w' = ∅.
Proof.
  split; [reflexivity |].
  apply (checkLiveChannels_nothing_live (quiet t90)). reflexivity.
Defined.

(** ** Examples *)

Example parse_epoch : Date_parse "1970-01-01T00:00:00Z" = Some 0.
Proof. reflexivity. Qed.

Example parse_2021 : Date_parse "2021-03-10T15:04:21Z" = Some 1615388661000.
Proof. reflexivity. Qed.

Example format_2021 : toISOString 1615388661042 = "2021-03-10T15:04:21.042Z".
Proof. vm_compute. reflexivity. Qed.

Example parse_format : Date_parse (toISOString 951782400123) = Some 951782400123.
Proof. vm_compute. reflexivity. Qed.

Example uptime_90_minutes :
  computeUptime (JStr "2021-03-10T15:04:21Z") (quiet t90)
  = Ret "1h 30m" (quiet t90).
Proof. vm_compute. reflexivity. Qed.

Example uptime_59_minutes :
  computeUptime (JStr "2021-03-10T15:04:21Z")
                (quiet (1615388661000 + 3599999))
  = Ret "59m" (quiet (1615388661000 + 3599999)).
Proof. vm_compute. reflexivity. Qed.

Example uptime_clock_skew :
  computeUptime (JStr "2021-03-10T15:04:21Z") (quiet 0) = Ret "0m" (quiet 0).
Proof. vm_compute. reflexivity. Qed.

Example uptime_undefined :
  computeUptime JUndef (quiet t90) = Ret "NaNm" (quiet t90).
Proof. vm_compute. reflexivity. Qed.

(** The scenario of the specification: the token is refused once, the
    refresh succeeds, the retry delivers the stream of user 42.  One
    refresh, the key [twitch-42], the new token in the cookie and not in
    the durable record. *)
Example refresh_then_success :
  match checkTwitch 2 [("clientId", JStr "c"); ("accessToken", JStr "expired");
                       ("channels", JArr [JObj [("user_id", JStr "42")]])]
                    (set_net (rejecting 1) (quiet t90)) with
  | Ret entries w' =>
      List.map twitchKey entries = ["twitch-42"]
      /\ refreshes w' = 1%nat
      /\ cookie_value <$> cookies w' !! ("https://api.twitch.tv/", "twitch_access_token")
         = Some (JStr "fresh-1")
      /\ storage_streamtime w' = Some [("twitch", [("refreshToken", JUndef)])]
  | _ => False
  end.
Proof. vm_compute. repeat split; reflexivity. Qed.

(** A refresh that fails ends the check with the empty list. *)
Example refresh_fails :
  match checkTwitch 2 twitchSettings42
          (set_net (fun _ _ => status_only 401) (quiet t90)) with
  | Ret entries w' => entries = [] /\ refreshes w' = 1%nat
  | _ => False
  end.
Proof. vm_compute. split; reflexivity. Qed.

(** The de-duplication example of the specification. *)
Example dedup_one_notification :
  match checkLiveChannels dedupWorld with
  | Ret _ w' =>
      notifications w'
      = [{| n_id := "twitch-2"; n_title := "Two is live on Twitch!";
            n_message := JStr "second" |}]
      /\ elements (previousLiveChannels w') = ["twitch-1"; "twitch-2"]
  | _ => False
  end.
Proof. vm_compute. split; reflexivity. Qed.

(** A channel configured twice in the YouTube list is reported twice, and
    notified twice under the same id. *)
Example youtube_channel_twice :
  match checkYouTube [("clientId", JStr "key");
                      ("channels", JArr [JStr "UC1"; JStr "UC1"])]
                     (set_net healthy (quiet t90)) with
  | Ret entries w' =>
      match checkLiveChannels
              (set_streamtime_live
                 (Some {| live_twitch := Some []; live_kick := Some [];
                          live_youtube := Some entries |}) w') with
      | Ret _ w'' => List.map n_id (notifications w'') = ["yt-UC1"; "yt-UC1"]
      | _ => False
      end
  | _ => False
  end.
Proof. vm_compute. reflexivity. Qed.

(** Saving from the options page: the token goes to the cookie, the rest
    to the durable record. *)
Example save_twitch :
  match saveSettings "twitch" twitchSettings42 mergeExampleWorld with
  | Ret _ w' =>
      durableField w' "twitch" "accessToken" = JUndef
      /\ durableField w' "twitch" "refreshToken" = JStr "r0"
      /\ durableField w' "kick" "clientId" = JStr "k"
      /\ cookie_value <$> cookies w' !! ("https://api.twitch.tv/", "twitch_access_token")
         = Some (JStr "expired")
  | _ => False
  end.
Proof. vm_compute. repeat split; reflexivity. Qed.

(** * The pages' functions *)

(** ** [escapeHtml] *)

Lemma list_ascii_of_string_append (a b : string) :
  String.list_ascii_of_string (a +:+ b)
  = String.list_ascii_of_string a ++ String.list_ascii_of_string b.
Proof. induction a as [| c a IH]; [done |]. cbn. by rewrite <- IH. Qed.

Lemma is_char_true (c c' : Ascii.ascii) :
  is_char c (String c' EmptyString) = true -> c = c'.
Proof. unfold is_char. intros Heq. apply String.eqb_eq in Heq. congruence. Qed.

(** The replacement of one character holds no markup character. *)
Lemma escapeChar_safe (c : Ascii.ascii) :
  forallb (fun x => negb (is_markup x))
          (String.list_ascii_of_string (escapeChar c)) = true.
Proof.
  unfold escapeChar.
  destruct (is_char c "&") eqn:H1; [reflexivity |].
  destruct (is_char c "<") eqn:H2; [reflexivity |].
  destruct (is_char c ">") eqn:H3; [reflexivity |].
  destruct (Ascii.eqb c quote_char) eqn:H4; [reflexivity |].
  destruct (is_char c "'") eqn:H5; [reflexivity |].
  cbn. unfold is_markup. by rewrite H2, H3, H4, H5.
Qed.

Lemma replaceSpecials_safe (s : string) :
  forallb (fun x => negb (is_markup x))
          (String.list_ascii_of_string (replaceSpecials s)) = true.
Proof.
  induction s as [| c s IH]; [done |]. cbn [replaceSpecials].
  rewrite list_ascii_of_string_append, forallb_app, IH, escapeChar_safe. done.
Qed.

Lemma unescape_escapeChar (c : Ascii.ascii) (t : string) :
  unescapeHtml (escapeChar c +:+ replaceSpecials t)
  = String c (unescapeHtml (replaceSpecials t)).
Proof.
  unfold escapeChar.
  destruct (is_char c "&") eqn:H1.
  { apply is_char_true in H1 as ->. reflexivity. }
  destruct (is_char c "<") eqn:H2.
  { apply is_char_true in H2 as ->. reflexivity. }
  destruct (is_char c ">") eqn:H3.
  { apply is_char_true in H3 as ->. reflexivity. }
  destruct (Ascii.eqb c quote_char) eqn:H4.
  { apply Ascii.eqb_eq in H4 as ->. reflexivity. }
  destruct (is_char c "'") eqn:H5.
  { apply is_char_true in H5 as ->. reflexivity. }
  rewrite append_String, append_empty. cbn [unescapeHtml]. by rewrite H1.
Qed.

Lemma unescape_replaceSpecials (s : string) :
  unescapeHtml (replaceSpecials s) = s.
Proof.
  induction s as [| c s IH]; [done |]. cbn [replaceSpecials].
  by rewrite unescape_escapeChar, IH.
Qed.

(** X1: [escapeHtml] changes nothing in the world; on a string, and on a
    falsy value taken as the empty string, its result holds no angle
    bracket and no quote; on any other value it throws a [TypeError]. *)
Theorem escapeHtml_no_markup (v : JsVal) (w : World) :
  match escapeHtml v w with
  | Ret out w' =>
      w' = w
      /\ forallb (fun x => negb (is_markup x))
                 (String.list_ascii_of_string out) = true
      /\ (truthy v = false \/ exists s, v = JStr s)
  | Thrown e w' =>
      e = TypeError /\ w' = w /\ truthy v = true /\ forall s, v <> JStr s
  | OutOfFuel => False
  end.
Proof.
  unfold escapeHtml, js_or.
  destruct v as [| | [|] | n | s | items | o]; cbn; try (by auto).
  - destruct (negb (n =? 0)) eqn:Hn; cbn; [by auto |].
    split; [done |]. split; [done |]. by left.
  - destruct (negb (String.eqb s EmptyString)) eqn:Hs; cbn.
    + split; [done |]. split; [apply replaceSpecials_safe |]. right. by exists s.
    + split; [done |]. split; [done |]. by left.
Qed.

(** X2: the escaped text reads back as the original: [escapeHtml] loses
    nothing, and two strings with the same escaped form are the same. *)
Theorem escapeHtml_reads_back (s t : string) (w : World) :
  (exists out, escapeHtml (JStr s) w = Ret out w /\ unescapeHtml out = s)
  /\ (escapeHtml (JStr s) w = escapeHtml (JStr t) w -> s = t).
Proof.
  assert (forall x, escapeHtml (JStr x) w = Ret (replaceSpecials x) w) as Hrun.
  { intros x. unfold escapeHtml, js_or. cbn.
    destruct (String.eqb_spec x EmptyString) as [-> | Hne]; reflexivity. }
  split.
  - exists (replaceSpecials s). split; [apply Hrun | apply unescape_replaceSpecials].
  - rewrite !Hrun. intros [= Heq].
    rewrite <- (unescape_replaceSpecials s), <- (unescape_replaceSpecials t).
    by rewrite Heq.
Qed.

(** ** [parseList] *)

Section ScanFacts.
Context {A : Type} (code : A -> N) (d : A).






Lemma dropSpaces_id (l : list A) :
  is_white (code (List.hd d l)) = false -> l <> [] -> dropSpaces code l = l.
Proof. destruct l as [| c l]; [done |]. cbn. by intros ->. Qed.


Lemma last_rev_hd (l : list A) : List.last (rev l) d = List.hd d l.
Proof. destruct l as [| c l]; [done |]. cbn. apply List.last_last. Qed.




(** *** Reading back what was joined *)

Section Joined.
Variable c : A.
Hypothesis Hc : is_comma_or_lf (code c) = true.

Lemma match_separator_inside (u rest : list A) :
  u <> [] ->
  Forall (fun x => is_comma_or_lf (code x) = false) u ->
  is_white (code (List.last u d)) = false ->
  match_separator code (u ++ rest) = None.
Proof.
  induction u as [| x u IH]; [done |]. intros _ Hsep Hlast.
  apply Forall_cons in Hsep as [Hx Hsep].
  cbn [app match_separator]. unfold separator_spaces. rewrite Hx.
  destruct u as [| y u].
  - cbn in Hlast. by rewrite Hlast.
  - rewrite IH; [by destruct (is_white (code x)) | done | done | exact Hlast].
Qed.

Lemma split_scan_inside (u rest : list A) :
  forall piece,
    u <> [] ->
    Forall (fun x => is_comma_or_lf (code x) = false) u ->
    is_white (code (List.last u d)) = false ->
    split_scan code O piece (u ++ rest)
    = split_scan code O (rev u ++ piece) rest.
Proof.
  induction u as [| x u IH]; [done |]. intros piece _ Hsep Hlast.
  cbn [app split_scan].
  change (x :: u ++ rest) with ((x :: u) ++ rest).
  rewrite match_separator_inside by done.
  apply Forall_cons in Hsep as [Hx Hsep].
  destruct u as [| y u]; [done |].
  rewrite IH by done. cbn [rev]. by rewrite <- !app_assoc.
Qed.

Lemma split_scan_at_separator (t rest piece : list A) :
  cleanList code d t ->
  split_scan code O piece (c :: t ++ rest)
  = rev piece :: split_scan code O [] (t ++ rest).
Proof.
  intros (Hne & Hsep & Hhd & Hlast). cbn [split_scan match_separator].
  rewrite match_separator_inside by done.
  unfold separator_spaces. rewrite Hc.
  assert (spaces code (t ++ rest) = O) as ->.
  { destruct t as [| x t]; [done |]. cbn in *. by rewrite Hhd. }
  by destruct (is_white (code c)).
Qed.

Lemma split_scan_joined (toks : list (list A)) :
  forall t,
    cleanList code d t -> Forall (cleanList code d) toks ->
    split_scan code O [] (t ++ flat_map (fun t' => c :: t') toks) = t :: toks.
Proof.
  induction toks as [| t2 toks IH]; intros t Ht Htoks.
  - destruct Ht as (Hne & Hsep & Hhd & Hlast).
    cbn. rewrite split_scan_inside by done. cbn.
    by rewrite app_nil_r, rev_involutive.
  - apply Forall_cons in Htoks as [Ht2 Htoks].
    pose proof Ht as (Hne & Hsep & Hhd & Hlast).
    rewrite split_scan_inside by done. cbn [flat_map app].
    rewrite app_nil_r, split_scan_at_separator by done.
    rewrite rev_involutive. f_equal. by apply IH.
Qed.

Lemma trim_clean (t : list A) : cleanList code d t -> trim code t = t.
Proof.
  intros (Hne & Hsep & Hhd & Hlast). unfold trim.
  rewrite (dropSpaces_id t) by done.
  rewrite (dropSpaces_id (rev t)), rev_involutive; [done | |].
  - by rewrite <- last_rev_hd, rev_involutive.
  - intros Hr. apply Hne. by rewrite <- (rev_involutive t), Hr.
Qed.

Lemma splitTrim_joined (t : list A) (toks : list (list A)) :
  Forall (cleanList code d) (t :: toks) ->
  splitTrim code (t ++ flat_map (fun t' => c :: t') toks) = t :: toks.
Proof.
  intros Hall. pose proof Hall as Hall'.
  apply Forall_cons in Hall' as [Ht Htoks].
  unfold splitTrim. rewrite split_scan_joined by done.
  clear Ht Htoks. induction Hall as [| x l Hx Hl IH]; [done |].
  cbn [List.map List.filter]. rewrite (trim_clean _ Hx).
  destruct Hx as (Hne & _). destruct x as [| x0 x]; [done |].
  cbn [length Nat.eqb negb]. by rewrite IH.
Qed.
End Joined.
End ScanFacts.

(** *** The characters of a string *)

Lemma continuation_high (b : Ascii.ascii) (c : N) :
  continuation b = Some c -> (128 <= Ascii.N_of_ascii b)%N.
Proof.
  unfold continuation.
  destruct (N.leb_spec 128 (Ascii.N_of_ascii b)); [done | discriminate].
Qed.

Lemma sequence_wellFormed (b : Ascii.ascii) (l : list Ascii.ascii) :
  let '(u, n) := sequence (b :: l) in
  (1 <= n <= length (b :: l))%nat /\ wellFormed (u, firstn n (b :: l)).
Proof.
  assert (forall k, (1 <= 1 <= S k)%nat
                    /\ wellFormed (Ascii.N_of_ascii b, [b])) as Halone.
  { intros k. split; [lia |]. left. by exists b. }
  unfold sequence.
  destruct l as [| b2 l2]; [by apply Halone |].
  destruct (continuation b2) as [c2 |] eqn:H2; [| by apply Halone].
  apply continuation_high in H2.
  destruct (_ && _)%N eqn:Hlead2.
  { split; [cbn; lia |]. right. split; [done |]. cbn.
    apply andb_true_iff in Hlead2 as [Hlo _]. apply N.leb_le in Hlo.
    repeat constructor; lia. }
  destruct l2 as [| b3 l3]; [by apply Halone |].
  destruct (continuation b3) as [c3 |] eqn:H3; [| by apply Halone].
  apply continuation_high in H3. cbv zeta.
  destruct (_ && _ && _)%N eqn:Hlead3.
  { split; [cbn; lia |]. right. split; [done |]. cbn.
    apply andb_true_iff in Hlead3 as [Hlead3 _].
    apply andb_true_iff in Hlead3 as [Hlo _]. apply N.leb_le in Hlo.
    repeat constructor; lia. }
  destruct l3 as [| b4 l4]; [by apply Halone |].
  destruct (continuation b4) as [c4 |] eqn:H4; [| by apply Halone].
  apply continuation_high in H4.
  destruct (_ && _ && _ && _)%N eqn:Hlead4; [| by apply Halone].
  split; [cbn; lia |]. right. split; [done |]. cbn.
  apply andb_true_iff in Hlead4 as [Hlead4 _].
  apply andb_true_iff in Hlead4 as [Hlead4 _].
  apply andb_true_iff in Hlead4 as [Hlo _]. apply N.leb_le in Hlo.
  repeat constructor; lia.
Qed.












(** *** Reading back what was joined, as a string *)

(** The bytes of the characters are the bytes of the text. *)
Lemma characters_bytes (l : list Ascii.ascii) :
  forall skip,
    (skip <= length l)%nat ->
    List.concat (List.map snd (characters skip l)) = skipn skip l.
Proof.
  induction l as [| b l IH]; intros skip Hskip; cbn [characters].
  - by destruct skip.
  - destruct skip as [| k]; [| apply IH; cbn in Hskip; lia].
    pose proof (sequence_wellFormed b l) as Hseq.
    destruct (sequence (b :: l)) as [u n]. destruct Hseq as [[Hlo Hhi] _].
    cbn [List.map snd List.concat]. rewrite IH by (cbn in Hhi; lia).
    destruct n as [| m]; [lia |]. cbn [firstn skipn Nat.sub].
    rewrite Nat.sub_0_r. cbn [app]. f_equal. apply firstn_skipn.
Qed.

(** A byte that continues no sequence ends the character before it. *)
Lemma sequence_app (l rest : list Ascii.ascii) (c : Ascii.ascii) :
  l <> [] -> continuation c = None ->
  sequence (l ++ c :: rest) = sequence l.
Proof.
  intros Hne Hc. unfold sequence.
  destruct l as [| b1 [| b2 [| b3 [| b4 l4]]]]; [done | | | |];
    cbn [app]; rewrite ?Hc;
    repeat match goal with
           | |- context [match continuation ?b with _ => _ end] =>
               destruct (continuation b); rewrite ?Hc
           | |- context [if ?t then _ else _] => destruct t
           end; reflexivity.
Qed.

Lemma characters_app (l rest : list Ascii.ascii) (c : Ascii.ascii) :
  continuation c = None ->
  forall skip,
    (skip <= length l)%nat ->
    characters skip (l ++ c :: rest)
    = characters skip l ++ characters O (c :: rest).
Proof.
  intros Hc. induction l as [| b l IH]; intros skip Hskip.
  - by destruct skip; [| cbn in Hskip; lia].
  - cbn [app characters].
    destruct skip as [| k]; [| apply IH; cbn in Hskip; lia].
    change (b :: l ++ c :: rest) with ((b :: l) ++ c :: rest).
    rewrite sequence_app by done.
    pose proof (sequence_wellFormed b l) as Hseq.
    destruct (sequence (b :: l)) as [u n]. destruct Hseq as [[Hlo Hhi] _].
    rewrite IH by (cbn in Hhi; lia).
    assert (firstn n ((b :: l) ++ c :: rest) = firstn n (b :: l)) as ->.
    { rewrite firstn_app. replace (n - length (b :: l))%nat with O by lia.
      cbn [firstn]. by rewrite app_nil_r. }
    reflexivity.
Qed.

Lemma separator_byte (c : Ascii.ascii) :
  is_separator c = true ->
  continuation c = None
  /\ is_comma_or_lf (Ascii.N_of_ascii c) = true
  /\ forall rest,
       characters O (c :: rest)
       = (Ascii.N_of_ascii c, [c]) :: characters O rest.
Proof.
  intros Hc.
  assert (c = Ascii.ascii_of_nat 44 \/ c = Ascii.ascii_of_nat 10) as [-> | ->].
  { destruct c as [[] [] [] [] [] [] [] []]; try discriminate Hc; auto. }
  - split; [done |]. split; [done |]. intros rest. cbn [characters].
    assert (sequence (Ascii.ascii_of_nat 44 :: rest) = (44%N, 1%nat)) as ->.
    { unfold sequence.
      destruct rest as [| b2 [| b3 [| b4 l4]]]; try reflexivity;
        repeat match goal with
               | |- context [match continuation ?b with _ => _ end] =>
                   destruct (continuation b)
               end; reflexivity. }
    reflexivity.
  - split; [done |]. split; [done |]. intros rest. cbn [characters].
    assert (sequence (Ascii.ascii_of_nat 10 :: rest) = (10%N, 1%nat)) as ->.
    { unfold sequence.
      destruct rest as [| b2 [| b3 [| b4 l4]]]; try reflexivity;
        repeat match goal with
               | |- context [match continuation ?b with _ => _ end] =>
                   destruct (continuation b)
               end; reflexivity. }
    reflexivity.
Qed.

Lemma cleanUnits_cleanList {A} (code : A -> N) (d : A) (l : list A) :
  cleanUnits (List.map code l) = true -> cleanList code d l.
Proof.
  unfold cleanUnits, cleanList. intros Hc.
  apply andb_true_iff in Hc as [Hc Hlast].
  apply andb_true_iff in Hc as [Hc Hhd].
  apply andb_true_iff in Hc as [Hne Hsep].
  destruct l as [| x l]; [done |]. split; [done |]. split.
  - rewrite Forall_forall. intros y Hy. apply list_elem_of_In in Hy.
    rewrite forallb_forall in Hsep.
    specialize (Hsep (code y) (in_map code _ _ Hy)).
    by destruct (is_comma_or_lf (code y)).
  - split.
    + cbn in *. by destruct (is_white (code x)).
    + destruct (exists_last (l := x :: l)) as (init & z & Heq); [done |].
      rewrite Heq in *. rewrite List.map_app in Hlast. cbn [List.map] in Hlast.
      rewrite List.last_last in *. by destruct (is_white (code z)).
Qed.

Section JoinedText.
Variable c : Ascii.ascii.
Hypothesis Hc : is_separator c = true.

Lemma concat_list_ascii (t : string) (toks : list string) :
  String.list_ascii_of_string (String.concat (String c EmptyString) (t :: toks))
  = String.list_ascii_of_string t
    ++ flat_map (fun t' => c :: t') (List.map String.list_ascii_of_string toks).
Proof.
  revert t. induction toks as [| t2 toks IH]; intros t.
  - cbn. by rewrite app_nil_r.
  - change (String.concat (String c EmptyString) (t :: t2 :: toks))
      with (t +:+ String c EmptyString
            +:+ String.concat (String c EmptyString) (t2 :: toks)).
    rewrite !list_ascii_of_string_append, IH. reflexivity.
Qed.

(** The characters of the joined text are the characters of the tokens,
    with the separator between them. *)
Lemma characters_joined (toks : list (list Ascii.ascii)) :
  forall t,
    characters O (t ++ flat_map (fun t' => c :: t') toks)
    = characters O t
      ++ flat_map (fun t' => (Ascii.N_of_ascii c, [c]) :: t')
                  (List.map (characters O) toks).
Proof.
  destruct (separator_byte c Hc) as (Hcont & _ & Hsep).
  induction toks as [| t2 toks IH]; intros t.
  - cbn. by rewrite !app_nil_r.
  - cbn [flat_map List.map]. rewrite <- app_comm_cons.
    rewrite characters_app by (done || lia). rewrite Hsep. by rewrite IH.
Qed.

Lemma text_of_characters (l : list string) :
  List.map
    (fun piece =>
       String.string_of_list_ascii (List.concat (List.map snd piece)))
    (List.map (fun t => characters O (String.list_ascii_of_string t)) l)
  = l.
Proof.
  induction l as [| t l IH]; [done |]. cbn [List.map].
  rewrite IH, characters_bytes by lia.
  change (skipn 0 (String.list_ascii_of_string t))
    with (String.list_ascii_of_string t).
  by rewrite String.string_of_list_ascii_of_string.
Qed.

Lemma parseList_joined (tokens : list string) :
  Forall (fun t => cleanUnits (units t) = true) tokens ->
  parseList (String.concat (String c EmptyString) tokens) = tokens.
Proof.
  intros Hclean. destruct tokens as [| t toks]; [done |].
  destruct (separator_byte c Hc) as (_ & Hcode & _).
  assert (Forall (cleanList fst (0%N, []))
            (List.map (fun t => characters O (String.list_ascii_of_string t))
                      (t :: toks))) as Hlists.
  { apply List.Forall_map. eapply List.Forall_impl; [| exact Hclean].
    intros x Hx. by apply cleanUnits_cleanList. }
  unfold parseList.
  assert (String.eqb (String.concat (String c EmptyString) (t :: toks))
            EmptyString = false) as ->.
  { apply String.eqb_neq. intros Heq.
    apply (f_equal String.list_ascii_of_string) in Heq.
    rewrite concat_list_ascii in Heq.
    apply Forall_cons in Hclean as [Ht _]. unfold units in Ht.
    cbn in Heq. apply app_eq_nil in Heq as [Heq _]. by rewrite Heq in Ht. }
  rewrite concat_list_ascii, characters_joined.
  rewrite List.map_map.
  cbn [List.map] in Hlists.
  rewrite (splitTrim_joined fst (0%N, []) (Ascii.N_of_ascii c, [c]) Hcode
             _ _ Hlists).
  apply (text_of_characters (t :: toks)).
Qed.
End JoinedText.

(** X4: tokens that are clean as code units (not empty, no comma or line
    feed in them, no white space of any kind at either end), joined by a
    line feed, as [loadAll] writes a stored channel list into its text
    area, or by a comma, are the tokens [parseList] reads back, in the
    same order. *)
Theorem parseList_reads_joined (c : Ascii.ascii) (tokens : list string) :
  is_separator c = true ->
  Forall (fun t => cleanUnits (units t) = true) tokens ->
  parseList (String.concat (String c EmptyString) tokens) = tokens.
Proof. intros Hc. by apply parseList_joined. Qed.

Lemma parseList_reads_joined_witness :
  parseList (String.concat (String (Ascii.ascii_of_nat 10) EmptyString)
               ["alice"; "bob b"; "café"; "carol"])
  = ["alice"; "bob b"; "café"; "carol"].
Proof.
  apply (parseList_reads_joined (Ascii.ascii_of_nat 10)).
  - reflexivity.
  - repeat constructor.
Defined.

(** ** [generateRandomString] and [base64UrlEncode] *)

Lemma length_append (a b : string) :
  String.length (a +:+ b) = (String.length a + String.length b)%nat.
Proof. induction a as [| c a IH]; [done |]. cbn. by rewrite <- IH. Qed.

Lemma charAt_in (s : string) :
  forall i, (i < String.length s)%nat ->
    exists c, charAt s i = String c EmptyString
              /\ In c (String.list_ascii_of_string s).
Proof.
  unfold charAt. induction s as [| x s IH]; intros i Hi; [cbn in Hi; lia |].
  destruct i as [| i]; cbn.
  - exists x. auto.
  - destruct (IH i) as (c & Hc & Hin); [cbn in Hi; lia |].
    exists c. split; [| by right].
    destruct (String.get i s); [done | discriminate Hc].
Qed.

Lemma generateRandomString_fold (array : list Byte.byte) :
  forall acc,
    let out :=
      fold_left
        (fun randomString b =>
           randomString
           +:+ charAt randomChars
                 (N.to_nat (Byte.to_N b) mod String.length randomChars))
        array acc in
    String.length out = (String.length acc + length array)%nat
    /\ (forallb is_unreserved (String.list_ascii_of_string acc) = true ->
        forallb is_unreserved (String.list_ascii_of_string out) = true).
Proof.
  induction array as [| b array IH]; intros acc; cbn [fold_left]; cbv zeta.
  - split; [cbn; lia | done].
  - destruct (charAt_in randomChars
                (N.to_nat (Byte.to_N b) mod String.length randomChars))
      as (c & Hc & Hin).
    { apply Nat.mod_upper_bound. by vm_compute. }
    rewrite Hc. specialize (IH (acc +:+ String c EmptyString)). cbv zeta in IH.
    destruct IH as [Hlen Hall]. split.
    + rewrite Hlen, length_append. cbn. lia.
    + intros Hacc. apply Hall.
      rewrite list_ascii_of_string_append, forallb_app, Hacc. cbn.
      rewrite andb_true_r.
      assert (forallb is_unreserved (String.list_ascii_of_string randomChars)
              = true) as Hchars by (by vm_compute).
      rewrite forallb_forall in Hchars. by apply Hchars.
Qed.

(** X5: [generateRandomString] gives one character for each random byte,
    whatever the bytes are, and each of them is an unreserved character of
    a URI: a letter, a digit, a hyphen, a period, an underscore or a
    tilde. *)
Theorem generateRandomString_unreserved (array : list Byte.byte) :
  String.length (generateRandomString array) = length array
  /\ forallb is_unreserved
       (String.list_ascii_of_string (generateRandomString array)) = true.
Proof.
  destruct (generateRandomString_fold array EmptyString) as [Hlen Hall].
  split; [exact Hlen | by apply Hall].
Qed.

Lemma replaceChar_append (x y : Ascii.ascii) (a b : string) :
  replaceChar x y (a +:+ b) = replaceChar x y a +:+ replaceChar x y b.
Proof.
  induction a as [| c a IH]; [done |]. cbn [replaceChar].
  rewrite append_String. cbn [replaceChar]. by rewrite IH, append_String.
Qed.

Lemma sextet_urlsafe (n : N) :
  (n < 64)%N ->
  exists c,
    replaceChar (Ascii.ascii_of_nat 47) (Ascii.ascii_of_nat 95)
      (replaceChar (Ascii.ascii_of_nat 43) (Ascii.ascii_of_nat 45) (sextet n))
    = String c EmptyString
    /\ is_base64url c = true.
Proof.
  intros Hn.
  assert (forallb
            (fun i =>
               match
                 replaceChar (Ascii.ascii_of_nat 47) (Ascii.ascii_of_nat 95)
                   (replaceChar (Ascii.ascii_of_nat 43) (Ascii.ascii_of_nat 45)
                      (sextet (N.of_nat i)))
               with
               | String c EmptyString => is_base64url c
               | _ => false
               end) (seq 0 64) = true) as Hall by (by vm_compute).
  rewrite forallb_forall in Hall. specialize (Hall (N.to_nat n)).
  rewrite N2Nat.id in Hall.
  destruct (replaceChar _ _ _) as [| c [| ? ?]];
    try (discriminate Hall; apply in_seq; lia).
  exists c. split; [done |]. apply Hall. apply in_seq. lia.
Qed.

Lemma stripPadding_body (body pad : string) :
  forallb is_base64url (String.list_ascii_of_string body) = true ->
  pad = EmptyString \/ pad = "=" \/ pad = "==" ->
  stripPadding (body +:+ pad) = body.
Proof.
  intros Hbody Hpad. induction body as [| c body IH].
  - rewrite append_empty. by destruct Hpad as [-> | [-> | ->]].
  - cbn in Hbody. apply andb_true_iff in Hbody as [Hc Hbody].
    rewrite append_String. cbn [stripPadding]. rewrite IH by done.
    destruct body; [| done].
    destruct (Ascii.eqb_spec c (Ascii.ascii_of_nat 61)) as [-> | _]; [| done].
    discriminate Hc.
Qed.

Lemma three_induction {A} (Q : list A -> Prop) :
  Q [] -> (forall a, Q [a]) -> (forall a b, Q [a; b]) ->
  (forall a b c l, Q l -> Q (a :: b :: c :: l)) ->
  forall l, Q l.
Proof.
  intros H0 H1 H2 H3.
  assert (forall n l, (length l <= n)%nat -> Q l) as Hall.
  { induction n as [| n IH]; intros l Hl.
    - destruct l; [done | cbn in Hl; lia].
    - destruct l as [| a [| b [| c l]]]; try done.
      apply H3. apply IH. cbn in Hl. lia. }
  intros l. by apply (Hall (length l)).
Qed.

Ltac sextet_bound := zify; Z.to_euclidean_division_equations; lia.

Lemma btoa_urlsafe (bytes : list Byte.byte) :
  exists body pad,
    replaceChar (Ascii.ascii_of_nat 47) (Ascii.ascii_of_nat 95)
      (replaceChar (Ascii.ascii_of_nat 43) (Ascii.ascii_of_nat 45)
         (btoa bytes))
    = body +:+ pad
    /\ forallb is_base64url (String.list_ascii_of_string body) = true
    /\ (pad = EmptyString \/ pad = "=" \/ pad = "==")
    /\ String.length body = ((4 * length bytes + 2) / 3)%nat.
Proof.
  induction bytes as [| a | a b | a b c rest IH] using three_induction.
  - exists EmptyString, EmptyString. by auto.
  - pose proof (Byte.to_N_bounded a) as Ha.
    cbn [btoa]. cbv zeta. rewrite !replaceChar_append.
    destruct (sextet_urlsafe (Byte.to_N a / 4)) as (c1 & -> & H1); [sextet_bound |].
    destruct (sextet_urlsafe (Byte.to_N a mod 4 * 16)) as (c2 & -> & H2); [sextet_bound |].
    exists (String c1 (String c2 EmptyString)), "==".
    split; [reflexivity |]. cbn. rewrite H1, H2. by auto.
  - pose proof (Byte.to_N_bounded a) as Ha.
    pose proof (Byte.to_N_bounded b) as Hb.
    cbn [btoa]. cbv zeta. rewrite !replaceChar_append.
    destruct (sextet_urlsafe (Byte.to_N a / 4)) as (c1 & -> & H1); [sextet_bound |].
    destruct (sextet_urlsafe (Byte.to_N a mod 4 * 16 + Byte.to_N b / 16))
      as (c2 & -> & H2); [sextet_bound |].
    destruct (sextet_urlsafe (Byte.to_N b mod 16 * 4)) as (c3 & -> & H3); [sextet_bound |].
    exists (String c1 (String c2 (String c3 EmptyString))), "=".
    split; [reflexivity |]. cbn. rewrite H1, H2, H3. by auto.
  - pose proof (Byte.to_N_bounded a) as Ha.
    pose proof (Byte.to_N_bounded b) as Hb.
    pose proof (Byte.to_N_bounded c) as Hc.
    destruct IH as (body & pad & Henc & Hbody & Hpad & Hlen).
    cbn [btoa]. cbv zeta. rewrite !replaceChar_append, Henc.
    destruct (sextet_urlsafe (Byte.to_N a / 4)) as (c1 & -> & H1); [sextet_bound |].
    destruct (sextet_urlsafe (Byte.to_N a mod 4 * 16 + Byte.to_N b / 16))
      as (c2 & -> & H2); [sextet_bound |].
    destruct (sextet_urlsafe (Byte.to_N b mod 16 * 4 + Byte.to_N c / 64))
      as (c3 & -> & H3); [sextet_bound |].
    destruct (sextet_urlsafe (Byte.to_N c mod 64)) as (c4 & -> & H4); [sextet_bound |].
    exists (String c1 (String c2 (String c3 (String c4 body)))), pad.
    split; [by rewrite !append_String, !append_empty |].
    split; [cbn; by rewrite H1, H2, H3, H4 |].
    split; [done |]. cbn [String.length length]. rewrite Hlen.
    replace (4 * S (S (S (length rest))) + 2)%nat
      with (4 * length rest + 2 + 4 * 3)%nat by lia.
    rewrite Nat.div_add by lia. lia.
Qed.

(** X6: [base64UrlEncode] gives letters, digits, hyphens and underscores
    only, no plus, slash or equals sign, and as many of them as the bytes
    need without padding: four for every three bytes, rounded up; 43 for
    the 32 bytes of a SHA-256 digest. *)
Theorem base64UrlEncode_urlsafe (buffer : list Byte.byte) :
  forallb is_base64url
    (String.list_ascii_of_string (base64UrlEncode buffer)) = true
  /\ String.length (base64UrlEncode buffer)
     = ((4 * length buffer + 2) / 3)%nat.
Proof.
  unfold base64UrlEncode.
  destruct (btoa_urlsafe buffer) as (body & pad & -> & Hbody & Hpad & Hlen).
  by rewrite stripPadding_body.
Qed.

(** ** The conversions of the options page *)

Lemma P_bind_run {A B} (m : P A) (k : A -> P B) (p : Page) :
  (m ≫= k) p
  = match m p with
    | PRet a p' => k a p'
    | PThrown e p' => PThrown e p'
    end.
Proof. reflexivity. Qed.

Lemma page_json_frame (r : Response) (p : Page) :
  match page_json r p with PRet _ q | PThrown _ q => q = p end.
Proof. unfold page_json. by destruct (body r). Qed.

Lemma page_prop_frame (v : JsVal) (k : string) (p : Page) :
  match page_prop v k p with PRet _ q | PThrown _ q => q = p end.
Proof. by destruct v. Qed.

Lemma page_iterate_frame (v : JsVal) (p : Page) :
  match page_iterate v p with PRet _ q | PThrown _ q => q = p end.
Proof. by destruct v. Qed.

(** *** [twitchConvert] *)

Lemma sliceLoop_concat (usernames : list string) :
  forall turns i,
    (length usernames <= i + turns)%nat ->
    List.concat (sliceLoop turns i usernames) = skipn i usernames.
Proof.
  induction turns as [| turns IH]; intros i Hi; cbn [sliceLoop].
  - rewrite skipn_all2 by lia. done.
  - destruct (Nat.ltb_spec i (length usernames)) as [Hlt | Hge].
    + cbn [List.concat]. rewrite IH by lia.
      rewrite (Nat.add_comm i 100), <- skipn_skipn.
      apply firstn_skipn.
    + rewrite skipn_all2 by lia. done.
Qed.

Lemma sliceLoop_sizes (usernames : list string) :
  forall turns i,
    Forall (fun chunk => (1 <= length chunk <= 100)%nat)
           (sliceLoop turns i usernames).
Proof.
  induction turns as [| turns IH]; intros i; cbn [sliceLoop]; [constructor |].
  destruct (Nat.ltb_spec i (length usernames)) as [Hlt | Hge]; [| constructor].
  constructor; [| apply IH].
  rewrite length_firstn, length_skipn. lia.
Qed.

Lemma twitchLookup_requests (clientId accessToken : string)
    (chunks : list (list string)) :
  forall results p,
    match twitchLookup clientId accessToken chunks results p with
    | PRet users p' =>
        page_sent p'
        = page_sent p ++ List.map (GetTwitchUsers clientId accessToken) chunks
        /\ exists lists,
             Forall2 (fun reply l => twitchUsers reply = Some l)
                     (twitchReplies (page_net p) clientId accessToken
                                    (length (page_sent p)) chunks)
                     lists
             /\ users = results ++ List.concat lists
    | PThrown _ p' =>
        exists init last rest,
          chunks = init ++ last :: rest
          /\ page_sent p'
             = page_sent p
               ++ List.map (GetTwitchUsers clientId accessToken)
                           (init ++ [last])
          /\ Forall (fun reply => twitchUsers reply <> None)
                    (twitchReplies (page_net p) clientId accessToken
                                   (length (page_sent p)) init)
          /\ twitchUsers
               (page_net p (length (page_sent p) + length init)
                  (GetTwitchUsers clientId accessToken last)) = None
    end.
Proof.
  induction chunks as [| chunk chunks IH]; intros results p.
  - cbn. rewrite !app_nil_r. split; [done |]. exists []. split; [constructor |].
    by rewrite app_nil_r.
  - cbn [twitchLookup]. rewrite P_bind_run. unfold page_fetch.
    set (p1 := {| page_net := page_net p;
                  page_sent := page_sent p ++ [GetTwitchUsers clientId accessToken chunk];
                  page_console := page_console p |}).
    set (reply := page_net p (length (page_sent p))
                    (GetTwitchUsers clientId accessToken chunk)).
    assert (twitchUsers reply = None ->
            exists init last rest,
              chunk :: chunks = init ++ last :: rest
              /\ page_sent p1
                 = page_sent p
                   ++ List.map (GetTwitchUsers clientId accessToken)
                               (init ++ [last])
              /\ Forall (fun reply => twitchUsers reply <> None)
                        (twitchReplies (page_net p) clientId accessToken
                                       (length (page_sent p)) init)
              /\ twitchUsers
                   (page_net p (length (page_sent p) + length init)
                      (GetTwitchUsers clientId accessToken last)) = None)
      as Hstop.
    { intros Hnone. exists [], chunk, chunks. cbn [app length List.map].
      rewrite Nat.add_0_r. split; [done |]. split; [done |].
      split; [constructor | exact Hnone]. }
    assert (forall items,
               twitchUsers reply = Some items ->
               match twitchLookup clientId accessToken chunks
                       (results ++ items) p1 with
               | PRet users p' =>
                   page_sent p'
                   = page_sent p
                     ++ List.map (GetTwitchUsers clientId accessToken)
                                 (chunk :: chunks)
                   /\ exists lists,
                        Forall2 (fun reply l => twitchUsers reply = Some l)
                                (twitchReplies (page_net p) clientId
                                   accessToken (length (page_sent p))
                                   (chunk :: chunks))
                                lists
                        /\ users = results ++ List.concat lists
               | PThrown _ p' =>
                   exists init last rest,
                     chunk :: chunks = init ++ last :: rest
                     /\ page_sent p'
                        = page_sent p
                          ++ List.map (GetTwitchUsers clientId accessToken)
                                      (init ++ [last])
                     /\ Forall (fun reply => twitchUsers reply <> None)
                               (twitchReplies (page_net p) clientId
                                  accessToken (length (page_sent p)) init)
                     /\ twitchUsers
                          (page_net p (length (page_sent p) + length init)
                             (GetTwitchUsers clientId accessToken last))
                        = None
               end) as Hgo.
    { intros items Hitems. specialize (IH (results ++ items) p1).
      assert (length (page_sent p1) = S (length (page_sent p))) as Hlen.
      { cbn. rewrite length_app. cbn. lia. }
      rewrite Hlen in IH. change (page_net p1) with (page_net p) in IH.
      destruct (twitchLookup clientId accessToken chunks (results ++ items) p1)
        as [users p' | e p'].
      - destruct IH as (Hsent & lists & Hlists & ->). split.
        + rewrite Hsent. cbn. by rewrite <- app_assoc.
        + exists (items :: lists). split.
          * cbn [twitchReplies]. by constructor.
          * cbn. by rewrite app_assoc.
      - destruct IH as (init & last & rest & -> & Hsent & Hinit & Hlast).
        exists (chunk :: init), last, rest. split; [done |]. split.
        + rewrite Hsent. cbn. by rewrite <- app_assoc.
        + split.
          * cbn [twitchReplies]. constructor; [| exact Hinit].
            fold reply. by rewrite Hitems.
          * cbn [length]. by rewrite Nat.add_succ_r. }
    clearbody reply. destruct reply as [| res]; [by apply Hstop |].
    cbn [twitchUsers] in Hstop, Hgo.
    destruct (ok res); cbn [negb]; [| by apply Hstop].
    rewrite P_bind_run. unfold page_json.
    destruct (body res) as [j |]; [| by apply Hstop].
    destruct j as [| | b | n | s | items | o]; cbn;
      try (by apply Hstop); try (by apply (Hgo [])).
    rewrite P_bind_run. unfold mret at 1, P_ret at 1. rewrite P_bind_run.
    destruct (js_or (get o "data") (JArr [])) as [| | b | n | s | items | o'];
      cbn; try (by apply Hstop); by apply Hgo.
Qed.

(** X7: [twitchConvert] asks for the names in their order, one request
    for each hundred of them and one for what is left, and no request holds
    more than a hundred names.  When it returns, the requests it sent hold
    all the names, every one of them was answered, and it returns the users
    of the answers, in their order.  When it throws, it has stopped at the
    request that failed: the one sent last, and the only one without an
    answer to read.  It throws before any request exactly when there are
    names to convert and the client id or the access token is empty; so it
    returns only without names or with both credentials. *)
Theorem twitchConvert_requests (usernames : list string)
    (clientId accessToken : string) (p : Page) :
  (exists asked rest,
    List.concat (asked ++ rest) = usernames
    /\ Forall (fun chunk => (1 <= length chunk <= 100)%nat) (asked ++ rest)
    /\ match twitchConvert usernames clientId accessToken p with
       | PRet users p' =>
           rest = []
           /\ page_sent p'
              = page_sent p
                ++ List.map (GetTwitchUsers clientId accessToken) asked
           /\ (usernames = []
               \/ (clientId <> EmptyString /\ accessToken <> EmptyString))
           /\ exists lists,
                Forall2 (fun reply l => twitchUsers reply = Some l)
                        (twitchReplies (page_net p) clientId accessToken
                                       (length (page_sent p)) asked)
                        lists
                /\ users = List.concat lists
       | PThrown _ p' =>
           page_sent p'
           = page_sent p
             ++ List.map (GetTwitchUsers clientId accessToken) asked
           /\ (asked = [] <->
               usernames <> []
               /\ (clientId = EmptyString \/ accessToken = EmptyString))
           /\ usernames <> []
           /\ forall init last,
                asked = init ++ [last] ->
                Forall (fun reply => twitchUsers reply <> None)
                       (twitchReplies (page_net p) clientId accessToken
                                      (length (page_sent p)) init)
                /\ twitchUsers
                     (page_net p (length (page_sent p) + length init)
                        (GetTwitchUsers clientId accessToken last)) = None
       end)
  /\ ((exists e p',
         twitchConvert usernames clientId accessToken p = PThrown e p'
         /\ page_sent p' = page_sent p)
      <-> usernames <> []
          /\ (clientId = EmptyString \/ accessToken = EmptyString)).
Proof.
  pose proof (sliceLoop_concat usernames (length usernames) 0 ltac:(lia))
    as Hconcat.
  pose proof (sliceLoop_sizes usernames (length usernames) 0) as Hsizes.
  cbn [skipn] in Hconcat.
  unfold twitchConvert. destruct usernames as [| u usernames].
  { split.
    - exists [], []. cbn. rewrite app_nil_r.
      split; [done |]. split; [constructor |]. split; [done |].
      split; [done |]. split; [by left |]. exists []. by split; [constructor |].
    - split; [intros (e & p' & [=] & _) | intros ([] & _); done]. }
  set (chunks := sliceLoop (length (u :: usernames)) 0 (u :: usernames)) in *.
  destruct (String.eqb_spec clientId EmptyString) as [Hcid | Hcid]; cbn [orb].
  { split.
    - exists [], chunks. cbn [app List.map]. rewrite app_nil_r.
      split; [exact Hconcat |]. split; [exact Hsizes |]. split; [done |].
      split; [split; [intros _; split; [done | by left] | done] |]. split; [done |].
      intros init last Heq. by destruct init.
    - split; [intros _; split; [done | by left] |].
      intros _. by eexists _, p. }
  destruct (String.eqb_spec accessToken EmptyString) as [Htok | Htok].
  { split.
    - exists [], chunks. cbn [app List.map]. rewrite app_nil_r.
      split; [exact Hconcat |]. split; [exact Hsizes |]. split; [done |].
      split; [split; [intros _; split; [done | by right] | done] |]. split; [done |].
      intros init last Heq. by destruct init.
    - split; [intros _; split; [done | by right] |].
      intros _. by eexists _, p. }
  pose proof (twitchLookup_requests clientId accessToken chunks [] p) as Hreq.
  assert (chunks <> []) as Hchunks.
  { intros Hnil. rewrite Hnil in Hconcat. discriminate Hconcat. }
  destruct (twitchLookup clientId accessToken chunks [] p) as [r p' | e p'].
  - split.
    + destruct Hreq as (Hsent & lists & Hlists & ->).
      exists chunks, []. rewrite app_nil_r.
      split; [done |]. split; [done |]. split; [done |]. split; [done |].
      split; [by right |]. by exists lists.
    + split; [intros (e & q & [=] & _) | intros (_ & [? | ?]); done].
  - destruct Hreq as (init & last & rest & Heq & Hsent & Hinit & Hlast).
    split.
    + exists (init ++ [last]), rest. rewrite <- app_assoc. cbn [app].
      rewrite <- Heq.
      split; [done |]. split; [done |]. split; [done |]. split.
      { split; [by destruct init | intros (_ & [? | ?]); done]. }
      split; [done |]. intros init' last' Heq'.
      apply app_inj_tail in Heq' as [<- <-]. by split.
    + split; [| intros (_ & [? | ?]); done].
      intros (e' & q & [= <- <-] & Hq). rewrite Hsent in Hq.
      rewrite <- (app_nil_r (page_sent p)) in Hq at 2.
      apply app_inv_head in Hq. by destruct init.
Qed.

(** *** [kickConvert] *)

Lemma sameValueZero_eq (a b : JsVal) : sameValueZero a b = true -> a = b.
Proof.
  destruct a, b; cbn; try done.
  - intros Hb. apply Bool.eqb_prop in Hb. by subst.
  - intros Hn. apply Z.eqb_eq in Hn. by subst.
  - intros Hs. apply String.eqb_eq in Hs. by subst.
Qed.

Lemma keyCount_Map_set (s : string) (k : JsVal) (v : Obj)
    (m : list (JsVal * Obj)) :
  keyCount s (Map_set k v m)
  = if sameValueZero k (JStr s) then Nat.max 1 (keyCount s m)
    else keyCount s m.
Proof.
  unfold keyCount. induction m as [| [k' v'] m IH]; cbn [Map_set].
  - cbn [List.filter fst]. by destruct (sameValueZero k (JStr s)).
  - destruct (sameValueZero k' k) eqn:Hk.
    + apply sameValueZero_eq in Hk as ->. cbn [List.filter fst].
      destruct (sameValueZero k (JStr s)); cbn [length]; lia.
    + cbn [List.filter fst].
      destruct (sameValueZero k' (JStr s)) eqn:Hk'; cbn [length]; rewrite IH;
        destruct (sameValueZero k (JStr s)) eqn:Hks; try lia.
      apply sameValueZero_eq in Hk' as ->. apply sameValueZero_eq in Hks as ->.
      cbn in Hk. by rewrite String.eqb_refl in Hk.
Qed.

Lemma Map_set_slugs (k : JsVal) (v : Obj) (m : list (JsVal * Obj)) :
  get v "slug" = k ->
  Forall (fun kv => get kv.2 "slug" = kv.1) m ->
  Forall (fun kv => get kv.2 "slug" = kv.1) (Map_set k v m).
Proof.
  intros Hv. induction 1 as [| [k' v'] m Hkv Hm IH]; cbn [Map_set].
  - by repeat constructor.
  - destruct (sameValueZero k' k) eqn:Hk.
    + apply sameValueZero_eq in Hk as ->. by constructor.
    + by constructor.
Qed.

Lemma Map_set_slugMap (k : JsVal) (v : Obj) (m : list (JsVal * Obj)) :
  get v "slug" = k -> slugMap m -> slugMap (Map_set k v m).
Proof.
  intros Hv [Hslugs Hcount]. split; [by apply Map_set_slugs |].
  intros s. rewrite keyCount_Map_set. specialize (Hcount s).
  destruct (sameValueZero k (JStr s)); lia.
Qed.

Lemma Map_set_values (Q : Obj -> Prop) (k : JsVal) (v : Obj)
    (m : list (JsVal * Obj)) :
  Q v -> Forall Q (List.map snd m) -> Forall Q (List.map snd (Map_set k v m)).
Proof.
  intros Hv. induction m as [| [k' v'] m IH]; cbn [Map_set List.map]; intros Hm.
  - by repeat constructor.
  - apply Forall_cons in Hm as [Hv' Hm].
    destruct (sameValueZero k' k); cbn [List.map]; constructor; auto.
Qed.

Lemma Map_new_fold (slugs : list string) :
  forall m,
    slugMap m ->
    let m' :=
      fold_left (fun m kv => Map_set kv.1 kv.2 m)
        (List.map (fun s => (JStr s, [("slug", JStr s); ("id", JNull)])) slugs)
        m in
    slugMap m'
    /\ (forall s, (1 <= keyCount s m)%nat \/ In s slugs ->
                  (1 <= keyCount s m')%nat)
    /\ (forall Q : Obj -> Prop,
           (forall s, In s slugs -> Q [("slug", JStr s); ("id", JNull)]) ->
           Forall Q (List.map snd m) -> Forall Q (List.map snd m')).
Proof.
  induction slugs as [| x slugs IH]; intros m Hm; cbn [List.map fold_left].
  - split; [done |]. split; [| done]. intros s [Hs | []]. done.
  - cbn [fst snd].
    destruct (IH (Map_set (JStr x) [("slug", JStr x); ("id", JNull)] m))
      as (Hmap & Hcover & Hvalues).
    { by apply Map_set_slugMap. }
    split; [exact Hmap |]. split.
    + intros s Hs. apply Hcover. rewrite keyCount_Map_set.
      destruct Hs as [Hs | [-> | Hs]].
      * left. destruct (sameValueZero _ _); lia.
      * left. cbn. rewrite String.eqb_refl. lia.
      * by right.
    + intros Q HQ Hm'. apply Hvalues.
      * intros s Hs. apply HQ. by right.
      * apply Map_set_values; [| done]. apply HQ. by left.
Qed.

Lemma kickRecord_run (channels : list JsVal) :
  forall m p,
    exists m' thrown p',
      kickRecord channels m p = PRet (m', thrown) p'
      /\ page_sent p' = page_sent p
      /\ (slugMap m -> slugMap m')
      /\ (forall s, (1 <= keyCount s m)%nat -> (1 <= keyCount s m')%nat).
Proof.
  induction channels as [| ch channels IH]; intros m p; cbn [kickRecord].
  - by exists m, None, p.
  - assert (exists m' thrown p',
               (mret (m, Some (Native TypeError))
                : P (list (JsVal * Obj) * option PageError)) p
               = PRet (m', thrown) p'
               /\ page_sent p' = page_sent p
               /\ (slugMap m -> slugMap m')
               /\ (forall s, (1 <= keyCount s m)%nat ->
                             (1 <= keyCount s m')%nat)) as Hnull.
    { by exists m, (Some (Native TypeError)), p. }
    assert (forall o,
               let ch := JObj o in
               exists m' thrown p',
                 (if truthy (getPropOpt ch "slug")
                     && truthy (getPropOpt ch "broadcaster_user_id")
                  then
                    kickRecord channels
                      (Map_set (getPropOpt ch "slug")
                         [("slug", getPropOpt ch "slug");
                          ("id", getPropOpt ch "broadcaster_user_id");
                          ("user_id", getPropOpt ch "broadcaster_user_id");
                          ("name", js_or (getPropOpt ch "name")
                                         (getPropOpt ch "slug"))] m)
                  else
                    page_log LWarn
                      "[Kick Convert] Found channel object but missing slug or ID:"
                    ≫= λ _ : (), kickRecord channels m) p
                 = PRet (m', thrown) p'
                 /\ page_sent p' = page_sent p
                 /\ (slugMap m -> slugMap m')
                 /\ (forall s, (1 <= keyCount s m)%nat ->
                               (1 <= keyCount s m')%nat)) as Hobj.
    { intros o ch'. destruct (truthy _ && truthy _).
      - edestruct IH as (m' & thrown & p' & -> & Hsent & Hmap & Hcover).
        exists m', thrown, p'. split; [done |]. split; [exact Hsent |]. split.
        + intros Hm. apply Hmap. by apply Map_set_slugMap.
        + intros s Hs. apply Hcover. rewrite keyCount_Map_set.
          destruct (sameValueZero _ _); lia.
      - rewrite P_bind_run. cbn [page_log].
        edestruct IH as (m' & thrown & p' & -> & Hsent & Hmap & Hcover).
        exists m', thrown, p'. by auto. }
    assert (exists m' thrown p',
               (page_log LWarn
                  "[Kick Convert] Found channel object but missing slug or ID:"
                ≫= λ _ : (), kickRecord channels m) p
               = PRet (m', thrown) p'
               /\ page_sent p' = page_sent p
               /\ (slugMap m -> slugMap m')
               /\ (forall s, (1 <= keyCount s m)%nat ->
                             (1 <= keyCount s m')%nat)) as Hother.
    { rewrite P_bind_run. cbn [page_log].
      edestruct IH as (m' & thrown & p' & -> & Hsent & Hmap & Hcover).
      exists m', thrown, p'. by auto. }
    destruct ch as [| | b | n | s | items | o]; try exact Hnull;
      try exact Hother. apply Hobj.
Qed.

Lemma kickBatch_run (authorization : option string) (slugs : list string)
    (m : list (JsVal * Obj)) (p : Page) :
  exists m' p',
    kickBatch authorization slugs m p = PRet m' p'
    /\ page_sent p' = page_sent p ++ [GetKickChannelsBySlug authorization slugs]
    /\ (slugMap m -> slugMap m')
    /\ (forall s, (1 <= keyCount s m)%nat -> (1 <= keyCount s m')%nat)
    /\ (gives_nothing
          (page_net p (length (page_sent p))
             (GetKickChannelsBySlug authorization slugs)) -> m' = m).
Proof.
  unfold kickBatch, page_try. rewrite P_bind_run. cbn [page_log].
  rewrite P_bind_run. unfold page_fetch. cbn [page_net page_sent page_console].
  destruct (page_net p (length (page_sent p)) _) as [| res].
  { eexists _, _. split; [reflexivity |]. cbn. by auto. }
  destruct (ok res) eqn:Hok; cbn [negb].
  2: { eexists _, _. split; [reflexivity |]. cbn. by auto. }
  rewrite P_bind_run. unfold page_json.
  destruct (body res) as [j |] eqn:Hbody.
  2: { eexists _, _. split; [reflexivity |]. cbn. by auto. }
  cbn [mret P_ret]. rewrite P_bind_run.
  match goal with |- context [page_prop j "data" ?q] =>
    pose proof (page_prop_frame j "data" q) as Hprop;
    destruct (page_prop j "data" q) as [data q' | e q']; subst q'
  end.
  2: { eexists _, _. split; [reflexivity |]. cbn.
       split; [done |]. split; [done |]. split; [done |].
       intros [? | ?]; congruence. }
  rewrite P_bind_run.
  match goal with |- context [page_iterate ?v ?q] =>
    pose proof (page_iterate_frame v q) as Hit;
    destruct (page_iterate v q) as [channels q' | e q']; subst q'
  end.
  2: { eexists _, _. split; [reflexivity |]. cbn.
       split; [done |]. split; [done |]. split; [done |].
       intros [? | ?]; congruence. }
  rewrite P_bind_run.
  match goal with |- context [kickRecord channels m ?q] =>
    destruct (kickRecord_run channels m q)
      as (m' & thrown & p' & -> & Hsent & Hmap & Hcover)
  end.
  cbn in Hsent.
  destruct thrown as [e |]; rewrite P_bind_run; cbn [page_log mret P_ret];
    (eexists _, _; split; [reflexivity |]; cbn [page_sent];
     split; [exact Hsent |]; split; [exact Hmap |]; split; [exact Hcover |];
     intros [? | ?]; congruence).
Qed.

Lemma slugCount_keyCount (s : string) (m : list (JsVal * Obj)) :
  Forall (fun kv => get kv.2 "slug" = kv.1) m ->
  slugCount s (List.map snd m) = keyCount s m.
Proof.
  unfold slugCount, keyCount.
  induction 1 as [| [k v] m Hkv Hm IH]; [done |]. cbn in *.
  rewrite Hkv. destruct (sameValueZero k (JStr s)); cbn; by rewrite IH.
Qed.

Lemma kickConvert_run (slugs : list string) (accessToken : string) (p : Page) :
  slugs <> [] ->
  exists m' p',
    kickConvert slugs accessToken p = PRet (List.map snd m') p'
    /\ page_sent p'
       = page_sent p
         ++ [GetKickChannelsBySlug (kickAuthorization accessToken) slugs]
    /\ slugMap m'
    /\ (forall s, In s slugs -> (1 <= keyCount s m')%nat)
    /\ (gives_nothing
          (page_net p (length (page_sent p))
             (GetKickChannelsBySlug (kickAuthorization accessToken) slugs)) ->
        Forall (fun o => exists s, In s slugs
                                   /\ o = [("slug", JStr s); ("id", JNull)])
               (List.map snd m')).
Proof.
  intros Hne. unfold kickConvert. destruct slugs as [| x slugs]; [done |].
  set (m0 := Map_new _).
  destruct (Map_new_fold (x :: slugs) []) as (Hmap0 & Hcover0 & Hvalues0).
  { split; [constructor |]. intros s. cbn. lia. }
  fold (Map_new (List.map (fun s => (JStr s, [("slug", JStr s); ("id", JNull)]))
                          (x :: slugs))) in Hmap0, Hcover0, Hvalues0.
  fold m0 in Hmap0, Hcover0, Hvalues0.
  rewrite P_bind_run.
  set (p1 := match (if String.eqb accessToken EmptyString then mret ()
                    else page_log LLog "Kick has an access token! Yay!") p with
             | PRet _ q | PThrown _ q => q end).
  assert ((if String.eqb accessToken EmptyString then mret ()
           else page_log LLog "Kick has an access token! Yay!") p = PRet tt p1
          /\ page_sent p1 = page_sent p /\ page_net p1 = page_net p)
    as (-> & Hsent1 & Hnet1).
  { subst p1. by destruct (String.eqb accessToken EmptyString). }
  rewrite P_bind_run.
  destruct (kickBatch_run (kickAuthorization accessToken) (x :: slugs) m0 p1)
    as (m' & p' & -> & Hsent & Hmap & Hcover & Hnothing).
  exists m', p'. split; [reflexivity |].
  split; [by rewrite Hsent, Hsent1 |]. split; [by apply Hmap |].
  split; [intros s Hs; apply Hcover, Hcover0; by right |].
  rewrite <- Hsent1, <- Hnet1. intros Hfail. rewrite (Hnothing Hfail).
  apply Hvalues0; [| constructor]. intros s Hs. by exists s.
Qed.

(** X8: [kickConvert] never throws.  For a list of slugs that is not empty
    it sends one request, the batch lookup of all of them, and returns, for
    each slug of the list, exactly one result with that slug, whatever the
    response holds; for the empty list it sends nothing and returns
    nothing. *)
Theorem kickConvert_covers_slugs (slugs : list string) (accessToken : string)
    (p : Page) :
  exists results p',
    kickConvert slugs accessToken p = PRet results p'
    /\ page_sent p'
       = page_sent p
         ++ match slugs with
            | [] => []
            | _ :: _ =>
                [GetKickChannelsBySlug (kickAuthorization accessToken) slugs]
            end
    /\ forall s, In s slugs -> slugCount s results = 1%nat.
Proof.
  destruct slugs as [| x slugs].
  { exists [], p. cbn. by rewrite app_nil_r. }
  destruct (kickConvert_run (x :: slugs) accessToken p)
    as (m' & p' & Hrun & Hsent & [Hslugs Hcount] & Hcover & _); [done |].
  exists (List.map snd m'), p'. split; [exact Hrun |]. split; [exact Hsent |].
  intros s Hs. rewrite slugCount_keyCount by done.
  specialize (Hcount s). specialize (Hcover s Hs). lia.
Qed.

(** X9: when the batch lookup gives nothing, because the request fails,
    the status is not one of success or the body is not JSON, [kickConvert]
    still returns: every result is a slug of the list with the id
    [null]. *)
Theorem kickConvert_lookup_fails (slugs : list string) (accessToken : string)
    (p : Page) :
  gives_nothing
    (page_net p (length (page_sent p))
       (GetKickChannelsBySlug (kickAuthorization accessToken) slugs)) ->
  exists results p',
    kickConvert slugs accessToken p = PRet results p'
    /\ Forall (fun o => exists s, In s slugs
                                  /\ o = [("slug", JStr s); ("id", JNull)])
              results.
Proof.
  intros Hfail. destruct slugs as [| x slugs].
  { exists [], p. split; [done | constructor]. }
  destruct (kickConvert_run (x :: slugs) accessToken p)
    as (m' & p' & Hrun & _ & _ & _ & Hnull); [done |].
  exists (List.map snd m'), p'. split; [exact Hrun | by apply Hnull].
Qed.

(** *** [youtubeConvert] *)




(** * Settings between the options page and the background script *)

Lemma loadSettings_run (w : World) :
  exists settings,
    loadSettings w = Ret settings w
    /\ loadedField settings "twitch" "accessToken"
       = storedToken w "https://api.twitch.tv/" "twitch_access_token"
    /\ loadedField settings "kick" "accessToken"
       = storedToken w "https://kick.com/" "kick_access_token"
    /\ forall p f,
         f <> "accessToken" \/ (p <> "twitch" /\ p <> "kick") ->
         loadedField settings p f = durableField w p f.
Proof.
  eexists. split; [unfold loadSettings; run; reflexivity |].
  unfold loadedField, durableField, storedToken, get.
  set (st0 := default [] (storage_streamtime w)).
  split; [| split].
  - rewrite !(lookup_set_ne "twitch" "kick") by done.
    rewrite (lookup_set_eq "twitch"). cbn [default from_option id].
    by rewrite (lookup_set_eq "accessToken").
  - rewrite (lookup_set_eq "kick"). cbn [default from_option id].
    by rewrite (lookup_set_eq "accessToken").
  - intros p f Hpf.
    destruct (decide (p = "kick")) as [-> | Hk].
    { rewrite (lookup_set_eq "kick"). cbn [default from_option id].
      rewrite (lookup_set_ne f "accessToken")
        by (destruct Hpf as [? | [_ ?]]; done).
      rewrite (lookup_set_eq "kick"). cbn [default from_option id].
      by rewrite !(lookup_set_ne "kick" "twitch") by done. }
    rewrite !(lookup_set_ne p "kick") by done.
    destruct (decide (p = "twitch")) as [-> | Ht].
    { rewrite (lookup_set_eq "twitch"). cbn [default from_option id].
      rewrite (lookup_set_ne f "accessToken")
        by (destruct Hpf as [? | [? _]]; done).
      by rewrite (lookup_set_eq "twitch"). }
    by rewrite !(lookup_set_ne p "twitch") by done.
Qed.

(** X11: [loadSettings] changes nothing.  What it returns is the durable
    record, except that the [accessToken] of [twitch] and of [kick] is what
    the cookie of the platform holds, the empty string when there is no
    cookie. *)
Theorem loadSettings_reads_cookies (w : World) :
  exists settings,
    loadSettings w = Ret settings w
    /\ loadedField settings "twitch" "accessToken"
       = storedToken w "https://api.twitch.tv/" "twitch_access_token"
    /\ loadedField settings "kick" "accessToken"
       = storedToken w "https://kick.com/" "kick_access_token"
    /\ forall p f,
         f <> "accessToken" \/ (p <> "twitch" /\ p <> "kick") ->
         loadedField settings p f = durableField w p f.
Proof. apply loadSettings_run. Qed.

Lemma saveAccessToken_storedToken (url name : string) (tok : JsVal) (w : World) :
  exists w',
    saveAccessToken url name tok w = Ret tt w'
    /\ storage_streamtime w' = storage_streamtime w
    /\ storedToken w' url name = js_or tok (JStr EmptyString)
    /\ forall url' name', (url', name') <> (url, name) ->
         storedToken w' url' name' = storedToken w url' name'.
Proof.
  unfold saveAccessToken, storedToken, js_or.
  destruct (truthy tok) eqn:Htok; run; eexists; (split; [reflexivity |]); cbn.
  - split; [done |]. split.
    + rewrite lookup_insert_eq. cbn [cookie_value]. unfold js_or.
      by rewrite !Htok.
    + intros url' name' Hne. by rewrite lookup_insert_ne.
  - split; [done |]. split.
    + by rewrite fin_maps.lookup_delete_eq.
    + intros url' name' Hne. by rewrite fin_maps.lookup_delete_ne.
Qed.

Lemma saveSettings_cookie (platform url name : string) (obj : Obj) (w : World) :
  (platform, url, name)
  = ("twitch", "https://api.twitch.tv/", "twitch_access_token")
  \/ (platform, url, name) = ("kick", "https://kick.com/", "kick_access_token") ->
  exists w',
    saveSettings platform obj w = Ret tt w'
    /\ storedToken w' url name = js_or (get obj "accessToken") (JStr EmptyString)
    /\ forall url' name', (url', name') <> (url, name) ->
         storedToken w' url' name' = storedToken w url' name'.
Proof.
  intros Hp. unfold saveSettings. run.
  match goal with |- context [set_streamtime ?x w] =>
    set (w1 := set_streamtime x w) end.
  destruct Hp as [[= -> -> ->] | [= -> -> ->]].
  - rewrite decide_True by done.
    destruct (saveAccessToken_storedToken "https://api.twitch.tv/"
                "twitch_access_token" (get obj "accessToken") w1)
      as (w' & -> & _ & Htok & Hother).
    exists w'. by auto.
  - rewrite decide_False by done. rewrite decide_True by done.
    destruct (saveAccessToken_storedToken "https://kick.com/"
                "kick_access_token" (get obj "accessToken") w1)
      as (w' & -> & _ & Htok & Hother).
    exists w'. by auto.
Qed.

Lemma saveSettings_fields (platform : string) (obj : Obj) (w w' : World) :
  NoDup (Object_keys obj) ->
  saveSettings platform obj w = Ret tt w' ->
  forall f v, f <> "accessToken" -> lookup_prop f obj = Some v ->
    durableField w' platform f = v.
Proof.
  intros Hnd Hrun f v Hf Hv.
  destruct (saveSettings_run platform obj w) as (w'' & Hrun' & Hst).
  rewrite Hrun in Hrun'. injection Hrun' as <-.
  unfold durableField, get. rewrite Hst. cbn [default from_option id].
  rewrite lookup_set_eq. cbn [default from_option id].
  destruct (negb (is_undefined (get obj "accessToken"))).
  - rewrite lookup_delete_ne by done.
    by rewrite (lookup_assign_named f v).
  - by rewrite (lookup_assign_named f v).
Qed.

(** X12: what the options page saves for Twitch or Kick is what the
    background script loads.  After [saveSettings(platform, obj)],
    [loadSettings] returns, under the platform, every field of [obj] with
    its value, the access token coming back from the cookie: the token of
    [obj], or the empty string when [obj] has none or an empty one. *)
Theorem saveSettings_then_loadSettings (platform url name : string) (obj : Obj)
    (w : World) :
  (platform, url, name)
  = ("twitch", "https://api.twitch.tv/", "twitch_access_token")
  \/ (platform, url, name) = ("kick", "https://kick.com/", "kick_access_token") ->
  NoDup (Object_keys obj) ->
  exists w' settings,
    saveSettings platform obj w = Ret tt w'
    /\ loadSettings w' = Ret settings w'
    /\ loadedField settings platform "accessToken"
       = js_or (get obj "accessToken") (JStr EmptyString)
    /\ forall f v, f <> "accessToken" -> lookup_prop f obj = Some v ->
         loadedField settings platform f = v.
Proof.
  intros Hp Hnd.
  destruct (saveSettings_cookie platform url name obj w Hp)
    as (w' & Hsave & Htok & _).
  destruct (loadSettings_run w') as (settings & Hload & Htwitch & Hkick & Hrest).
  exists w', settings. split; [exact Hsave |]. split; [exact Hload |]. split.
  - destruct Hp as [[= -> -> ->] | [= -> -> ->]]; congruence.
  - intros f v Hf Hv. rewrite Hrest by (by left).
    by eapply saveSettings_fields.
Qed.

(** X13: the token a refresh obtains is the token the next
    [loadSettings] returns for the platform, and so the one the next poll
    sends; the refresh token it returns next to it is the one the refresh
    stored. *)
Theorem refreshed_token_is_loaded (platform : string)
    (clientId clientSecret refreshToken tok : JsVal) (w w' : World) :
  (platform = "twitch"
   /\ refreshTwitchToken clientId clientSecret refreshToken w = Ret tok w')
  \/ (platform = "kick"
      /\ refreshKickToken clientId clientSecret refreshToken w = Ret tok w') ->
  truthy tok = true ->
  exists settings,
    loadSettings w' = Ret settings w'
    /\ loadedField settings platform "accessToken" = tok
    /\ loadedField settings platform "refreshToken"
       = durableField w' platform "refreshToken".
Proof.
  intros Hrun Htok.
  destruct (loadSettings_run w') as (settings & Hload & Htwitch & Hkick & Hrest).
  exists settings. split; [exact Hload |].
  split; [| apply Hrest; by left].
  destruct Hrun as [[-> Hrun] | [-> Hrun]].
  - destruct (refreshTwitchToken_spec clientId clientSecret refreshToken w)
      as (tok' & w'' & Hrun' & _ & Hspec).
    rewrite Hrun in Hrun'. injection Hrun' as <- <-. rewrite Htok in Hspec.
    destruct Hspec as [Hcookie _].
    rewrite Htwitch. unfold storedToken. unfold cookieHolds in Hcookie.
    destruct (cookies w' !! _) as [c |]; [| done]. cbn in Hcookie.
    injection Hcookie as ->. unfold js_or. by rewrite Htok.
  - pose proof (refreshKickToken_spec clientId clientSecret refreshToken w)
      as Hspec.
    rewrite Hrun in Hspec. destruct Hspec as [_ Hspec]. rewrite Htok in Hspec.
    destruct Hspec as [Hcookie _].
    rewrite Hkick. unfold storedToken. unfold cookieHolds in Hcookie.
    destruct (cookies w' !! _) as [c |]; [| done]. cbn in Hcookie.
    injection Hcookie as ->. unfold js_or. by rewrite Htok.
Qed.

(** * The adapters, path by path *)

(** ** Computations that only log *)

Lemma logs_refl (w : World) : logs w w.
Proof. exists []. by rewrite app_nil_r. Qed.

Lemma logs_trans (w1 w2 w3 : World) : logs w1 w2 -> logs w2 w3 -> logs w1 w3.
Proof.
  intros [l1 ->] [l2 ->]. exists (l1 ++ l2). cbn. by rewrite app_assoc.
Qed.

Lemma silent_ret {A} (a : A) : silent (ret a).
Proof. intros w. apply logs_refl. Qed.

Lemma silent_throw {A} (e : JsError) : silent (@throw A e).
Proof. intros w. apply logs_refl. Qed.

Lemma silent_reads {A} (f : World -> A) : silent (reads f).
Proof. intros w. apply logs_refl. Qed.

Lemma silent_console_log (lvl : LogLevel) (msg : string) :
  silent (console_log lvl msg).
Proof. intros w. by exists [(lvl, msg)]. Qed.

Lemma silent_bind {A B} (m : M A) (k : A -> M B) :
  silent m -> (forall a, silent (k a)) -> silent (bind m k).
Proof.
  intros Hm Hk w. unfold bind. specialize (Hm w).
  destruct (m w) as [a w1 | e w1 |]; [| done | done].
  specialize (Hk a w1).
  destruct (k a w1) as [b w2 | e w2 |]; [| | done]; by eapply logs_trans.
Qed.

Lemma silent_try_catch {A} (m : M A) (h : JsError -> M A) :
  silent m -> (forall e, silent (h e)) -> silent (try_catch m h).
Proof.
  intros Hm Hh w. unfold try_catch. specialize (Hm w).
  destruct (m w) as [a w1 | e w1 |]; [done | | done].
  specialize (Hh e w1).
  destruct (h e w1) as [b w2 | e' w2 |]; [| | done]; by eapply logs_trans.
Qed.

Lemma silent_mapM {A B} (f : A -> M B) (l : list A) :
  (forall x, silent (f x)) -> silent (mapM f l).
Proof.
  intros Hf. induction l as [| x l IH]; cbn [mapM]; [apply silent_ret |].
  apply silent_bind; [apply Hf | intros y].
  apply silent_bind; [apply IH | intros ys]. apply silent_ret.
Qed.

Lemma silent_filterM {A} (f : A -> M bool) (l : list A) :
  (forall x, silent (f x)) -> silent (filterM f l).
Proof.
  intros Hf. induction l as [| x l IH]; cbn [filterM]; [apply silent_ret |].
  apply silent_bind; [apply Hf | intros y].
  apply silent_bind; [apply IH | intros ys]. apply silent_ret.
Qed.

Ltac silent_step :=
  first
    [ apply silent_ret
    | apply silent_throw
    | apply silent_reads
    | apply silent_console_log
    | apply silent_bind; [| intros ?]
    | apply silent_try_catch; [| intros ?]
    | apply silent_mapM; intros ?
    | apply silent_filterM; intros ?
    | match goal with
      | |- silent (if ?c then _ else _) => destruct c
      | |- silent (match ?x with _ => _ end) => destruct x
      end ].

Lemma silent_getProp (v : JsVal) (k : string) : silent (getProp v k).
Proof. unfold getProp. repeat silent_step. Qed.

Lemma silent_json (r : Response) : silent (json r).
Proof. unfold json. repeat silent_step. Qed.

Lemma silent_asArray (v : JsVal) : silent (asArray v).
Proof. unfold asArray. repeat silent_step. Qed.

Ltac silent_steps :=
  repeat first
    [ apply silent_getProp
    | apply silent_json
    | apply silent_asArray
    | silent_step ].

(** A [catch] that logs and returns lets no exception out. *)
Lemma try_catch_logs_returns {A} (m : M A) (lvl : LogLevel) (msg : string)
    (a : A) (w : World) :
  match try_catch m (fun _ => console_log lvl msg ;; ret a) w with
  | Thrown _ _ => False
  | _ => True
  end.
Proof. unfold try_catch. by destruct (m w). Qed.

(** ** The channel list *)

Lemma getProp_run (v : JsVal) (k : string) (w : World) :
  getProp v k w
  = if is_nullish v then Thrown TypeError w else Ret (getPropOpt v k) w.
Proof. by destruct v. Qed.

Lemma twitchChannelId_run (c : JsVal) (w : World) :
  twitchChannelId c w
  = if is_nullish c then Thrown TypeError w else Ret (twitchIdOf c) w.
Proof.
  destruct c as [| | b | n | s | items | o]; try reflexivity.
  unfold twitchChannelId, twitchIdOf, js_or, bind. cbn.
  destruct (truthy (get o "id")); [done |].
  by destruct (truthy (get o "user_id")).
Qed.

Lemma kickChannelId_run (c : JsVal) (w : World) :
  kickChannelId c w
  = if is_nullish c then Thrown TypeError w else Ret (kickIdOf c) w.
Proof.
  destruct c as [| | b | n | s | items | o]; try reflexivity.
  unfold kickChannelId, kickIdOf, js_or, bind. cbn.
  by destruct (truthy (get o "id")).
Qed.

Lemma mapM_id_run (idOf : JsVal -> M JsVal) (pureId : JsVal -> JsVal)
    (items : list JsVal) (w : World) :
  (forall c w, idOf c w
               = if is_nullish c then Thrown TypeError w else Ret (pureId c) w) ->
  mapM idOf items w
  = if forallb (fun c => negb (is_nullish c)) items
    then Ret (List.map pureId items) w else Thrown TypeError w.
Proof.
  intros Hid. induction items as [| c items IH]; [done |].
  cbn [mapM forallb List.map]. unfold bind at 1. rewrite Hid.
  destruct (is_nullish c); [done |]. cbn [negb andb].
  unfold bind. rewrite IH. by destruct (forallb _ items).
Qed.

Lemma channels_head {B} (v : JsVal) (idOf : JsVal -> M JsVal)
    (pureId : JsVal -> JsVal) (k : list JsVal -> M B) (w : World) :
  (forall c w, idOf c w
               = if is_nullish c then Thrown TypeError w else Ret (pureId c) w) ->
  bind (asArray v) (fun channels => bind (mapM idOf channels) k) w
  = match channelList v with
    | Some items => k (List.map pureId items) w
    | None => Thrown TypeError w
    end.
Proof.
  intros Hid. unfold channelList, asArray.
  destruct v as [| | b | n | s | items | o]; try done.
  unfold bind at 1. cbn [ret]. unfold bind.
  rewrite (mapM_id_run idOf pureId) by done.
  by destruct (forallb _ items).
Qed.

Section AdapterPaths.
Context `{Host}.

(** X14: [checkTwitch] and [checkKick] throw in one case only: the stored
    channel list is there, and for Twitch the client id and the access
    token too, but the list is not an array, or it holds a [null] or an
    [undefined].  They throw a [TypeError] then, before any request and
    without an effect.  Everything that goes wrong later is caught. *)
Theorem adapters_throw_on_bad_channel_list (fuel : nat) (settings : Obj)
    (w : World) :
  match checkTwitch (S fuel) settings w with
  | Thrown e w' =>
      e = TypeError /\ w' = w
      /\ twitchConfigured settings = true
      /\ channelList (get settings "channels") = None
  | _ =>
      twitchConfigured settings = false
      \/ is_Some (channelList (get settings "channels"))
  end
  /\ match checkKick (S fuel) settings w with
     | Thrown e w' =>
         e = TypeError /\ w' = w
         /\ truthy (get settings "channels") = true
         /\ channelList (get settings "channels") = None
     | _ =>
         truthy (get settings "channels") = false
         \/ is_Some (channelList (get settings "channels"))
     end.
Proof.
  split.
  - cbn [checkTwitch]. unfold twitchConfigured.
    destruct (truthy (get settings "clientId")); cbn [negb orb andb];
      [| by left].
    destruct (truthy (get settings "accessToken")); cbn [negb orb andb];
      [| by left].
    destruct (truthy (get settings "channels")); cbn [negb orb andb];
      [| by left].
    rewrite (channels_head _ _ twitchIdOf) by apply twitchChannelId_run.
    destruct (channelList (get settings "channels")) as [items |]; [| done].
    cbv zeta. destruct (List.filter truthy (List.map twitchIdOf items));
      [right; by eexists |].
    match goal with |- context [try_catch ?m _ w] =>
      pose proof (try_catch_logs_returns m LError "Twitch check error" [] w)
        as Hcaught
    end.
    destruct (try_catch _ _ w); [right; by eexists | done | right; by eexists].
  - cbn [checkKick].
    destruct (truthy (get settings "channels")); cbn [negb]; [| by left].
    rewrite (channels_head _ _ kickIdOf) by apply kickChannelId_run.
    destruct (channelList (get settings "channels")) as [items |]; [| done].
    cbv zeta. destruct (List.filter truthy (List.map kickIdOf items));
      [right; by eexists |].
    match goal with |- context [try_catch ?m _ w] =>
      pose proof (try_catch_logs_returns m LError "Kick check error:" [] w)
        as Hcaught
    end.
    destruct (try_catch _ _ w); [right; by eexists | done | right; by eexists].
Qed.

End AdapterPaths.


Lemma requests_logs (reqs : list Request) (w w1 w2 : World) :
  requests reqs w w1 -> logs w1 w2 -> requests reqs w w2.
Proof. unfold requests. apply logs_trans. Qed.


Lemma ok_not_refused (r : Response) : ok r = true -> is401or403 r = false.
Proof. unfold ok, is401or403. lia. Qed.

(** A request inside [try], followed by steps that only log, under a
    [catch] that logs and returns [a]: one request is sent, and the result
    is what the steps returned, or [a]. *)
Lemma try_fetch_silent {A} (req : Request) (k : Response -> M A)
    (lvl : LogLevel) (msg : string) (a : A) (w : World) :
  (forall r, net w (length (sent w)) req = Http r -> silent (k r)) ->
  exists x w',
    try_catch (bind (fetch req) k) (fun _ => console_log lvl msg ;; ret a) w
    = Ret x w'
    /\ requests [req] w w'
    /\ (x = a
        \/ exists r w1,
             net w (length (sent w)) req = Http r
             /\ k r (set_sent (sent w ++ [req]) w) = Ret x w1).
Proof.
  intros Hk. unfold try_catch, bind at 1, fetch.
  destruct (net w (length (sent w)) req) as [| r] eqn:Hnet.
  { eexists _, _. split; [reflexivity |]. split; [| by left].
    by exists [(lvl, msg)]. }
  specialize (Hk r eq_refl (set_sent (sent w ++ [req]) w)).
  destruct (k r (set_sent (sent w ++ [req]) w)) as [x w1 | e w1 |] eqn:Hrun;
    [| | done].
  - exists x, w1. split; [reflexivity |]. split; [exact Hk |].
    right. by exists r, w1.
  - eexists _, _. split; [reflexivity |]. split; [| by left].
    eapply logs_trans; [exact Hk |]. by exists [(lvl, msg)].
Qed.

Section AdapterRequests.
Context `{Host}.

Lemma silent_computeUptime (v : JsVal) : silent (computeUptime v).
Proof. unfold computeUptime, Date_now. silent_steps. Qed.

Lemma silent_twitchEntry (s : JsVal) : silent (twitchEntry s).
Proof.
  unfold twitchEntry. repeat first [apply silent_computeUptime | silent_steps].
Qed.

Lemma silent_kickIsLive (ch : JsVal) : silent (kickIsLive ch).
Proof. unfold kickIsLive. silent_steps. Qed.

Lemma silent_kickEntry (ch : JsVal) : silent (kickEntry ch).
Proof.
  unfold kickEntry. repeat first [apply silent_computeUptime | silent_steps].
Qed.


Lemma checkTwitch_first_request (fuel : nat) (twitchSettings : Obj) (w : World) :
  twitchConfigured twitchSettings = true ->
  twitchIds twitchSettings <> [] ->
  exists k,
    checkTwitch (S fuel) twitchSettings w
    = try_catch (bind (fetch (twitchRequest twitchSettings)) k)
        (fun _ => console_log LError "Twitch check error" ;; ret []) w
    /\ forall r, is401or403 r = false ->
         k r = (if negb (ok r) then
                  console_log LWarn "Twitch streams fetch failed" ;; ret []
                else
                  let* j := json r in
                  let* data := getProp j "data" in
                  let* streams := asArray data in
                  mapM twitchEntry streams).
Proof.
  intros Hconf Hids. unfold twitchRequest. cbn [checkTwitch].
  unfold twitchConfigured in Hconf.
  apply andb_true_iff in Hconf as [Hconf Hch].
  apply andb_true_iff in Hconf as [Hcid Htok].
  rewrite Hcid, Htok, Hch. cbn [negb orb].
  rewrite (channels_head _ _ twitchIdOf) by apply twitchChannelId_run.
  unfold twitchIds in *.
  destruct (channelList (get twitchSettings "channels")) as [items |];
    [| done].
  cbn [default from_option id] in *. cbv zeta.
  destruct (List.filter truthy (List.map twitchIdOf items)) as [| i ids];
    [done |].
  eexists. split; [reflexivity |]. intros r Hr. cbv beta. by rewrite Hr.
Qed.

Lemma checkKick_first_request (fuel : nat) (kickSettings : Obj) (w : World) :
  truthy (get kickSettings "channels") = true ->
  kickIds kickSettings <> [] ->
  exists k,
    checkKick (S fuel) kickSettings w
    = try_catch (bind (fetch (kickRequest kickSettings)) k)
        (fun _ => console_log LError "Kick check error:" ;; ret []) w
    /\ forall r, is401or403 r = false ->
         k r = (if negb (ok r) then
                  console_log LWarn "Kick API error" ;; ret []
                else
                  let* j := json r in
                  let* data := getProp j "data" in
                  let* channels := asArray (js_or data (JArr [])) in
                  let* live := filterM kickIsLive channels in
                  mapM kickEntry live).
Proof.
  intros Hch Hids. unfold kickRequest. cbn [checkKick].
  rewrite Hch. cbn [negb].
  rewrite (channels_head _ _ kickIdOf) by apply kickChannelId_run.
  unfold kickIds in *.
  destruct (channelList (get kickSettings "channels")) as [items |];
    [| done].
  cbn [default from_option id] in *. cbv zeta.
  destruct (List.filter truthy (List.map kickIdOf items)) as [| i ids];
    [done |].
  eexists. split; [reflexivity |]. intros r Hr. cbv beta. by rewrite Hr.
Qed.

(** X15: when the first reply to [checkTwitch] is not a 401 or a 403,
    whatever else it is, a failure of the network, an error status, a body
    that is not JSON or not of the expected form, the adapter returns, for
    any fuel, having sent that one request and written to the console: no
    token refresh, nothing stored, no cookie touched. *)
Theorem checkTwitch_one_request_unless_refused (fuel : nat)
    (twitchSettings : Obj) (w : World) :
  twitchConfigured twitchSettings = true ->
  twitchIds twitchSettings <> [] ->
  refused (net w (length (sent w)) (twitchRequest twitchSettings)) = false ->
  exists entries w',
    checkTwitch (S fuel) twitchSettings w = Ret entries w'
    /\ requests [twitchRequest twitchSettings] w w'.
Proof.
  intros Hconf Hids Hreply.
  destruct (checkTwitch_first_request fuel twitchSettings w Hconf Hids)
    as (k & -> & Hk).
  destruct (try_fetch_silent (twitchRequest twitchSettings) k LError
              "Twitch check error" [] w) as (x & w' & -> & Hreq & _).
  { intros r Hnet. rewrite Hnet in Hreply. rewrite (Hk r Hreply).
    repeat first [apply silent_twitchEntry | silent_steps]. }
  by exists x, w'.
Qed.

(** X16: the same of [checkKick]: a first reply that is not a 401 or a 403
    costs one request and changes nothing but the console. *)
Theorem checkKick_one_request_unless_refused (fuel : nat) (kickSettings : Obj)
    (w : World) :
  truthy (get kickSettings "channels") = true ->
  kickIds kickSettings <> [] ->
  refused (net w (length (sent w)) (kickRequest kickSettings)) = false ->
  exists entries w',
    checkKick (S fuel) kickSettings w = Ret entries w'
    /\ requests [kickRequest kickSettings] w w'.
Proof.
  intros Hch Hids Hreply.
  destruct (checkKick_first_request fuel kickSettings w Hch Hids)
    as (k & -> & Hk).
  destruct (try_fetch_silent (kickRequest kickSettings) k LError
              "Kick check error:" [] w) as (x & w' & -> & Hreq & _).
  { intros r Hnet. rewrite Hnet in Hreply. rewrite (Hk r Hreply).
    repeat first [apply silent_kickIsLive | apply silent_kickEntry
                  | silent_steps]. }
  by exists x, w'.
Qed.

End AdapterRequests.

(** ** What a successful reply becomes *)

Lemma mapM_run {A B} (f : A -> M B) (g : A -> B) (l : list A) (w : World) :
  (forall x, In x l -> f x w = Ret (g x) w) ->
  mapM f l w = Ret (List.map g l) w.
Proof.
  induction l as [| x l IH]; intros Hf; [done |]. cbn [mapM List.map].
  rewrite (bind_Ret _ _ w w (g x)) by (apply Hf; by left).
  rewrite (bind_Ret _ _ w w (List.map g l)); [done |].
  apply IH. intros y Hy. apply Hf. by right.
Qed.

Lemma filterM_run {A} (f : A -> M bool) (g : A -> bool) (l : list A)
    (w : World) :
  (forall x, In x l -> f x w = Ret (g x) w) ->
  filterM f l w = Ret (List.filter g l) w.
Proof.
  induction l as [| x l IH]; intros Hf; [done |]. cbn [filterM List.filter].
  rewrite (bind_Ret _ _ w w (g x)) by (apply Hf; by left).
  rewrite (bind_Ret _ _ w w (List.filter g l)); [done |].
  apply IH. intros y Hy. apply Hf. by right.
Qed.

Lemma forallb_In {A} (f : A -> bool) (l : list A) (x : A) :
  forallb f l = true -> In x l -> f x = true.
Proof. rewrite forallb_forall. auto. Qed.

Section AdapterResults.
Context `{Host}.

Lemma twitchEntry_run (s : JsVal) (w : World) :
  is_nullish s = false ->
  twitchEntry s w
  = Ret [("user_id", getPropOpt s "user_id");
         ("user_login", getPropOpt s "user_login");
         ("display_name", getPropOpt s "user_name");
         ("title", getPropOpt s "title");
         ("game", getPropOpt s "game_name");
         ("viewers", getPropOpt s "viewer_count");
         ("started_at", getPropOpt s "started_at");
         ("uptime", JStr (uptimeAt (now w) (getPropOpt s "started_at")));
         ("url", JStr ("https://twitch.tv/"
                       +:+ toString (getPropOpt s "user_login")))] w.
Proof.
  intros Hs. unfold twitchEntry.
  repeat (rewrite (bind_Ret _ _ w w (getPropOpt s _))
            by (by rewrite getProp_run, Hs)).
  by rewrite (bind_Ret _ _ w w _ (computeUptime_run _ w)).
Qed.

Lemma kickIsLive_run (ch : JsVal) (w : World) :
  is_nullish ch = false -> kickIsLive ch w = Ret (kickLiveOf ch) w.
Proof.
  intros Hch. unfold kickIsLive, kickLiveOf.
  rewrite (bind_Ret _ _ w w (getPropOpt ch "stream"))
    by (by rewrite getProp_run, Hch).
  destruct (truthy (getPropOpt ch "stream")) eqn:Hstream; [| done].
  rewrite (bind_Ret _ _ w w (getPropOpt (getPropOpt ch "stream") "is_live"));
    [done |].
  rewrite getProp_run. by destruct (getPropOpt ch "stream").
Qed.

Lemma kickEntry_run (ch : JsVal) (w : World) :
  is_nullish ch = false -> kickLiveOf ch = true ->
  exists uptime,
    kickEntry ch w
    = Ret [("id", getPropOpt ch "broadcaster_user_id");
           ("slug", getPropOpt ch "slug");
           ("title", js_or (getPropOpt ch "stream_title")
                       (JStr ("Live on " +:+ toString (getPropOpt ch "slug"))));
           ("game", js_or (getPropOpt (getPropOpt ch "category") "name")
                      (JStr "Unknown"));
           ("viewers",
            js_or (getPropOpt (getPropOpt ch "stream") "viewer_count")
                  (JNum 0));
           ("started_at",
            js_or (getPropOpt (getPropOpt ch "stream") "start_time") JNull);
           ("uptime", JStr uptime);
           ("url", JStr ("https://kick.com/"
                         +:+ toString (getPropOpt ch "slug")))] w
    /\ uptime
       = if truthy (getPropOpt (getPropOpt ch "stream") "start_time")
         then uptimeAt (now w) (getPropOpt (getPropOpt ch "stream") "start_time")
         else EmptyString.
Proof.
  intros Hch Hlive. unfold kickLiveOf in Hlive.
  apply andb_true_iff in Hlive as [Hstream _].
  assert (is_nullish (getPropOpt ch "stream") = false) as Hs
    by (by destruct (getPropOpt ch "stream")).
  eexists. split; [| reflexivity]. unfold kickEntry.
  repeat (rewrite (bind_Ret _ _ w w (getPropOpt ch _))
            by (by rewrite getProp_run, Hch)).
  repeat (rewrite (bind_Ret _ _ w w (getPropOpt (getPropOpt ch "stream") _))
            by (by rewrite getProp_run, Hs)).
  destruct (truthy (getPropOpt (getPropOpt ch "stream") "start_time")).
  - by rewrite (bind_Ret _ _ w w _ (computeUptime_run _ w)).
  - reflexivity.
Qed.

(** X17: from a successful reply [checkTwitch] returns one entry for each
    stream record of [data], in the order of the records, with the fields
    of the record under the names of the entry, the address of the channel
    page, and the uptime at the time of the reply. *)
Theorem checkTwitch_entries (fuel : nat) (twitchSettings : Obj) (w : World)
    (streams : list JsVal) :
  twitchConfigured twitchSettings = true ->
  twitchIds twitchSettings <> [] ->
  delivers (net w (length (sent w)) (twitchRequest twitchSettings))
           "data" streams ->
  exists entries,
    let w' := set_sent (sent w ++ [twitchRequest twitchSettings]) w in
    checkTwitch (S fuel) twitchSettings w = Ret entries w'
    /\ Forall2 (twitchEntryFor (now w')) streams entries.
Proof.
  intros Hconf Hids (r & o & Hnet & Hok & Hbody & Hdata & Hstreams).
  destruct (checkTwitch_first_request fuel twitchSettings w Hconf Hids)
    as (k & -> & Hk).
  cbv zeta. set (w' := set_sent (sent w ++ [twitchRequest twitchSettings]) w).
  assert (forall l,
             (forall s, In s l -> is_nullish s = false) ->
             exists entries,
               mapM twitchEntry l w' = Ret entries w'
               /\ Forall2 (twitchEntryFor (now w')) l entries) as Hentries.
  { induction l as [| s l IH]; intros Hl.
    - exists []. split; [done | constructor].
    - pose proof (twitchEntry_run s w' (Hl s (or_introl eq_refl))) as Hrun.
      destruct IH as (entries & Hmap & Hall).
      { intros c Hc. apply Hl. by right. }
      eexists. split.
      + cbn [mapM]. rewrite (bind_Ret _ _ _ _ _ Hrun).
        rewrite (bind_Ret _ _ _ _ _ Hmap). reflexivity.
      + constructor; [| exact Hall]. unfold twitchEntryFor. repeat split. }
  destruct (Hentries streams) as (entries & Hmap & Hall).
  { intros s Hin. apply (forallb_In _ _ s) in Hstreams; [| done].
    cbv beta in Hstreams. by destruct (is_nullish s). }
  exists entries. split; [| exact Hall].
  unfold try_catch, bind at 1, fetch. rewrite Hnet.
  rewrite (Hk r (ok_not_refused r Hok)), Hok. cbn [negb].
  unfold json. rewrite Hbody.
  rewrite (bind_Ret _ _ _ _ (JObj o)) by reflexivity.
  rewrite (bind_Ret _ _ _ _ (JArr streams)) by (cbn; by rewrite Hdata).
  rewrite (bind_Ret _ _ _ _ streams) by reflexivity.
  fold w'. by rewrite Hmap.
Qed.

(** X18: from a successful reply [checkKick] returns one entry for each
    channel of [data] whose [stream.is_live] holds, in the order of the
    channels, and none for the others; the entry has the broadcaster's id
    and the slug of the channel, and the address of the channel page. *)
Theorem checkKick_entries_of_live_channels (fuel : nat) (kickSettings : Obj)
    (w : World) (channels : list JsVal) :
  truthy (get kickSettings "channels") = true ->
  kickIds kickSettings <> [] ->
  delivers (net w (length (sent w)) (kickRequest kickSettings))
           "data" channels ->
  exists entries,
    let w' := set_sent (sent w ++ [kickRequest kickSettings]) w in
    checkKick (S fuel) kickSettings w = Ret entries w'
    /\ Forall2 (kickEntryFor (now w')) (List.filter kickLiveOf channels)
         entries.
Proof.
  intros Hch Hids (r & o & Hnet & Hok & Hbody & Hdata & Hchannels).
  destruct (checkKick_first_request fuel kickSettings w Hch Hids)
    as (k & -> & Hk).
  cbv zeta. set (w' := set_sent (sent w ++ [kickRequest kickSettings]) w).
  assert (forall l,
             (forall ch, In ch l -> is_nullish ch = false /\ kickLiveOf ch = true) ->
             exists entries,
               mapM kickEntry l w' = Ret entries w'
               /\ Forall2 (kickEntryFor (now w')) l entries) as Hentries.
  { induction l as [| ch l IH]; intros Hl.
    - exists []. split; [done | constructor].
    - destruct (Hl ch (or_introl eq_refl)) as [Hnn Hlive].
      destruct (kickEntry_run ch w' Hnn Hlive) as (uptime & Hrun & ->).
      destruct IH as (entries & Hmap & Hall).
      { intros c Hc. apply Hl. by right. }
      eexists. split.
      + cbn [mapM]. rewrite (bind_Ret _ _ _ _ _ Hrun).
        rewrite (bind_Ret _ _ _ _ _ Hmap). reflexivity.
      + constructor; [| exact Hall]. unfold kickEntryFor. cbv zeta.
        repeat split. }
  destruct (Hentries (List.filter kickLiveOf channels)) as (entries & Hmap & Hall).
  { intros ch Hin. apply filter_In in Hin as [Hin Hlive]. split; [| done].
    apply (forallb_In _ _ ch) in Hchannels; [| done].
    cbv beta in Hchannels. by destruct (is_nullish ch). }
  exists entries. split; [| exact Hall].
  unfold try_catch, bind at 1, fetch. rewrite Hnet.
  rewrite (Hk r (ok_not_refused r Hok)), Hok. cbn [negb].
  unfold json. rewrite Hbody.
  rewrite (bind_Ret _ _ _ _ (JObj o)) by reflexivity.
  rewrite (bind_Ret _ _ _ _ (JArr channels)) by (cbn; by rewrite Hdata).
  rewrite (bind_Ret _ _ _ _ channels) by reflexivity.
  fold w'.
  rewrite (bind_Ret _ _ w' w' (List.filter kickLiveOf channels)).
  - by rewrite Hmap.
  - apply filterM_run. intros ch Hin. apply kickIsLive_run.
    apply (forallb_In _ _ ch) in Hchannels; [| done].
    cbv beta in Hchannels. by destruct (is_nullish ch).
Qed.

End AdapterResults.

(** ** [checkYouTube] *)


Section YouTubeRequests.
Context `{Host}.





Lemma checkTwitch_no_ids (fuel : nat) (twitchSettings : Obj) (w : World) :
  is_Some (channelList (get twitchSettings "channels")) ->
  twitchIds twitchSettings = [] ->
  checkTwitch (S fuel) twitchSettings w = Ret [] w.
Proof.
  intros [items Hitems] Hids. unfold twitchIds in Hids. cbn [checkTwitch].
  destruct (negb _ || negb _ || negb _); [done |].
  rewrite (channels_head _ _ twitchIdOf) by apply twitchChannelId_run.
  rewrite Hitems in *. cbn [default from_option id] in Hids. cbv zeta.
  by rewrite Hids.
Qed.

Lemma checkKick_no_ids (fuel : nat) (kickSettings : Obj) (w : World) :
  is_Some (channelList (get kickSettings "channels")) ->
  kickIds kickSettings = [] ->
  checkKick (S fuel) kickSettings w = Ret [] w.
Proof.
  intros [items Hitems] Hids. unfold kickIds in Hids. cbn [checkKick].
  destruct (negb _); [done |].
  rewrite (channels_head _ _ kickIdOf) by apply kickChannelId_run.
  rewrite Hitems in *. cbn [default from_option id] in Hids. cbv zeta.
  by rewrite Hids.
Qed.

Lemma unconverted_channelList (field text : string) :
  channelList (unconvertedChannels field text)
  = Some (List.map (fun s => JObj [(field, JStr s)]) (parseList text)).
Proof.
  unfold unconvertedChannels, channelList.
  assert (forallb (fun c => negb (is_nullish c))
            (List.map (fun s => JObj [(field, JStr s)]) (parseList text))
          = true) as ->; [| done].
  induction (parseList text) as [| s l IH]; [done |]. exact IH.
Qed.

(** X20: names saved without conversion are never polled on Twitch and on
    Kick.  The save button stores them under [login] or [slug]; the
    adapters look for an id, find none, and return the empty list without
    a request, whatever the credentials and the names are. *)
Theorem unconverted_names_are_not_polled (fuel : nat) (settings : Obj)
    (text : string) (w : World) :
  get settings "channels" = unconvertedChannels "login" text
  \/ get settings "channels" = unconvertedChannels "slug" text ->
  checkTwitch (S fuel) settings w = Ret [] w
  /\ checkKick (S fuel) settings w = Ret [] w.
Proof.
  intros Hch.
  assert (exists field,
             (field = "login" \/ field = "slug")
             /\ get settings "channels" = unconvertedChannels field text)
    as (field & Hfield & Hchannels).
  { destruct Hch; [exists "login" | exists "slug"]; by auto. }
  assert (forall idOf : JsVal -> JsVal,
             (forall s, idOf (JObj [(field, JStr s)]) = JUndef) ->
             List.filter truthy
               (List.map idOf
                  (List.map (fun s => JObj [(field, JStr s)]) (parseList text)))
             = []) as Hnone.
  { intros idOf Hid. induction (parseList text) as [| s l IH]; [done |].
    cbn [List.map List.filter]. by rewrite Hid. }
  split.
  - apply checkTwitch_no_ids.
    + rewrite Hchannels, unconverted_channelList. by eexists.
    + unfold twitchIds. rewrite Hchannels, unconverted_channelList.
      apply Hnone. intros s. by destruct Hfield as [-> | ->].
  - apply checkKick_no_ids.
    + rewrite Hchannels, unconverted_channelList. by eexists.
    + unfold kickIds. rewrite Hchannels, unconverted_channelList.
      apply Hnone. intros s. by destruct Hfield as [-> | ->].
Qed.


End YouTubeRequests.

(** * What a computation leaves alone *)

Section Keeps.
Context {X : Type} (f : World -> X).

Lemma keeps_ret {A} (a : A) : keeps f (ret a).
Proof. by intros w. Qed.

Lemma keeps_throw {A} (e : JsError) : keeps f (@throw A e).
Proof. by intros w. Qed.

Lemma keeps_reads {A} (g : World -> A) : keeps f (reads g).
Proof. by intros w. Qed.

Lemma keeps_modify (g : World -> World) :
  (forall w, f (g w) = f w) -> keeps f (modify g).
Proof. intros Hg w. apply Hg. Qed.

Lemma keeps_bind {A B} (m : M A) (k : A -> M B) :
  keeps f m -> (forall a, keeps f (k a)) -> keeps f (bind m k).
Proof.
  intros Hm Hk w. unfold bind. specialize (Hm w).
  destruct (m w) as [a w1 | e w1 |]; [| done | done].
  specialize (Hk a w1). destruct (k a w1); congruence.
Qed.

Lemma keeps_try_catch {A} (m : M A) (h : JsError -> M A) :
  keeps f m -> (forall e, keeps f (h e)) -> keeps f (try_catch m h).
Proof.
  intros Hm Hh w. unfold try_catch. specialize (Hm w).
  destruct (m w) as [a w1 | e w1 |]; [done | | done].
  specialize (Hh e w1). destruct (h e w1); congruence.
Qed.

Lemma keeps_mapM {A B} (g : A -> M B) (l : list A) :
  (forall x, keeps f (g x)) -> keeps f (mapM g l).
Proof.
  intros Hg. induction l as [| x l IH]; cbn [mapM]; [apply keeps_ret |].
  apply keeps_bind; [apply Hg | intros y].
  apply keeps_bind; [apply IH | intros ys]. apply keeps_ret.
Qed.

Lemma keeps_filterM {A} (g : A -> M bool) (l : list A) :
  (forall x, keeps f (g x)) -> keeps f (filterM g l).
Proof.
  intros Hg. induction l as [| x l IH]; cbn [filterM]; [apply keeps_ret |].
  apply keeps_bind; [apply Hg | intros y].
  apply keeps_bind; [apply IH | intros ys]. apply keeps_ret.
Qed.

Lemma keeps_foldM {A B} (g : A -> B -> M A) (l : list B) :
  (forall acc x, keeps f (g acc x)) -> forall acc, keeps f (foldM g acc l).
Proof.
  intros Hg. induction l as [| x l IH]; intros acc; cbn [foldM];
    [apply keeps_ret |].
  apply keeps_bind; [apply Hg | intros acc']. apply IH.
Qed.

Lemma keeps_getProp (v : JsVal) (k : string) : keeps f (getProp v k).
Proof. by destruct v. Qed.

Lemma keeps_json (r : Response) : keeps f (json r).
Proof. unfold json. by destruct (body r). Qed.

Lemma keeps_asArray (v : JsVal) : keeps f (asArray v).
Proof. by destruct v. Qed.

Lemma keeps_iterate (v : JsVal) : keeps f (iterate v).
Proof. by destruct v. Qed.

Lemma keeps_substring_receiver (v : JsVal) : keeps f (substring_receiver v).
Proof. by destruct v. Qed.

Lemma keeps_getAccessTokenCookie (url name : string) :
  keeps f (getAccessTokenCookie url name).
Proof. by intros w. Qed.

Lemma keeps_loadSettings : keeps f loadSettings.
Proof. by intros w. Qed.

Hypothesis f_console : forall x w, f (set_console x w) = f w.

Lemma keeps_console_log (lvl : LogLevel) (msg : string) :
  keeps f (console_log lvl msg).
Proof. intros w. apply f_console. Qed.

(** One step through a computation that writes to the console at most. *)
Ltac keeps_step :=
  first
    [ apply keeps_ret
    | apply keeps_throw
    | apply keeps_reads
    | apply keeps_console_log
    | apply keeps_getProp
    | apply keeps_json
    | apply keeps_asArray
    | apply keeps_iterate
    | apply keeps_substring_receiver
    | apply keeps_loadSettings
    | apply keeps_bind; [| intros ?]
    | apply keeps_try_catch; [| intros ?]
    | apply keeps_mapM; intros ?
    | apply keeps_filterM; intros ?
    | match goal with
      | |- keeps _ (if ?c then _ else _) => destruct c
      | |- keeps _ (match ?x with _ => _ end) => destruct x
      end ].

Ltac keeps_logging := repeat keeps_step.

Section KeepsEntries.
Context `{Host}.

Lemma keeps_computeUptime (v : JsVal) : keeps f (computeUptime v).
Proof. by intros w. Qed.

Lemma keeps_twitchEntry (s : JsVal) : keeps f (twitchEntry s).
Proof.
  unfold twitchEntry. repeat first [apply keeps_computeUptime | keeps_step].
Qed.

Lemma keeps_kickIsLive (ch : JsVal) : keeps f (kickIsLive ch).
Proof. unfold kickIsLive. keeps_logging. Qed.

Lemma keeps_kickEntry (ch : JsVal) : keeps f (kickEntry ch).
Proof.
  unfold kickEntry. repeat first [apply keeps_computeUptime | keeps_step].
Qed.

Lemma keeps_youtubeEntry (channelId v : JsVal) :
  keeps f (youtubeEntry channelId v).
Proof.
  unfold youtubeEntry. repeat first [apply keeps_computeUptime | keeps_step].
Qed.
End KeepsEntries.

(** The steps of a token refresh after its request. *)
Lemma keeps_after_twitch_refresh (refreshToken : JsVal) (response : Response) :
  (forall x w, f (set_cookies x w) = f w) ->
  (forall x w, f (set_streamtime x w) = f w) ->
  keeps f
    (if negb (ok response) then
       console_log LError "[Twitch] Token refresh failed with status" ;;
       ret JNull
     else
       let* data := json response in
       let* access_token := getProp data "access_token" in
       if truthy access_token then
         console_log LLog "[Twitch] Access token refreshed successfully." ;;
         setAccessTokenCookie "https://api.twitch.tv/" "twitch_access_token"
                              access_token ;;
         let* refresh_token := getProp data "refresh_token" in
         mergeSettings
           [("twitch", [("refreshToken", js_or refresh_token refreshToken)])] ;;
         ret access_token
       else
         console_log LError "[Twitch] Failed to refresh token:" ;;
         ret JNull).
Proof.
  intros f_cookies f_streamtime.
  unfold setAccessTokenCookie, mergeSettings, Date_now.
  repeat first
    [ apply keeps_modify; intros ?;
        first [apply f_cookies | apply f_streamtime]
    | keeps_step ].
Qed.

Lemma keeps_after_kick_refresh (refreshToken : JsVal) (response : Response) :
  (forall x w, f (set_cookies x w) = f w) ->
  (forall x w, f (set_streamtime x w) = f w) ->
  keeps f
    (if negb (ok response) then
       console_log LError "[Kick] Token refresh failed with status" ;;
       ret JNull
     else
       let* data := json response in
       let* access_token := getProp data "access_token" in
       if truthy access_token then
         console_log LLog "[Kick] Access token refreshed successfully." ;;
         setAccessTokenCookie "https://kick.com/" "kick_access_token"
                              access_token ;;
         let* refresh_token := getProp data "refresh_token" in
         mergeSettings
           [("kick", [("refreshToken", js_or refresh_token refreshToken)])] ;;
         ret access_token
       else
         console_log LError "[Kick] Failed to refresh token (unexpected response structure):" ;;
         ret JNull).
Proof.
  intros f_cookies f_streamtime.
  unfold setAccessTokenCookie, mergeSettings, Date_now.
  repeat first
    [ apply keeps_modify; intros ?;
        first [apply f_cookies | apply f_streamtime]
    | keeps_step ].
Qed.

Hypothesis f_sent : forall x w, f (set_sent x w) = f w.

Lemma keeps_fetch (req : Request) : keeps f (fetch req).
Proof.
  intros w. unfold fetch. destruct (net w _ _); apply f_sent.
Qed.

Hypothesis f_cookies : forall x w, f (set_cookies x w) = f w.
Hypothesis f_streamtime : forall x w, f (set_streamtime x w) = f w.

Lemma keeps_refreshTwitchToken (clientId clientSecret refreshToken : JsVal) :
  keeps f (refreshTwitchToken clientId clientSecret refreshToken).
Proof.
  unfold refreshTwitchToken.
  apply keeps_bind; [apply keeps_console_log | intros _].
  apply keeps_try_catch; [| intros e; keeps_logging].
  apply keeps_bind; [apply keeps_fetch | intros response].
  by apply keeps_after_twitch_refresh.
Qed.

Lemma keeps_refreshKickToken (clientId clientSecret refreshToken : JsVal) :
  keeps f (refreshKickToken clientId clientSecret refreshToken).
Proof.
  unfold refreshKickToken.
  destruct (_ || _); [keeps_logging |].
  repeat (apply keeps_bind;
          [first [apply keeps_console_log | apply keeps_substring_receiver]
          | intros _]).
  apply keeps_try_catch; [| intros e; keeps_logging].
  apply keeps_bind; [apply keeps_fetch | intros response].
  by apply keeps_after_kick_refresh.
Qed.

Section KeepsAdapters.
Context `{Host}.

Lemma keeps_checkTwitch (fuel : nat) :
  forall twitchSettings, keeps f (checkTwitch fuel twitchSettings).
Proof.
  induction fuel as [| fuel IH]; intros twitchSettings; [by intros w |].
  cbn [checkTwitch].
  repeat first
    [ apply IH
    | apply keeps_fetch
    | apply keeps_refreshTwitchToken
    | apply keeps_twitchEntry
    | keeps_step ].
Qed.

Lemma keeps_checkKick (fuel : nat) :
  forall kickSettings, keeps f (checkKick fuel kickSettings).
Proof.
  induction fuel as [| fuel IH]; intros kickSettings; [by intros w |].
  cbn [checkKick].
  repeat first
    [ apply IH
    | apply keeps_fetch
    | apply keeps_refreshKickToken
    | apply keeps_kickIsLive
    | apply keeps_kickEntry
    | keeps_step ].
Qed.

Lemma keeps_checkYouTube (ytSettings : Obj) : keeps f (checkYouTube ytSettings).
Proof.
  unfold checkYouTube. destruct (_ || _); [apply keeps_ret |].
  apply keeps_bind; [apply keeps_iterate | intros channels].
  apply keeps_foldM. intros out ch. unfold youtubeStep.
  repeat first
    [ apply keeps_fetch
    | apply keeps_youtubeEntry
    | keeps_step ].
Qed.

Hypothesis f_live : forall x w, f (set_streamtime_live x w) = f w.
Hypothesis f_last_poll : forall x w, f (set_streamtime_last_poll x w) = f w.

Lemma keeps_pollAll (fuel : nat) : keeps f (pollAll fuel).
Proof.
  unfold pollAll, pollAll_with, nowIso, Date_now.
  repeat first
    [ apply keeps_checkTwitch
    | apply keeps_checkKick
    | apply keeps_checkYouTube
    | apply keeps_modify; intros ?; first [apply f_live | apply f_last_poll]
    | keeps_step ].
Qed.
End KeepsAdapters.
End Keeps.

(** X22: the poll and the notification check work on separate parts of
    the world.  A poll, token refreshes included, creates no notification
    and leaves the set of the channels already announced alone; the
    notification check sends no request and writes neither the storage
    nor a cookie. *)
Theorem poll_and_check_are_apart `{Host} (fuel : nat) :
  keeps announced (pollAll fuel) /\ keeps polled checkLiveChannels.
Proof.
  split.
  - by apply keeps_pollAll.
  - intros w. destruct (checkLiveChannels w) as [[] w' | e w' |] eqn:Hrun;
      [| | done]; revert Hrun; unfold checkLiveChannels;
      (erewrite bind_Ret by reflexivity);
      (erewrite bind_Ret by reflexivity); cbv zeta;
      (erewrite bind_Ret by apply forEach_announce);
      (erewrite bind_Ret by apply forEach_announce);
      (erewrite bind_Ret by apply forEach_announce);
      (erewrite bind_Ret by reflexivity); [| done].
    by intros [= <-].
Qed.

Lemma announce_known (previous : gset string) (key title : Obj -> string)
    (message : Obj -> JsVal) (l : list Obj) :
  (forall stream, In stream l -> key stream ∈ previous) ->
  announce previous key title message l = [].
Proof.
  intros Hknown. unfold announce.
  induction l as [| stream l IH]; [done |]. cbn [List.filter].
  rewrite bool_decide_eq_false_2.
  - apply IH. intros s Hs. apply Hknown. by right.
  - intros Hnot. apply Hnot, Hknown. by left.
Qed.

Lemma newNotifications_known (liveData : LiveState) :
  newNotifications (list_to_set (liveKeys liveData)) liveData = [].
Proof.
  unfold newNotifications, liveKeys.
  rewrite !announce_known; [done | | |];
    intros stream Hin; apply elem_of_list_to_set, list_elem_of_In;
    rewrite !in_app_iff.
  - right. right. by apply in_map.
  - right. left. by apply in_map.
  - left. by apply in_map.
Qed.

(** X23: a notification check that follows another, with no poll in
    between, announces nothing: every live channel is in the set the
    first check left. *)
Theorem checkLiveChannels_twice (w : World) :
  exists w1 w2,
    checkLiveChannels w = Ret tt w1
    /\ checkLiveChannels w1 = Ret tt w2
    /\ notifications w2 = notifications w1
    /\ previousLiveChannels w2 = previousLiveChannels w1.
Proof.
  destruct (checkLiveChannels_run w) as (w1 & Hrun1 & _ & Hprev1 & Hlive1).
  destruct (checkLiveChannels_run w1) as (w2 & Hrun2 & Hnote2 & Hprev2 & _).
  exists w1, w2. split; [exact Hrun1 |]. split; [exact Hrun2 |].
  assert (storedLive w1 = storedLive w) as Hstored
    by (unfold storedLive; by rewrite Hlive1).
  split.
  - rewrite Hnote2, Hprev1, Hstored, newNotifications_known.
    by rewrite app_nil_r.
  - by rewrite Hprev2, Hprev1, Hstored.
Qed.

(** ** The requests of a token refresh *)

Lemma try_fetch_sent {A} (req : Request) (k : Response -> M A)
    (h : JsError -> M A) (w : World) :
  (forall r, keeps sent (k r)) -> (forall e, keeps sent (h e)) ->
  match try_catch (bind (fetch req) k) h w with
  | Ret _ w' | Thrown _ w' => sent w' = sent w ++ [req]
  | OutOfFuel => True
  end.
Proof.
  intros Hk Hh. unfold try_catch, bind, fetch.
  destruct (net w (length (sent w)) req) as [| r].
  - specialize (Hh NetworkError (set_sent (sent w ++ [req]) w)).
    by destruct (h NetworkError _).
  - specialize (Hk r (set_sent (sent w ++ [req]) w)).
    destruct (k r _) as [a w1 | e w1 |]; [done | | done].
    cbn in Hk. specialize (Hh e w1). destruct (h e w1); congruence.
Qed.

Lemma refreshTwitchToken_sent (clientId clientSecret refreshToken : JsVal)
    (w : World) :
  match refreshTwitchToken clientId clientSecret refreshToken w with
  | Ret _ w' | Thrown _ w' =>
      sent w' = sent w ++ [PostTwitchToken clientId clientSecret refreshToken]
  | OutOfFuel => True
  end.
Proof.
  unfold refreshTwitchToken. unfold bind at 1. cbn [console_log modify].
  match goal with |- context [try_catch (bind (fetch ?req) ?k) ?h ?w0] =>
    pose proof (try_fetch_sent req k h w0) as Hsent
  end.
  apply Hsent.
  - intros r. by apply keeps_after_twitch_refresh.
  - intros e. apply keeps_bind; [by apply keeps_console_log | intros _].
    apply keeps_ret.
Qed.

Lemma logs_twice (w : World) (l1 l2 : list (LogLevel * string)) :
  logs w (set_console (console (set_console (console w ++ l1) w) ++ l2)
            (set_console (console w ++ l1) w)).
Proof. exists (l1 ++ l2). cbn. by rewrite app_assoc. Qed.

Lemma refreshKickToken_sent (clientId clientSecret refreshToken : JsVal)
    (w : World) :
  match refreshKickToken clientId clientSecret refreshToken w with
  | Ret tok w' =>
      if truthy clientId && truthy clientSecret && truthy refreshToken
      then
        is_string clientId && is_string refreshToken = true
        /\ sent w'
           = sent w ++ [PostKickToken clientId clientSecret refreshToken]
      else tok = JNull /\ logs w w'
  | Thrown e w' =>
      e = TypeError /\ logs w w'
      /\ truthy clientId && truthy clientSecret && truthy refreshToken
         = true
      /\ is_string clientId && is_string refreshToken = false
  | OutOfFuel => True
  end.
Proof.
  unfold refreshKickToken.
  destruct (truthy clientId) eqn:Hc; cbn [negb orb andb];
    [| cbn; split; [done | by eexists]].
  destruct (truthy clientSecret) eqn:Hs; cbn [negb orb andb];
    [| cbn; split; [done | by eexists]].
  destruct (truthy refreshToken) eqn:Hr; cbn [negb orb andb];
    [| cbn; split; [done | by eexists]].
  unfold bind at 1. cbn [console_log modify].
  destruct clientId as [| | b | n | cid | items | o];
    try (cbn; split; [done |]; split; [by eexists | done]).
  unfold bind at 1. cbn [substring_receiver ret].
  unfold bind at 1. cbn [console_log modify].
  destruct refreshToken as [| | b | n | rt | items | o];
    try (cbn; split; [done |]; split; [apply logs_twice | done]).
  unfold bind at 1. cbn [substring_receiver ret].
  unfold bind at 1. cbn [console_log modify].
  match goal with |- context [try_catch (bind (fetch ?req) ?k) ?h ?w0] =>
    pose proof (try_fetch_sent req k h w0) as Hsent;
    pose proof (try_catch_logs_returns (bind (fetch req) k) LError
                  "[Kick] Refresh token error:" JNull w0) as Hcaught
  end.
  destruct (try_catch _ _ _) as [tok w' | e w' |]; [| done | done].
  split; [done |]. apply Hsent.
  - intros r. by apply keeps_after_kick_refresh.
  - intros e. apply keeps_bind; [by apply keeps_console_log | intros _].
    apply keeps_ret.
Qed.

(** X24: [refreshTwitchToken] always sends its request, one, and never
    throws, whatever the credentials are.  [refreshKickToken] sends
    nothing when a credential is missing, and returns [null]; it throws a
    [TypeError], before any request, when the credentials are there but the
    client id or the refresh token is not a string; otherwise it sends its
    one request. *)
Theorem refresh_requests (clientId clientSecret refreshToken : JsVal)
    (w : World) :
  (exists tok w',
      refreshTwitchToken clientId clientSecret refreshToken w = Ret tok w'
      /\ sent w'
         = sent w ++ [PostTwitchToken clientId clientSecret refreshToken])
  /\ match refreshKickToken clientId clientSecret refreshToken w with
     | Ret tok w' =>
         if truthy clientId && truthy clientSecret && truthy refreshToken
         then
           is_string clientId && is_string refreshToken = true
           /\ sent w'
              = sent w ++ [PostKickToken clientId clientSecret refreshToken]
         else tok = JNull /\ logs w w'
     | Thrown e w' =>
         e = TypeError /\ logs w w'
         /\ truthy clientId && truthy clientSecret && truthy refreshToken
            = true
         /\ is_string clientId && is_string refreshToken = false
     | OutOfFuel => False
     end.
Proof.
  split.
  - pose proof (refreshTwitchToken_sent clientId clientSecret refreshToken w)
      as Hsent.
    destruct (refreshTwitchToken_spec clientId clientSecret refreshToken w)
      as (tok & w' & Hrun & _).
    rewrite Hrun in Hsent. by exists tok, w'.
  - pose proof (refreshKickToken_sent clientId clientSecret refreshToken w)
      as Hsent.
    pose proof (refreshKickToken_spec clientId clientSecret refreshToken w)
      as Hspec.
    by destruct (refreshKickToken clientId clientSecret refreshToken w).
Qed.

(** * The listeners *)

(** X25: the listeners come back.  Whatever alarm fires and whatever
    message arrives, on a platform that stops refusing the token after [n]
    more requests the listener returns, with fuel [n + 1] for the poll: an
    exception of the work is caught and logged, and no alarm and no message
    stops the background script. *)
Theorem listeners_come_back `{Host} (n : nat) (name : string) (msg : JsVal)
    (w : World) :
  patient n w ->
  (exists w', onAlarm (S n) name w = Ret tt w')
  /\ (exists answer w', onMessage (S n) msg w = Ret answer w').
Proof.
  intros Hw. split.
  - unfold onAlarm, try_catch.
    destruct (String.eqb name "streamtime-main-poll").
    { destruct (pollAll_returns n w Hw) as (w' & _ & _ & _ & -> & _).
      by exists w'. }
    destruct (String.eqb name "streamtime-notification-check").
    { destruct (checkLiveChannels_run w) as (w' & -> & _). by exists w'. }
    destruct (String.eqb name "twitch-token-refresh").
    { destruct (loadSettings_returns w) as [settings Hload].
      rewrite (bind_Ret _ _ _ _ _ Hload). cbv zeta.
      match goal with |- context [refreshTwitchToken ?c ?s ?r] =>
        destruct (refreshTwitchToken_spec c s r w) as (tok & w' & Hrun & _)
      end.
      rewrite (bind_Ret _ _ _ _ _ Hrun). by exists w'. }
    destruct (String.eqb name "kick-token-refresh"); [| by exists w].
    destruct (loadSettings_returns w) as [settings Hload].
    rewrite (bind_Ret _ _ _ _ _ Hload). cbv zeta.
    match goal with |- context [refreshKickToken ?c ?s ?r] =>
      pose proof (refreshKickToken_spec c s r w) as Hspec;
      destruct (refreshKickToken c s r w) as [tok w' | e w' |] eqn:Hrun
    end; [| | done].
    + rewrite (bind_Ret _ _ _ _ _ Hrun). by exists w'.
    + rewrite (bind_Thrown _ _ _ _ _ Hrun). by eexists.
  - unfold onMessage.
    destruct (getPropOpt msg "action") as [| | b | z | action | items | o];
      try (by exists JUndef, w).
    destruct (String.eqb action "poll_now"); [| by exists JUndef, w].
    set (w0 := set_console
                 (console w
                  ++ [(LLog, "[StreamTime] Manual poll triggered from options.")])
                 w).
    assert (patient n w0) as Hw0.
    { eapply patient_grows; [exact Hw |]. by split. }
    destruct (pollAll_returns n w0 Hw0) as (w' & _ & _ & _ & Hrun & _).
    exists (JBool true), w'.
    rewrite (bind_Ret _ _ w w0 tt) by reflexivity.
    by rewrite (bind_Ret _ _ _ _ _ Hrun).
Qed.

(** * The theorems at work, on the pages and on the adapters *)

Lemma kickConvert_lookup_fails_witness :
  exists results p',
    kickConvert ["alice"; "bob"] EmptyString offlinePage = PRet results p'
    /\ Forall (fun o => exists s, In s ["alice"; "bob"]
                                  /\ o = [("slug", JStr s); ("id", JNull)])
              results.
Proof.
  apply (kickConvert_lookup_fails ["alice"; "bob"] EmptyString offlinePage).
  exact I.
Defined.

Lemma saveSettings_then_loadSettings_witness :
  exists w' settings,
    saveSettings "twitch" savedTwitch (quiet t90) = Ret tt w'
    /\ loadSettings w' = Ret settings w'
    /\ loadedField settings "twitch" "accessToken"
       = js_or (get savedTwitch "accessToken") (JStr EmptyString)
    /\ forall f v, f <> "accessToken" -> lookup_prop f savedTwitch = Some v ->
         loadedField settings "twitch" f = v.
Proof.
  apply (saveSettings_then_loadSettings "twitch" "https://api.twitch.tv/"
           "twitch_access_token" savedTwitch (quiet t90)).
  - left. reflexivity.
  - apply (bool_decide_unpack _). vm_compute. exact I.
Defined.

Lemma refreshed_token_is_loaded_witness :
  exists w' settings,
    refreshTwitchToken (JStr "c") (JStr "s") (JStr "r0") stubbornWorld
    = Ret (JStr "fresh") w'
    /\ loadSettings w' = Ret settings w'
    /\ loadedField settings "twitch" "accessToken" = JStr "fresh"
    /\ loadedField settings "twitch" "refreshToken"
       = durableField w' "twitch" "refreshToken".
Proof.
  destruct (refreshTwitchToken_granted (JStr "c") (JStr "s") (JStr "r0")
              stubbornWorld eq_refl) as (w' & Hrun & _).
  destruct (refreshed_token_is_loaded "twitch" (JStr "c") (JStr "s")
              (JStr "r0") (JStr "fresh") stubbornWorld w')
    as (settings & Hload & Htok & Hrefresh).
  - left. split; [reflexivity | exact Hrun].
  - reflexivity.
  - exists w', settings. split; [exact Hrun |]. split; [exact Hload |].
    split; [exact Htok | exact Hrefresh].
Defined.

Lemma checkTwitch_one_request_unless_refused_witness :
  exists entries w',
    checkTwitch 1 twitchSettings42 (set_net down (quiet t90)) = Ret entries w'
    /\ requests [twitchRequest twitchSettings42] (set_net down (quiet t90)) w'.
Proof.
  apply (checkTwitch_one_request_unless_refused 0 twitchSettings42
           (set_net down (quiet t90))).
  - reflexivity.
  - discriminate.
  - reflexivity.
Defined.

Lemma checkKick_one_request_unless_refused_witness :
  exists entries w',
    checkKick 1 kickSettings7 (set_net down (quiet t90)) = Ret entries w'
    /\ requests [kickRequest kickSettings7] (set_net down (quiet t90)) w'.
Proof.
  apply (checkKick_one_request_unless_refused 0 kickSettings7
           (set_net down (quiet t90))).
  - reflexivity.
  - discriminate.
  - reflexivity.
Defined.

Lemma checkTwitch_entries_witness :
  exists entries,
    let w' := set_sent [twitchRequest twitchSettings42]
                (set_net healthy (quiet t90)) in
    checkTwitch 1 twitchSettings42 (set_net healthy (quiet t90))
    = Ret entries w'
    /\ Forall2 (twitchEntryFor (now w')) [twitchStream42] entries.
Proof.
  apply (checkTwitch_entries 0 twitchSettings42 (set_net healthy (quiet t90))
           [twitchStream42]).
  - reflexivity.
  - discriminate.
  - eexists _, _. split; [reflexivity |]. split; [reflexivity |].
    split; [reflexivity |]. split; reflexivity.
Defined.

Lemma checkKick_entries_of_live_channels_witness :
  exists entries,
    let w' := set_sent [kickRequest kickSettings7]
                (set_net healthy (quiet t90)) in
    checkKick 1 kickSettings7 (set_net healthy (quiet t90)) = Ret entries w'
    /\ Forall2 (kickEntryFor (now w')) [kickChannel7] entries.
Proof.
  apply (checkKick_entries_of_live_channels 0 kickSettings7
           (set_net healthy (quiet t90)) [kickChannel7]).
  - reflexivity.
  - discriminate.
  - eexists _, _. split; [reflexivity |]. split; [reflexivity |].
    split; [reflexivity |]. split; reflexivity.
Defined.


Lemma unconverted_names_are_not_polled_witness :
  let settings :=
    [("clientId", JStr "c"); ("accessToken", JStr "tok");
     ("channels", unconvertedChannels "login" "alice, bob")] in
  checkTwitch 1 settings (set_net healthy (quiet t90))
  = Ret [] (set_net healthy (quiet t90))
  /\ checkKick 1 settings (set_net healthy (quiet t90))
     = Ret [] (set_net healthy (quiet t90)).
Proof.
  apply (unconverted_names_are_not_polled 0
           [("clientId", JStr "c"); ("accessToken", JStr "tok");
            ("channels", unconvertedChannels "login" "alice, bob")]
           "alice, bob" (set_net healthy (quiet t90))).
  left. reflexivity.
Defined.


Lemma listeners_come_back_witness :
  (exists w', onAlarm 1 "streamtime-main-poll" dedupWorld = Ret tt w')
  /\ (exists answer w',
         onMessage 1 (JObj [("action", JStr "poll_now")]) dedupWorld
         = Ret answer w').
Proof.
  apply (listeners_come_back 0 "streamtime-main-poll"
           (JObj [("action", JStr "poll_now")]) dedupWorld).
  intros i req r _ Hr. discriminate Hr.
Defined.
